(** * Job-array subjob tracking (src/server/array_func.c)

    A shallow embedding of the range codec ([parse_subjob_index],
    [cvt_range]), the index/offset mapper ([numindex_to_offset]), the
    tracking table ([mk_subjob_index_tbl]), the lifecycle operations
    ([set_subjob_tblstate], [chk_array_doneness], [fixup_arrayindicies],
    [update_subjob_state]), the subjob materializer ([create_subjob])
    and the job-id and path helpers ([mk_subjob_id], [find_arrayparent],
    [subst_array_index]), followed by the properties proved about them.

    Conventions.
    - A C [int] is a [Z]; the result of every [int] operation is brought
      back into the 32-bit range by [to_int] (two's-complement wrap).
      A [long] is 64 bits wide (LP64).
    - A C string is a [string]: the characters before the terminating
      NUL.  A [char *] into a string is the suffix that starts there, so
      [EmptyString] is a pointer at the NUL.
    - A [NULL]-able pointer is an [option].
    - [cvt_range] is modelled twice: [cvt_range] gives the text it
      writes, [cvt_range_static] also follows the size of its static,
      growing buffer and tells a write past its end; the two agree
      where the buffer suffices ([cvt_range_static_text]). *)

From Stdlib Require Import ZArith Lia String Ascii Bool.
From stdpp Require Import base tactics option list.

Local Open Scope string_scope.
Local Open Scope Z_scope.

(** ** Machine integers *)

Definition INT_MIN : Z := -2147483648.
Definition INT_MAX : Z := 2147483647.
Definition LONG_MIN : Z := -9223372036854775808.
Definition LONG_MAX : Z := 9223372036854775807.

(** Conversion to [int]: reduction modulo 2^32 into [INT_MIN, INT_MAX]. *)
Definition to_int (x : Z) : Z := (x + 2147483648) mod 4294967296 - 2147483648.

Definition int_add (x y : Z) : Z := to_int (x + y).
Definition int_sub (x y : Z) : Z := to_int (x - y).
Definition int_mul (x y : Z) : Z := to_int (x * y).

Definition is_int (x : Z) : Prop := INT_MIN <= x <= INT_MAX.

(** ** <ctype.h> and strtol in the C locale *)

Definition isspace (c : ascii) : bool :=
  let n := N_of_ascii c in
  (N.eqb n 32 || (N.leb 9 n && N.leb n 13))%N.

Definition isdigit (c : ascii) : bool :=
  let n := N_of_ascii c in
  (N.leb 48 n && N.leb n 57)%N.

Definition digit_value (c : ascii) : Z := Z.of_N (N_of_ascii c) - 48.

(** The test [pc[0] == c]; false at the terminating NUL. *)
Definition char_at (c : ascii) (pc : string) : bool :=
  match pc with
  | String d _ => Ascii.eqb d c
  | EmptyString => false
  end.

(** The test [pc[0] == NUL]. *)
Definition at_nul (pc : string) : bool :=
  match pc with
  | EmptyString => true
  | String _ _ => false
  end.

(** The tests [isspace(pc[0])] and [isdigit(pc[0])]. *)
Definition space_at (pc : string) : bool :=
  match pc with
  | String d _ => isspace d
  | EmptyString => false
  end.

Definition digit_at (pc : string) : bool :=
  match pc with
  | String d _ => isdigit d
  | EmptyString => false
  end.

(** [pc + 1] *)
Definition advance (pc : string) : string :=
  match pc with
  | String _ r => r
  | EmptyString => EmptyString
  end.

(** The loop [while (isspace(pc[0])) pc++]. *)
Fixpoint skip_spaces (pc : string) : string :=
  match pc with
  | String c r => if isspace c then skip_spaces r else pc
  | EmptyString => pc
  end.

(** The loop [while (isspace(pc[0]) || pc[0] == ',') pc++]. *)
Fixpoint skip_spaces_commas (pc : string) : string :=
  match pc with
  | String c r =>
      if isspace c || Ascii.eqb c "," then skip_spaces_commas r else pc
  | EmptyString => pc
  end.

(** The digit loop of [strtol]: the value read so far and the rest. *)
Fixpoint strtol_digits (acc : Z) (pc : string) : Z * string :=
  match pc with
  | String c r =>
      if isdigit c then strtol_digits (acc * 10 + digit_value c) r
      else (acc, pc)
  | EmptyString => (acc, pc)
  end.

Definition clamp_long (x : Z) : Z :=
  if x <? LONG_MIN then LONG_MIN
  else if LONG_MAX <? x then LONG_MAX
  else x.

(** [strtol(nptr, &endptr, 10)]: white space, an optional sign, decimal
    digits.  Without a digit the value is 0 and [endptr] is [nptr]; a
    value out of range is clamped to [LONG_MIN] or [LONG_MAX]. *)
Definition strtol (nptr : string) : Z * string :=
  let s := skip_spaces nptr in
  let '(neg, s) :=
    if char_at "-" s then (true, advance s)
    else if char_at "+" s then (false, advance s)
    else (false, s) in
  if digit_at s then
    let '(v, endptr) := strtol_digits 0 s in
    (clamp_long (if neg then - v else v), endptr)
  else (0, nptr).

(** [atoi(s)] is [(int) strtol(s, NULL, 10)]. *)
Definition atoi (s : string) : Z := to_int (fst (strtol s)).

(** ** The printf conversion %d *)

Definition digit_char (d : Z) : ascii := ascii_of_N (Z.to_N (48 + d)).

Fixpoint print_digits (fuel : nat) (n : Z) (acc : string) : string :=
  let acc' := String (digit_char (n mod 10)) acc in
  match fuel with
  | O => acc'
  | S fuel' => if n / 10 =? 0 then acc' else print_digits fuel' (n / 10) acc'
  end.

(** Decimal text of a non-negative number.  A number below 2^k has at
    most k decimal digits, so [Z.log2 n] steps always suffice. *)
Definition print_nat (n : Z) : string :=
  print_digits (Z.to_nat (Z.log2 n)) n EmptyString.

Definition sprintf_d (n : Z) : string :=
  if n <? 0 then String "-" (print_nat (- n)) else print_nat n.

(** ** The range codec: parse_subjob_index *)

(** The three answers of [parse_subjob_index]: 0 with the out-parameters
    set, 1 (no more indices, with the count set to 0), and -1. *)
Inductive parse_result : Type :=
  | Parsed (ep : string) (start end_ step count : Z)
  | NoMore (ep : string)
  | ParseError.

Definition parse_rc (r : parse_result) : Z :=
  match r with
  | Parsed _ _ _ _ _ => 0
  | NoMore _ => 1
  | ParseError => -1
  end.

(** The common exit at the bottom of [parse_subjob_index]. *)
Definition parse_finish (pc : string) (start end_ step : Z) : parse_result :=
  Parsed pc start end_ step
    (Z.quot (int_add (int_sub end_ start) step) step).

Definition parse_subjob_index (pc : string) : parse_result :=
  let pc := skip_spaces_commas pc in
  if at_nul pc || char_at "]" pc then NoMore pc
  else if negb (digit_at pc) then ParseError
  else
    let '(v, eptr) := strtol pc in
    let start := to_int v in
    let pc := skip_spaces eptr in
    if char_at "," pc || at_nul pc || char_at "]" pc then
      (* the X, or X case *)
      let pc := if char_at "," pc then advance pc else pc in
      parse_finish pc start start 1
    else if negb (char_at "-" pc) then ParseError
    else
      (* should be X-Y[:Z] case *)
      let '(v, eptr) := strtol (advance pc) in
      let end_ := to_int v in
      let pc := if space_at eptr then advance eptr else eptr in
      let tail :=
        if at_nul pc || char_at "," pc || char_at "]" pc then Some (1, pc)
        else if negb (char_at ":" pc) then None
        else
          let pc := skip_spaces (advance pc) in
          let '(v, eptr) := strtol pc in
          let pc := skip_spaces eptr in
          Some (to_int v, if char_at "," pc then advance pc else pc) in
      match tail with
      | None => ParseError
      | Some (step, pc) =>
          (* y must be greater than x for a range and z must be greater 0 *)
          if (start >=? end_) || (step <? 1) then ParseError
          else parse_finish pc start end_ step
      end.

(** ** The data model (job.h; the fields the functions below use) *)

(** The job states, in the order of their numbers 0..9 (the order of the
    [statename] table in [update_subjob_state_ct]). *)
Inductive job_state : Type :=
  | JOB_STATE_TRANSIT
  | JOB_STATE_QUEUED
  | JOB_STATE_HELD
  | JOB_STATE_WAITING
  | JOB_STATE_RUNNING
  | JOB_STATE_EXITING
  | JOB_STATE_EXPIRED
  | JOB_STATE_BEGUN
  | JOB_STATE_MOVED
  | JOB_STATE_FINISHED.

#[global] Instance job_state_eq_dec : EqDecision job_state.
Proof. solve_decision. Defined.

(** The [actmode] of an attribute action routine. *)
Inductive atr_action : Type :=
  | ATR_ACTION_NOOP
  | ATR_ACTION_ALTER
  | ATR_ACTION_NEW
  | ATR_ACTION_RECOV
  | ATR_ACTION_FREE.

#[global] Instance atr_action_eq_dec : EqDecision atr_action.
Proof. solve_decision. Defined.

(** The error codes the functions below return. *)
Inductive pbs_error : Type :=
  | PBSE_NONE
  | PBSE_BADATVAL
  | PBSE_MaxArraySize
  | PBSE_SYSTEM
  | PBSE_IVALREQ
  | PBSE_UNKJOBID
  | PBSE_BADSTATE
  | PBSE_MODATRRUN.

#[global] Instance pbs_error_eq_dec : EqDecision pbs_error.
Proof. solve_decision. Defined.

(** The header constants whose values the sources do not show: flag bits
    and substate numbers.  Nothing below depends on their values beyond
    what the theorems assume explicitly. *)
Class job_h : Type := {
  TKMFLG_NO_DELETE : Z;
  TKMFLG_CHK_ARRAY : Z;
  TKMFLG_REVAL_IND_REMAINING : Z;
  JOB_SVFLG_ArrayJob : Z;
  JOB_SVFLG_SubJob : Z;
  JOB_SVFLG_HERE : Z;
  JOB_SUBSTATE_TRANSICM : Z;
  JOB_SUBSTATE_QUEUED : Z;
  JOB_SUBSTATE_FINISHED : Z;
  JOB_UNION_TYPE_EXEC : Z
}.

(** The default limit; "default limit 10000" in [mk_subjob_index_tbl]. *)
Definition PBS_MAX_ARRAY_JOB_DFL : Z := 10000.

(** [struct ajtrk]: one slot per subjob.  The pointer to the
    instantiated subjob is the subjob's job id. *)
Record ajtrk : Type := mk_ajtrk {
  trk_status : job_state;
  trk_error : Z;
  trk_discarding : Z;
  trk_substate : Z;
  trk_stgout : Z;
  trk_exitstat : Z;
  trk_psubjob : option string
}.

(** [struct ajtrkhd]: the tracking table.  [tkm_subjsct] is the array of
    [PBS_NUMJOBSTATE] counters, one per job state. *)
Record ajtrkhd : Type := mk_ajtrkhd {
  tkm_ct : Z;
  tkm_start : Z;
  tkm_end : Z;
  tkm_step : Z;
  tkm_flags : Z;
  tkm_subjsct : job_state -> Z;
  tkm_dsubjsct : Z;
  tkm_tbl : list ajtrk
}.

(** [struct job]: the fixed save area [ji_qs], the array fields and the
    attributes of [ji_wattr] that the functions below read or write. *)
Record job : Type := mk_job {
  ji_jobid : string;
  ji_state : job_state;
  ji_substate : Z;
  ji_svrflags : Z;
  ji_un_type : Z;
  ji_momaddr : Z;
  ji_momport : Z;
  ji_exitstat : Z;
  ji_ajtrk : option ajtrkhd;
  ji_subjindx : Z;
  ji_parentaj : option string;
  at_depend_set : bool;
  at_array : option Z;
  at_array_id : option string;
  at_array_index : option string;
  at_array_indices_submitted : option string;
  at_array_indices_remaining : option string;
  at_array_state_count : option string
}.

(** What the server around the job supplies to one call. *)
Record server_env : Type := mk_env {
  sv_maxarraysize : option Z;
  malloc_ok : bool;
  svr_enquejob_rc : Z
}.

(** Calls into the other server modules, in the order they are made. *)
Inductive event : Type :=
  | Ev_check_block
  | Ev_account_job_update
  | Ev_set_attr_rsc_used_acct
  | Ev_account_jobend (e : Z)
  | Ev_svr_mailowner (e : Z)
  | Ev_depend_on_term
  | Ev_svr_saveorpurge_finjobhist
  | Ev_job_save_db
  | Ev_svr_enquejob (jid : string)
  | Ev_job_purge (jid : string).

(** Field updates. *)
Definition set_trk_status (s : job_state) (e : ajtrk) : ajtrk :=
  mk_ajtrk s (trk_error e) (trk_discarding e) (trk_substate e)
    (trk_stgout e) (trk_exitstat e) (trk_psubjob e).

Definition set_trk_psubjob (p : option string) (e : ajtrk) : ajtrk :=
  mk_ajtrk (trk_status e) (trk_error e) (trk_discarding e) (trk_substate e)
    (trk_stgout e) (trk_exitstat e) p.

Definition set_tkm_tbl (l : list ajtrk) (t : ajtrkhd) : ajtrkhd :=
  mk_ajtrkhd (tkm_ct t) (tkm_start t) (tkm_end t) (tkm_step t) (tkm_flags t)
    (tkm_subjsct t) (tkm_dsubjsct t) l.

Definition set_tkm_flags (f : Z) (t : ajtrkhd) : ajtrkhd :=
  mk_ajtrkhd (tkm_ct t) (tkm_start t) (tkm_end t) (tkm_step t) f
    (tkm_subjsct t) (tkm_dsubjsct t) (tkm_tbl t).

Definition set_tkm_subjsct (h : job_state -> Z) (t : ajtrkhd) : ajtrkhd :=
  mk_ajtrkhd (tkm_ct t) (tkm_start t) (tkm_end t) (tkm_step t) (tkm_flags t)
    h (tkm_dsubjsct t) (tkm_tbl t).

Definition set_ji_ajtrk (t : option ajtrkhd) (j : job) : job :=
  mk_job (ji_jobid j) (ji_state j) (ji_substate j) (ji_svrflags j)
    (ji_un_type j) (ji_momaddr j) (ji_momport j) (ji_exitstat j) t
    (ji_subjindx j) (ji_parentaj j) (at_depend_set j) (at_array j)
    (at_array_id j) (at_array_index j) (at_array_indices_submitted j)
    (at_array_indices_remaining j) (at_array_state_count j).

Definition set_ji_exect (ty addr port e : Z) (j : job) : job :=
  mk_job (ji_jobid j) (ji_state j) (ji_substate j) (ji_svrflags j)
    ty addr port e (ji_ajtrk j)
    (ji_subjindx j) (ji_parentaj j) (at_depend_set j) (at_array j)
    (at_array_id j) (at_array_index j) (at_array_indices_submitted j)
    (at_array_indices_remaining j) (at_array_state_count j).

Definition set_ji_svrflags (f : Z) (j : job) : job :=
  mk_job (ji_jobid j) (ji_state j) (ji_substate j) f
    (ji_un_type j) (ji_momaddr j) (ji_momport j) (ji_exitstat j) (ji_ajtrk j)
    (ji_subjindx j) (ji_parentaj j) (at_depend_set j) (at_array j)
    (at_array_id j) (at_array_index j) (at_array_indices_submitted j)
    (at_array_indices_remaining j) (at_array_state_count j).

Definition set_at_array (v : option Z) (j : job) : job :=
  mk_job (ji_jobid j) (ji_state j) (ji_substate j) (ji_svrflags j)
    (ji_un_type j) (ji_momaddr j) (ji_momport j) (ji_exitstat j) (ji_ajtrk j)
    (ji_subjindx j) (ji_parentaj j) (at_depend_set j) v
    (at_array_id j) (at_array_index j) (at_array_indices_submitted j)
    (at_array_indices_remaining j) (at_array_state_count j).

Definition set_at_array_indices_remaining (v : option string) (j : job) : job :=
  mk_job (ji_jobid j) (ji_state j) (ji_substate j) (ji_svrflags j)
    (ji_un_type j) (ji_momaddr j) (ji_momport j) (ji_exitstat j) (ji_ajtrk j)
    (ji_subjindx j) (ji_parentaj j) (at_depend_set j) (at_array j)
    (at_array_id j) (at_array_index j) (at_array_indices_submitted j)
    v (at_array_state_count j).

Definition set_at_array_state_count (v : option string) (j : job) : job :=
  mk_job (ji_jobid j) (ji_state j) (ji_substate j) (ji_svrflags j)
    (ji_un_type j) (ji_momaddr j) (ji_momport j) (ji_exitstat j) (ji_ajtrk j)
    (ji_subjindx j) (ji_parentaj j) (at_depend_set j) (at_array j)
    (at_array_id j) (at_array_index j) (at_array_indices_submitted j)
    (at_array_indices_remaining j) v.

(** [tkm_tbl[i]] for an [int] index; [None] outside the allocated slots,
    where the C access is undefined. *)
Definition tbl_get (ptbl : ajtrkhd) (i : Z) : option ajtrk :=
  if i <? 0 then None else tkm_tbl ptbl !! Z.to_nat i.

(** [a[s] = v] on the counter array. *)
Definition subjsct_set (h : job_state -> Z) (s : job_state) (v : Z)
  : job_state -> Z :=
  fun s' => if decide (s' = s) then v else h s'.

(** ** The index/offset mapper *)

(** Modelled from the spec: the macro [SJ_TBLIDX_2_IDX] of job.h is not
    among the sources; section 4.2 gives the external index of an offset
    as [start + offset*step]. *)
Definition SJ_TBLIDX_2_IDX (ptbl : ajtrkhd) (idx : Z) : Z :=
  int_add (tkm_start ptbl) (int_mul idx (tkm_step ptbl)).

(** The C operators [%] and [/] truncate towards zero: [Z.rem] and
    [Z.quot].  A table with [tkm_step = 0] makes them undefined in C. *)
Definition numindex_to_offset (parent : job) (iindx : Z) : Z :=
  match ji_ajtrk parent with
  | None => -1
  | Some ptbl =>
      if negb (Z.rem (int_sub iindx (tkm_start ptbl)) (tkm_step ptbl) =? 0)
         || (tkm_start ptbl >? iindx) || (iindx >? tkm_end ptbl)
      then -1
      else
        let i := Z.quot (int_sub iindx (tkm_start ptbl)) (tkm_step ptbl) in
        (* reverse lookup of offset to subjob index *)
        if negb (SJ_TBLIDX_2_IDX ptbl i =? iindx) then -1 else i
  end.

Definition subjob_index_to_offset (parent : job) (index : string) : Z :=
  match ji_ajtrk parent with
  | None => -1
  | Some _ => if at_nul index then -1 else numindex_to_offset parent (atoi index)
  end.

(** [strchr(s, c)]: the suffix that starts at the first [c]. *)
Fixpoint strchr (s : string) (c : ascii) : option string :=
  match s with
  | String d r => if Ascii.eqb d c then Some s else strchr r c
  | EmptyString => None
  end.

(** The characters of [s] before the first [c] (all of them without one). *)
Fixpoint before_char (s : string) (c : ascii) : string :=
  match s with
  | String d r => if Ascii.eqb d c then EmptyString else String d (before_char r c)
  | EmptyString => EmptyString
  end.

Inductive is_array_kind : Type :=
  | IS_ARRAY_NO
  | IS_ARRAY_ArrayJob
  | IS_ARRAY_Single
  | IS_ARRAY_Range.

(** [while (isdigit(pc[0])) ++pc] *)
Fixpoint skip_digits (pc : string) : string :=
  match pc with
  | String c r => if isdigit c then skip_digits r else pc
  | EmptyString => pc
  end.

Definition is_job_array (id : string) : is_array_kind :=
  match strchr id "[" with
  | None => IS_ARRAY_NO
  | Some pc =>
      let pc := advance pc in
      if char_at "]" pc then IS_ARRAY_ArrayJob
      else
        let pc := skip_digits pc in
        if char_at "-" pc || char_at "," pc then IS_ARRAY_Range
        else IS_ARRAY_Single
  end.

(** The text between the first '[' and the first ']' of a job id; [None]
    when either is missing or the ']' does not come after the '['.  The
    static buffer for the text is taken to be allocated (the code
    answers [NULL] also when its [malloc] or [realloc] fails). *)
Definition get_index_from_jid (newjid : string) : option string :=
  match strchr newjid "[", strchr newjid "]" with
  | Some pcb, Some pce =>
      if (String.length pcb <=? String.length pce)%nat then None
      else Some (before_char (advance pcb) "]")
  | _, _ => None
  end.

(** ** The range codec: cvt_range *)

(** The test [tkm_tbl[i].trk_status == state]; a table has a slot for
    every offset below [tkm_ct], and the test is false beyond them. *)
Definition status_is (ptbl : ajtrkhd) (i : nat) (state : job_state) : bool :=
  match tkm_tbl ptbl !! i with
  | Some ent => bool_decide (trk_status ent = state)
  | None => false
  end.

(** The inner loop: [last] after the run that starts before [next]. *)
Fixpoint cvt_range_run (fuel : nat) (ptbl : ajtrkhd) (state : job_state)
    (next last : nat) : nat :=
  match fuel with
  | O => last
  | S fuel' =>
      if (Z.of_nat next <? tkm_ct ptbl) && status_is ptbl next state
      then cvt_range_run fuel' ptbl state (S next) next
      else last
  end.

(** The outer loop.  [first], [next] and [last] are [unsigned int]
    offsets below [tkm_ct]; [buf] is the text written so far. *)
Fixpoint cvt_range_loop (fuel : nat) (ptbl : ajtrkhd) (state : job_state)
    (first : nat) (pcomma : bool) (buf : string) : string :=
  match fuel with
  | O => buf
  | S fuel' =>
      if Z.of_nat first <? tkm_ct ptbl then
        if status_is ptbl first state then
          let last :=
            cvt_range_run (Z.to_nat (tkm_ct ptbl)) ptbl state (S first) first in
          (* add "first" or ",first" *)
          let buf := if pcomma then buf ++ "," else buf in
          let buf := buf ++ sprintf_d (SJ_TBLIDX_2_IDX ptbl (Z.of_nat first)) in
          let buf :=
            if (S first <? last)%nat then
              if tkm_step ptbl >? 1 then
                buf ++ "-" ++ sprintf_d (SJ_TBLIDX_2_IDX ptbl (Z.of_nat last))
                    ++ ":" ++ sprintf_d (tkm_step ptbl)
              else
                buf ++ "-" ++ sprintf_d (SJ_TBLIDX_2_IDX ptbl (Z.of_nat last))
            else if (first <? last)%nat then
              buf ++ "," ++ sprintf_d (SJ_TBLIDX_2_IDX ptbl (Z.of_nat last))
            else buf in
          cvt_range_loop fuel' ptbl state (S last) true buf
        else cvt_range_loop fuel' ptbl state (S first) pcomma buf
      else buf
  end.

(** Each turn of the outer loop advances [first], so [tkm_ct] turns are
    enough; [None] is the [NULL] answer for a job without a table. *)
Definition cvt_range (pjob : job) (state : job_state) : option string :=
  match ji_ajtrk pjob with
  | None => None
  | Some ptbl =>
      Some (cvt_range_loop (Z.to_nat (tkm_ct ptbl)) ptbl state 0 false EmptyString)
  end.

(** *** The static buffer of cvt_range

    [cvt_range] writes into a static buffer that it allocates at its
    first call (1000 bytes) and grows by 500 bytes whenever fewer than 20
    bytes are free at the start of a turn.  The model above gives the
    text; the model below also follows the size [buflen] of the buffer:
    every [sprintf] writes its text and a NUL at the end of the text
    written so far, and a write past [buflen] is undefined. *)

Inductive cvt_result : Type :=
  | Cvt_text (buf : string) (buflen : Z) (* the text, and the size of the buffer *)
  | Cvt_null (* NULL: no table, or an allocation failed *)
  | Cvt_undefined. (* a write past the end of the buffer *)

(** [sprintf(buf + strlen(buf), ...)] of the text [piece]. *)
Definition sprintf_at (buflen : Z) (buf piece : string) : option string :=
  if buflen <? Z.of_nat (String.length buf) + Z.of_nat (String.length piece) + 1
  then None
  else Some (buf ++ piece).

(** The outer loop with the buffer; [alloc_ok] is the success of
    [malloc] and [realloc]. *)
Fixpoint cvt_range_static_loop (fuel : nat) (alloc_ok : bool) (ptbl : ajtrkhd)
    (state : job_state) (first : nat) (pcomma : bool) (buf : string)
    (buflen : Z) : cvt_result :=
  match fuel with
  | O => Cvt_text buf buflen
  | S fuel' =>
      if Z.of_nat first <? tkm_ct ptbl then
        let expand := buflen - Z.of_nat (String.length buf) <? 20 in
        if expand && negb alloc_ok then Cvt_null
        else
          (* expand buf *)
          let buflen := if expand then buflen + 500 else buflen in
          if status_is ptbl first state then
            let last :=
              cvt_range_run (Z.to_nat (tkm_ct ptbl)) ptbl state (S first) first in
            let written :=
              (* add "first" or ",first" *)
              buf ← (if pcomma then sprintf_at buflen buf "," else Some buf);
              buf ← sprintf_at buflen buf
                      (sprintf_d (SJ_TBLIDX_2_IDX ptbl (Z.of_nat first)));
              if (S first <? last)%nat then
                if tkm_step ptbl >? 1 then
                  sprintf_at buflen buf
                    ("-" ++ sprintf_d (SJ_TBLIDX_2_IDX ptbl (Z.of_nat last))
                         ++ ":" ++ sprintf_d (tkm_step ptbl))
                else
                  sprintf_at buflen buf
                    ("-" ++ sprintf_d (SJ_TBLIDX_2_IDX ptbl (Z.of_nat last)))
              else if (first <? last)%nat then
                sprintf_at buflen buf
                  ("," ++ sprintf_d (SJ_TBLIDX_2_IDX ptbl (Z.of_nat last)))
              else Some buf in
            match written with
            | None => Cvt_undefined
            | Some buf =>
                cvt_range_static_loop fuel' alloc_ok ptbl state (S last) true
                  buf buflen
            end
          else
            cvt_range_static_loop fuel' alloc_ok ptbl state (S first) pcomma
              buf buflen
      else Cvt_text buf buflen
  end.

(** [buflen0] is the size of the static buffer when the call starts,
    [None] before the first allocation ([buf == NULL]). *)
Definition cvt_range_static (alloc_ok : bool) (buflen0 : option Z)
    (pjob : job) (state : job_state) : cvt_result :=
  match ji_ajtrk pjob with
  | None => Cvt_null
  | Some ptbl =>
      let allocated :=
        match buflen0 with
        | Some buflen => Some buflen
        | None => if alloc_ok then Some 1000 else None
        end in
      match allocated with
      | None => Cvt_null
      | Some buflen =>
          if buflen <? 1 then Cvt_undefined (* initialize buf to empty *)
          else
            cvt_range_static_loop (Z.to_nat (tkm_ct ptbl)) alloc_ok ptbl state
              0 false EmptyString buflen
      end
  end.

(** ** Repeated parsing, as in the loop of fixup_arrayindicies *)

(** The indices [start, start+step, ...] not above [end_], as the loop
    [for (i = start; i <= end; i += step)] visits them; [None] when
    [fuel] turns do not reach the end of the loop. *)
Fixpoint range_indices (fuel : nat) (i end_ step : Z) : option (list Z) :=
  if i <=? end_ then
    match fuel with
    | O => None
    | S fuel' => cons i <$> range_indices fuel' (int_add i step) end_ step
    end
  else Some [].

(** The segments of a text: [parse_subjob_index] called again on the
    rest until it answers non-zero, with that last answer.  Every
    successful call consumes a digit, so [S (length str)] turns always
    reach the end; [None] when [fuel] turns do not. *)
Fixpoint parse_segments (fuel : nat) (str : string)
  : option (list (Z * Z * Z * Z) * parse_result) :=
  match parse_subjob_index str with
  | Parsed ep start end_ step count =>
      match fuel with
      | O => None
      | S fuel' =>
          '(segs, last) ← parse_segments fuel' ep;
          Some ((start, end_, step, count) :: segs, last)
      end
  | r => Some ([], r)
  end.

(** The indices a segment stands for. *)
Definition segment_indices (seg : Z * Z * Z * Z) : option (list Z) :=
  let '(start, end_, step, count) := seg in
  range_indices (Z.to_nat count) start end_ step.

(** All indices of a text, segment after segment. *)
Fixpoint segments_indices (segs : list (Z * Z * Z * Z)) : option (list Z) :=
  match segs with
  | [] => Some []
  | seg :: rest =>
      l ← segment_indices seg;
      ls ← segments_indices rest;
      Some (l ++ ls)%list
  end.

Definition parse_indices (str : string) : option (list Z * parse_result) :=
  '(segs, last) ← parse_segments (S (String.length str)) str;
  l ← segments_indices segs;
  Some (l, last).

(** ** The tracking table and its lifecycle *)

Section Server.
Context `{hdr : job_h}.

(** The slot [offset] of the table is read and written unguarded, so
    the answer is [None] (undefined) for an [offset] other than -1 that
    is outside the table.  The parent is a resident job, never [NULL]. *)
Definition set_subjob_tblstate (parent : job) (offset : Z)
    (newstate : job_state) : option job :=
  if offset =? -1 then Some parent
  else
    match ji_ajtrk parent with
    | None => Some parent
    | Some ptbl =>
        ent ← tbl_get ptbl offset;
        let oldstate := trk_status ent in
        if decide (oldstate = newstate) then Some parent (* nothing to do *)
        else
          let tbl := <[Z.to_nat offset := set_trk_status newstate ent]> (tkm_tbl ptbl) in
          let ct := tkm_subjsct ptbl in
          let ct := subjsct_set ct oldstate (int_sub (ct oldstate) 1) in
          let ct := subjsct_set ct newstate (int_add (ct newstate) 1) in
          let flags := Z.lor (tkm_flags ptbl) TKMFLG_REVAL_IND_REMAINING in
          Some (set_ji_ajtrk
                  (Some (set_tkm_flags flags
                           (set_tkm_subjsct ct (set_tkm_tbl tbl ptbl))))
                  parent)
    end.

(** A sequence of [set_subjob_tblstate] calls on one parent. *)
Fixpoint set_subjob_tblstates (parent : job) (calls : list (Z * job_state))
  : option job :=
  match calls with
  | [] => Some parent
  | (offset, newstate) :: rest =>
      parent' ← set_subjob_tblstate parent offset newstate;
      set_subjob_tblstates parent' rest
  end.

(** The text "Queued:q Running:r Exiting:e Expired:x " of the attribute
    array_state_count. *)
Definition update_subjob_state_ct (pjob : job) : job :=
  match ji_ajtrk pjob with
  | None => pjob
  | Some ptbl =>
      let buf :=
        "Queued:" ++ sprintf_d (tkm_subjsct ptbl JOB_STATE_QUEUED) ++ " "
        ++ "Running:" ++ sprintf_d (tkm_subjsct ptbl JOB_STATE_RUNNING) ++ " "
        ++ "Exiting:" ++ sprintf_d (tkm_subjsct ptbl JOB_STATE_EXITING) ++ " "
        ++ "Expired:" ++ sprintf_d (tkm_subjsct ptbl JOB_STATE_EXPIRED) ++ " " in
      set_at_array_state_count (Some buf) pjob
  end.

(** Called on a job that has a table.  The attribute's [at_free] and
    [at_decode] replace its text by a copy of [pnewstr]. *)
Definition update_array_indices_remaining_attr (parent : job) : job :=
  match ji_ajtrk parent with
  | None => parent
  | Some ptbl =>
      if negb (Z.land (tkm_flags ptbl) TKMFLG_REVAL_IND_REMAINING =? 0) then
        let pnewstr :=
          match cvt_range parent JOB_STATE_QUEUED with
          | None => "-"
          | Some str => if at_nul str then "-" else str
          end in
        let parent := set_at_array_indices_remaining (Some pnewstr) parent in
        (* also update value of attribute "array_state_count" *)
        let parent := update_subjob_state_ct parent in
        let flags :=
          Z.land (tkm_flags ptbl) (Z.lnot TKMFLG_REVAL_IND_REMAINING) in
        set_ji_ajtrk (Some (set_tkm_flags flags ptbl)) parent
      else parent
  end.

(** The scan of [chk_array_doneness] over the slots still to visit:
    the exit status [e] and the offset [i] at which the loop stops. *)
Fixpoint scan_errors (tbl : list ajtrk) (e : Z) (i : Z) : Z * Z :=
  match tbl with
  | [] => (e, i)
  | ent :: rest =>
      if trk_error ent >? 0 then scan_errors rest 1 (i + 1)
      else if trk_error ent <? 0 then (2, i)
      else scan_errors rest e (i + 1)
  end.

(** The calls into accounting, mail, dependencies, history and the
    database are recorded as events, in call order. *)
Definition chk_array_doneness (parent : job) : job * list event :=
  match ji_ajtrk parent with
  | None => (parent, [])
  | Some ptbl =>
      if negb (Z.land (tkm_flags ptbl)
                 (Z.lor TKMFLG_NO_DELETE TKMFLG_CHK_ARRAY) =? 0)
      then (parent, []) (* delete of subjobs in progress, or re-entering *)
      else if int_add (int_add (int_add (tkm_subjsct ptbl JOB_STATE_QUEUED)
                                  (tkm_subjsct ptbl JOB_STATE_RUNNING))
                         (tkm_subjsct ptbl JOB_STATE_HELD))
                (tkm_subjsct ptbl JOB_STATE_EXITING) =? 0
      then
        (* Array Job all done, do simple eoj processing *)
        let e := fst (scan_errors (take (Z.to_nat (tkm_ct ptbl)) (tkm_tbl ptbl)) 0 0) in
        let parent := set_ji_exect JOB_UNION_TYPE_EXEC 0 0 e parent in
        let acct :=
          if decide (ji_state parent = JOB_STATE_BEGUN) then
            [Ev_account_job_update; Ev_set_attr_rsc_used_acct;
             Ev_account_jobend e; Ev_svr_mailowner e]
          else [] in
        let dep := if at_depend_set parent then [Ev_depend_on_term] else [] in
        let flags := Z.lor (tkm_flags ptbl) TKMFLG_CHK_ARRAY in
        (set_ji_ajtrk (Some (set_tkm_flags flags ptbl)) parent,
         [Ev_check_block] ++ acct ++ dep ++ [Ev_svr_saveorpurge_finjobhist])%list
      else
        (update_array_indices_remaining_attr parent, [Ev_job_save_db])
  end.

(** *** Construction *)

Inductive build_result : Type :=
  | Built (trktbl : ajtrkhd)
  | BuildError (pbserror : pbs_error)
  | BuildUndefined.

Definition new_ajtrk (initalstate : job_state) : ajtrk :=
  mk_ajtrk initalstate 0 0 JOB_SUBSTATE_FINISHED (-1) 0 None.

(** The loop [for (i = start; i <= end; i += step, j++)] that writes
    slot [j]: the slots written, in order.  [room] is the number of
    slots left in the allocation; a write past it is undefined. *)
Fixpoint fill_tbl (room : nat) (i end_ step : Z) (initalstate : job_state)
  : option (list ajtrk) :=
  if i <=? end_ then
    match room with
    | O => None
    | S room' =>
        cons (new_ajtrk initalstate)
          <$> fill_tbl room' (int_add i step) end_ step initalstate
    end
  else Some [].

Definition mk_subjob_index_tbl (env : server_env) (range : string)
    (initalstate : job_state) (mode : atr_action) : build_result :=
  match parse_subjob_index range with
  | Parsed eptr start end_ step count =>
      let limit :=
        match sv_maxarraysize env with
        | Some l => to_int l
        | None => PBS_MAX_ARRAY_JOB_DFL (* default limit 10000 *)
        end in
      if (bool_decide (mode = ATR_ACTION_NEW)
          || bool_decide (mode = ATR_ACTION_ALTER)) && (count >? limit)
      then BuildError PBSE_MaxArraySize
      else if negb (malloc_ok env) then BuildError PBSE_SYSTEM
      else
        match fill_tbl (Z.to_nat count) start end_ step initalstate with
        | None => BuildUndefined
        | Some tbl =>
            Built (mk_ajtrkhd count start end_ step 0
                     (subjsct_set (fun _ => 0) JOB_STATE_QUEUED count) 0 tbl)
        end
  | _ => BuildError PBSE_BADATVAL (* parse error *)
  end.

(** The action routine of array_indices_submitted; [pattr] is the text
    of that attribute.  [None] when the table construction is undefined
    or the attribute has no text to parse. *)
Definition setup_arrayjob_attrs (env : server_env) (pattr : string)
    (pjob : job) (mode : atr_action) : option (pbs_error * job) :=
  (* set attribute "array" True and clear "array_state_count" *)
  let pjob := set_at_array_state_count None (set_at_array (Some 1) pjob) in
  built ←
    (if bool_decide (mode = ATR_ACTION_NEW) || bool_decide (mode = ATR_ACTION_RECOV)
     then
       range ← at_array_indices_submitted pjob;
       match mk_subjob_index_tbl env range JOB_STATE_QUEUED mode with
       | Built t => Some (inr (set_ji_ajtrk (Some t) pjob))
       | BuildError e => Some (inl (e, set_ji_ajtrk None pjob))
       | BuildUndefined => None
       end
     else Some (inr pjob));
  match built with
  | inl failed => Some failed
  | inr pjob =>
      if bool_decide (mode = ATR_ACTION_RECOV) then
        ptbl ← ji_ajtrk pjob;
        let flags := Z.lor (tkm_flags ptbl) TKMFLG_REVAL_IND_REMAINING in
        Some (PBSE_NONE, set_ji_ajtrk (Some (set_tkm_flags flags ptbl)) pjob)
      else if negb (bool_decide (mode = ATR_ACTION_ALTER))
              && negb (bool_decide (mode = ATR_ACTION_NEW))
      then Some (PBSE_BADATVAL, pjob)
      else
        match is_job_array (ji_jobid pjob) with
        | IS_ARRAY_ArrayJob =>
            if bool_decide (mode = ATR_ACTION_ALTER)
               && negb (bool_decide (ji_state pjob = JOB_STATE_QUEUED))
            then Some (PBSE_MODATRRUN, pjob) (* cannot modify once begun *)
            else
              let pjob :=
                if bool_decide (mode = ATR_ACTION_ALTER)
                then set_at_array_indices_remaining None pjob else pjob in
              (* set "array_indices_remaining" if not already set *)
              let pjob :=
                match at_array_indices_remaining pjob with
                | None => set_at_array_indices_remaining (Some pattr) pjob
                | Some _ => pjob
                end in
              Some (PBSE_NONE,
                    set_ji_svrflags (Z.lor (ji_svrflags pjob) JOB_SVFLG_ArrayJob) pjob)
        | _ => Some (PBSE_BADATVAL, pjob) (* not an Array Job *)
        end
  end.

(** *** The qmove fix-up *)

(** The loop [for (i = 0; i < tkm_ct; i++)] that expires every slot. *)
Fixpoint expire_loop (fuel : nat) (i : Z) (pjob : job) : option job :=
  match fuel with
  | O => Some pjob
  | S fuel' =>
      pjob' ← set_subjob_tblstate pjob i JOB_STATE_EXPIRED;
      expire_loop fuel' (i + 1) pjob'
  end.

(** The loop [for (i = start; i <= end; i += step)] that queues the slot
    of every index [i] that [numindex_to_offset] finds; [None] when
    [fuel] turns do not reach the end of the loop. *)
Fixpoint requeue_loop (fuel : nat) (i end_ step : Z) (pjob : job) : option job :=
  if i <=? end_ then
    match fuel with
    | O => None
    | S fuel' =>
        pjob' ← set_subjob_tblstate pjob (numindex_to_offset pjob i) JOB_STATE_QUEUED;
        requeue_loop fuel' (int_add i step) end_ step pjob'
    end
  else Some pjob.

(** The [while (1)] loop over the segments of the remaining-indices
    text.  A segment of [count] indices takes [count] turns of the inner
    loop unless [i += step] overflows. *)
Fixpoint fixup_loop (fuel : nat) (str : string) (pjob : job) : option job :=
  match parse_subjob_index str with
  | Parsed ep start end_ step count =>
      match fuel with
      | O => None
      | S fuel' =>
          pjob' ← requeue_loop (Z.to_nat count) start end_ step pjob;
          fixup_loop fuel' ep pjob'
      end
  | _ => Some pjob
  end.

(** The action routine of array_indices_remaining; [pattr] is the text
    of that attribute. *)
Definition fixup_arrayindicies (pattr : string) (pjob : job)
    (mode : atr_action) : option (pbs_error * job) :=
  match ji_ajtrk pjob with
  | None => Some (PBSE_BADATVAL, pjob)
  | Some ptbl =>
      if Z.land (ji_svrflags pjob) JOB_SVFLG_ArrayJob =? 0
      then Some (PBSE_BADATVAL, pjob)
      else if negb (Z.land (ji_svrflags pjob) JOB_SVFLG_HERE =? 0)
              && bool_decide (mode = ATR_ACTION_NEW)
      then Some (PBSE_NONE, pjob)
      else
        (* set all sub jobs expired, then reset queued the ones in "remaining" *)
        pjob ← expire_loop (Z.to_nat (tkm_ct ptbl)) 0 pjob;
        pjob ← fixup_loop (S (String.length pattr)) pattr pjob;
        Some (PBSE_NONE, pjob)
  end.

(** *** The subjob materializer *)

(** The slot update [tkm_tbl[indx].trk_psubjob = p], made on a slot that
    was just read. *)
Definition link_subjob (parent : job) (indx : Z) (p : option string) : job :=
  match ji_ajtrk parent with
  | None => parent
  | Some ptbl =>
      match tbl_get ptbl indx with
      | None => parent
      | Some ent =>
          set_ji_ajtrk
            (Some (set_tkm_tbl
                     (<[Z.to_nat indx := set_trk_psubjob p ent]> (tkm_tbl ptbl))
                     ptbl))
            parent
      end
  end.

(** Modelled from the spec: [job_purge] (job_func.c) is not among the
    sources.  Section 4.5, step 6: on enqueue failure the subjob is
    fully discarded and no half-linked slot is left; the table entry
    remains as it was, and unlinked. *)
Definition job_purge (subj : job) (parent : job) : job :=
  link_subjob parent (ji_subjindx subj) None.

(** The new subjob: the parent's fixed save area under the new job id,
    the offset, the parent reference, and the subjob's own attributes
    array_id and array_index.  The encode/decode copy of the inherited
    attributes, the eligible time, the queue rank and the path
    substitution act on other attributes of the subjob only. *)
Definition new_subjob (parent : job) (newjid index : string) (indx : Z) : job :=
  mk_job newjid JOB_STATE_QUEUED JOB_SUBSTATE_QUEUED
    (Z.lor (Z.land (ji_svrflags parent) (Z.lnot JOB_SVFLG_ArrayJob))
       JOB_SVFLG_SubJob)
    (ji_un_type parent) (ji_momaddr parent) (ji_momport parent)
    (ji_exitstat parent) None indx (Some (ji_jobid parent)) false None
    (Some (ji_jobid parent)) (Some index) None None None.

(** The answer is the error code with the new subjob (if any), the
    parent afterwards, and the calls made to the queueing module; [None]
    when the slot read [tkm_tbl[indx]] is outside the table. *)
Definition create_subjob (env : server_env) (parent : job) (newjid : string)
  : option (pbs_error * option job * job * list event) :=
  if Z.land (ji_svrflags parent) JOB_SVFLG_ArrayJob =? 0
  then Some (PBSE_IVALREQ, None, parent, []) (* parent not an array job *)
  else
    match get_index_from_jid newjid with
    | None => Some (PBSE_IVALREQ, None, parent, [])
    | Some index =>
        let indx := subjob_index_to_offset parent index in
        if indx =? -1 then Some (PBSE_UNKJOBID, None, parent, [])
        else
          ptbl ← ji_ajtrk parent;
          ent ← tbl_get ptbl indx;
          if negb (bool_decide (trk_status ent = JOB_STATE_QUEUED))
          then Some (PBSE_BADSTATE, None, parent, [])
          else if negb (malloc_ok env)
          then Some (PBSE_SYSTEM, None, parent, [])
          else
            let subj := new_subjob parent newjid index indx in
            let parent := link_subjob parent indx (Some newjid) in
            if negb (svr_enquejob_rc env =? 0) then
              Some (PBSE_IVALREQ, None, job_purge subj parent,
                    [Ev_svr_enquejob newjid; Ev_job_purge newjid])
            else
              Some (PBSE_NONE, Some subj, parent, [Ev_svr_enquejob newjid])
    end.

End Server.

(** * The other functions of array_func.c *)

(** The number of a job state: its offset in the [statename] table of
    [update_subjob_state_ct], which the states index. *)
Definition job_state_num (s : job_state) : Z :=
  match s with
  | JOB_STATE_TRANSIT => 0
  | JOB_STATE_QUEUED => 1
  | JOB_STATE_HELD => 2
  | JOB_STATE_WAITING => 3
  | JOB_STATE_RUNNING => 4
  | JOB_STATE_EXITING => 5
  | JOB_STATE_EXPIRED => 6
  | JOB_STATE_BEGUN => 7
  | JOB_STATE_MOVED => 8
  | JOB_STATE_FINISHED => 9
  end.

(** The slot [iindx] is read unguarded unless [iindx] is -1: [None]
    (undefined) without a table or outside it. *)
Definition get_subjob_state (parent : job) (iindx : Z) : option Z :=
  if iindx =? -1 then Some (-1)
  else
    ptbl ← ji_ajtrk parent;
    ent ← tbl_get ptbl iindx;
    Some (job_state_num (trk_status ent)).

Definition get_subjob_discarding (parent : job) (iindx : Z) : option Z :=
  if iindx =? -1 then Some (-1)
  else
    ptbl ← ji_ajtrk parent;
    ent ← tbl_get ptbl iindx;
    Some (trk_discarding ent).


(** [strncmp(s1, s2, n) == 0] *)
Fixpoint strncmp_zero (n : nat) (s1 s2 : string) : bool :=
  match n with
  | O => true
  | S n' =>
      match s1, s2 with
      | EmptyString, EmptyString => true
      | String a r1, String b r2 => Ascii.eqb a b && strncmp_zero n' r1 r2
      | _, _ => false
      end
  end.

(** [strstr(s, tag)]: the suffix that starts at the first [tag]. *)
Fixpoint strstr (s tag : string) : option string :=
  if String.prefix tag s then Some s
  else
    match s with
    | String _ r => strstr r tag
    | EmptyString => None
    end.

(** The first [n] characters, and the rest after them. *)
Fixpoint string_take (n : nat) (s : string) : string :=
  match n, s with
  | S n', String c r => String c (string_take n' r)
  | _, _ => EmptyString
  end.

Fixpoint string_drop (n : nat) (s : string) : string :=
  match n, s with
  | S n', String _ r => string_drop n' r
  | _, _ => s
  end.

(** The attributes of a subjob that [update_subjob_state] reads beside
    those of [job]: stageout_status (when set) and whether exit_status
    is set. *)
Record subjob_exit_attrs : Type := mk_exit_attrs {
  at_stageout_status : option Z;
  at_exit_status_set : bool
}.

(** What [update_subjob_state] records in the slot of an expired subjob. *)
Definition record_exit (history_conf : bool) (attrs : subjob_exit_attrs)
    (pjob : job) (e : ajtrk) : ajtrk :=
  let stgout :=
    match at_stageout_status attrs with
    | Some v => if history_conf then to_int v else trk_stgout e
    | None => trk_stgout e
    end in
  let exitstat :=
    if history_conf && at_exit_status_set attrs then 1 else trk_exitstat e in
  mk_ajtrk (trk_status e) (ji_exitstat pjob) (trk_discarding e)
    (ji_substate pjob) stgout exitstat (trk_psubjob e).

Section Lifecycle.
Context `{hdr : job_h}.

(** [pjob] is never [NULL] here. *)
Definition get_queued_subjobs_ct (pjob : job) : Z :=
  if negb (Z.land (ji_svrflags pjob) JOB_SVFLG_ArrayJob =? 0) then
    match ji_ajtrk pjob with
    | None => -1
    | Some ptbl => tkm_subjsct ptbl JOB_STATE_QUEUED
    end
  else 1.

(** [parent] is the job [pjob->ji_parentaj] points to (the function
    returns at once when that is [NULL]); [history_conf] is the answer of
    [svr_chk_history_conf].  The answer is the parent afterwards with the
    calls [chk_array_doneness] made; [None] (undefined) when the
    subjob's id has no '[', or when its slot is outside the table. *)
Definition update_subjob_state (history_conf : bool)
    (attrs : subjob_exit_attrs) (pjob parent : job) (newstate : job_state)
  : option (job * list event) :=
  match ji_ajtrk parent with
  | None => Some (parent, [])
  | Some _ =>
      (* verify that parent job is in fact the parent Array Job *)
      pc ← strchr (ji_jobid pjob) "[";
      let len :=
        Z.of_nat (String.length (ji_jobid pjob)) - Z.of_nat (String.length pc) - 1 in
      let same :=
        if len <? 0 then String.eqb (ji_jobid pjob) (ji_jobid parent)
        else strncmp_zero (Z.to_nat len) (ji_jobid pjob) (ji_jobid parent) in
      if negb same then Some (parent, []) (* nope, not the parent *)
      else
        parent ← set_subjob_tblstate parent (ji_subjindx pjob) newstate;
        parent ←
          (if bool_decide (newstate = JOB_STATE_EXPIRED) then
             ptbl ← ji_ajtrk parent;
             ent ← tbl_get ptbl (ji_subjindx pjob);
             Some (set_ji_ajtrk
                     (Some (set_tkm_tbl
                              (<[Z.to_nat (ji_subjindx pjob) :=
                                   record_exit history_conf attrs pjob ent]>
                                 (tkm_tbl ptbl))
                              ptbl))
                     parent)
           else Some parent);
        Some (chk_array_doneness parent)
  end.

End Lifecycle.

Section Names.
(** The length limit of a job id, the tag that stands for the array
    index in a path, the conversion of a number to decimal text and the
    lookup of a job by its id: pbs_ifl.h, job.h and other modules. *)
Variable PBS_MAXSVRJOBID : nat.
Variable PBS_FILE_ARRAY_INDEX_TAG : string.
Variable uLTostr : Z -> string.
Variable find_job : string -> option job.

(** The id handed to [find_job]: the subjob id up to its first '[', a
    ']', and what starts at its first '.'.  [None] (undefined) when no
    '[' is among the first [PBS_MAXSVRJOBID] characters (the copy loop
    then runs past the text or the buffer) or the id does not fit into
    the buffer of [PBS_MAXSVRJOBID + 1] bytes. *)
Definition find_arrayparent (subjobid : string) : option (option job) :=
  _ ← strchr subjobid "[";
  let head := before_char subjobid "[" in
  if (PBS_MAXSVRJOBID <=? String.length head)%nat then None
  else
    let idbuf := head ++ "[" ++ "]" in
    let idbuf :=
      match strchr subjobid "." with
      | Some pc => idbuf ++ pc
      | None => idbuf
      end in
    if (PBS_MAXSVRJOBID <? String.length idbuf)%nat then None
    else Some (find_job idbuf).

(** [path] with the first index tag replaced by the index of the subjob;
    [parent] is the job [pjob->ji_parentaj] points to, if any.  The room
    left in the caller's buffer is not modelled. *)
Definition subst_array_index (pjob : job) (parent : option job)
    (path : string) : option string :=
  match parent with
  | None => Some path
  | Some ppjob =>
      match strstr path PBS_FILE_ARRAY_INDEX_TAG with
      | None => Some path (* unchanged *)
      | Some pindorg =>
          ptbl ← ji_ajtrk ppjob;
          let cvt := uLTostr (SJ_TBLIDX_2_IDX ptbl (ji_subjindx pjob)) in
          let trail :=
            string_drop (String.length PBS_FILE_ARRAY_INDEX_TAG) pindorg in
          Some (string_take (String.length path - String.length pindorg) path
                ++ cvt ++ trail)
      end
  end.

End Names.

(** * The vocabulary of the properties *)

(** ** Well-formed tables

    The invariants of the data model: a range that starts at a
    non-negative index, [start <= end], [step >= 1], the count formula
    (I2), and one slot per index. *)
Record wf_table (t : ajtrkhd) : Prop := mk_wf_table {
  wf_start : 0 <= tkm_start t;
  wf_order : tkm_start t <= tkm_end t;
  wf_end : tkm_end t <= INT_MAX;
  wf_step : 1 <= tkm_step t;
  wf_ct : tkm_ct t = (tkm_end t - tkm_start t + tkm_step t) / tkm_step t;
  wf_len : Z.of_nat (length (tkm_tbl t)) = tkm_ct t
}.

(** ** Sample values used to instantiate the theorems *)

Definition sample_job_h : job_h := {|
  TKMFLG_NO_DELETE := 1;
  TKMFLG_CHK_ARRAY := 2;
  TKMFLG_REVAL_IND_REMAINING := 4;
  JOB_SVFLG_ArrayJob := 8;
  JOB_SVFLG_SubJob := 16;
  JOB_SVFLG_HERE := 32;
  JOB_SUBSTATE_TRANSICM := 1;
  JOB_SUBSTATE_QUEUED := 10;
  JOB_SUBSTATE_FINISHED := 92;
  JOB_UNION_TYPE_EXEC := 1
|}.

(** No max_array_size set, allocation and enqueue succeeding. *)
Definition sample_env : server_env := mk_env None true 0.

(** The table of the range "1-10:3": indices 1, 4, 7 and 10. *)
Definition sample_tbl : ajtrkhd :=
  mk_ajtrkhd 4 1 10 3 0 (subjsct_set (fun _ => 0) JOB_STATE_QUEUED 4) 0
    (replicate 4 (@new_ajtrk sample_job_h JOB_STATE_QUEUED)).

(** An array job that has begun, with table [t]. *)
Definition sample_job (t : option ajtrkhd) : job :=
  mk_job "12[].svr" JOB_STATE_BEGUN 0 8 0 0 0 0 t 0 None false
    None None None (Some "1-10:3") None None.

(** ** The histogram invariant *)

(** The number of slots in state [s]. *)
Fixpoint count_state (s : job_state) (tbl : list ajtrk) : Z :=
  match tbl with
  | [] => 0
  | ent :: rest =>
      (if decide (trk_status ent = s) then 1 else 0) + count_state s rest
  end.

(** Invariant (I1), over a table that has its [tkm_ct] slots. *)
Record table_ok (t : ajtrkhd) : Prop := mk_table_ok {
  ok_hist : forall s, tkm_subjsct t s = count_state s (tkm_tbl t);
  ok_len : Z.of_nat (length (tkm_tbl t)) = tkm_ct t;
  ok_ct : tkm_ct t <= INT_MAX
}.

(** Scenario 3 of the spec: the table of "1-10:3" after each of its four
    slots was set to Expired, with no error recorded. *)
Definition expired_job : job :=
  default (sample_job None)
    (@set_subjob_tblstates sample_job_h (sample_job (Some sample_tbl))
       [(0, JOB_STATE_EXPIRED); (1, JOB_STATE_EXPIRED);
        (2, JOB_STATE_EXPIRED); (3, JOB_STATE_EXPIRED)]).

(** Its table. *)
Definition expired_tbl : ajtrkhd := default sample_tbl (ji_ajtrk expired_job).

(** The table of "1-10:3" with the slot of index 4 Running. *)
Definition running_job : job :=
  default (sample_job None)
    (@set_subjob_tblstate sample_job_h (sample_job (Some sample_tbl)) 1
       JOB_STATE_RUNNING).

(** ** Parsing, step by step *)

(** [parse_subjob_index] after the end of the range was read. *)
Definition parse_after_end (start end_ : Z) (eptr : string) : parse_result :=
  let pc := if space_at eptr then advance eptr else eptr in
  let tail :=
    if at_nul pc || char_at "," pc || char_at "]" pc then Some (1, pc)
    else if negb (char_at ":" pc) then None
    else
      let pc := skip_spaces (advance pc) in
      let '(v, eptr) := strtol pc in
      let pc := skip_spaces eptr in
      Some (to_int v, if char_at "," pc then advance pc else pc) in
  match tail with
  | None => ParseError
  | Some (step, pc) =>
      if (start >=? end_) || (step <? 1) then ParseError
      else parse_finish pc start end_ step
  end.

(** [parse_subjob_index] after the start of the range was read. *)
Definition parse_after_start (start : Z) (eptr : string) : parse_result :=
  let pc := skip_spaces eptr in
  if char_at "," pc || at_nul pc || char_at "]" pc then
    parse_finish (if char_at "," pc then advance pc else pc) start start 1
  else if negb (char_at "-" pc) then ParseError
  else
    let '(v, eptr) := strtol (advance pc) in
    parse_after_end start (to_int v) eptr.

(** [s] is text that [strtol] reads as [n], whatever non-digit follows;
    an unsigned numeral starts with a digit. *)
Definition numeral (s : string) (n : Z) : Prop :=
  forall rest, digit_at rest = false ->
    digit_at (s ++ rest) = true /\ strtol (s ++ rest) = (n, rest).

(** The same for a numeral that may start with a sign. *)
Definition signed_numeral (s : string) (n : Z) : Prop :=
  forall rest, digit_at rest = false ->
    skip_spaces (s ++ rest) = s ++ rest /\ strtol (s ++ rest) = (n, rest).

(** The segments of a text and the answer that ends them. *)
Inductive segments : string -> list (Z * Z * Z * Z) -> parse_result -> Prop :=
  | segments_last (str : string) (r : parse_result) :
      parse_subjob_index str = r ->
      (forall ep s e st c, r <> Parsed ep s e st c) ->
      segments str [] r
  | segments_more (str ep : string) (s e st c : Z)
      (segs : list (Z * Z * Z * Z)) (r : parse_result) :
      parse_subjob_index str = Parsed ep s e st c ->
      segments ep segs r ->
      segments str ((s, e, st, c) :: segs) r.

(** ** The indices of a state *)

(** The external indices of the slots in state [state], in ascending
    order; [i] is the index of the first slot of [tbl]. *)
Fixpoint indices_in_state (tbl : list ajtrk) (state : job_state) (i step : Z)
  : list Z :=
  match tbl with
  | [] => []
  | ent :: rest =>
      (if decide (trk_status ent = state) then [i] else [])
        ++ indices_in_state rest state (i + step) step
  end.

(** The same for a whole table. *)
Definition state_indices (t : ajtrkhd) (state : job_state) : list Z :=
  indices_in_state (tkm_tbl t) state (tkm_start t) (tkm_step t).

(** What follows a run in the text: nothing, or a comma and the rest. *)
Definition joined (s : string) : string :=
  if at_nul s then "" else String "," s.

(** The external index of the slot at offset [o]. *)
Definition offset_index (t : ajtrkhd) (o : nat) : Z :=
  tkm_start t + Z.of_nat o * tkm_step t.

(** The text of one run: its first index and what [cvt_range] appends
    for its last one. *)
Definition run_text (t : ajtrkhd) (first last : nat) : string :=
  sprintf_d (SJ_TBLIDX_2_IDX t (Z.of_nat first))
  ++ (if (S first <? last)%nat then
        if tkm_step t >? 1 then
          "-" ++ sprintf_d (SJ_TBLIDX_2_IDX t (Z.of_nat last))
              ++ ":" ++ sprintf_d (tkm_step t)
        else "-" ++ sprintf_d (SJ_TBLIDX_2_IDX t (Z.of_nat last))
      else if (first <? last)%nat then
        "," ++ sprintf_d (SJ_TBLIDX_2_IDX t (Z.of_nat last))
      else "").

(** The indices of the slots in the state from offset [first] on. *)
Definition indices_from (t : ajtrkhd) (state : job_state) (first : nat)
  : list Z :=
  indices_in_state (drop first (tkm_tbl t)) state (offset_index t first)
    (tkm_step t).

(** ** The states after the fix-up *)

(** The state of the slot at offset [o]. *)
Definition status_at (t : ajtrkhd) (o : Z) : option job_state :=
  trk_status <$> tbl_get t o.

(** Two tables over the same range. *)
Definition same_shape (t t' : ajtrkhd) : Prop :=
  tkm_ct t' = tkm_ct t /\ tkm_start t' = tkm_start t
  /\ tkm_end t' = tkm_end t /\ tkm_step t' = tkm_step t.

(** The indices a text stands for, queued one after the other. *)
Fixpoint requeue_all `{hdr : job_h} (l : list Z) (pjob : job) : option job :=
  match l with
  | [] => Some pjob
  | i :: rest =>
      pjob' ← set_subjob_tblstate pjob (numindex_to_offset pjob i) JOB_STATE_QUEUED;
      requeue_all rest pjob'
  end.

(** A subjob after the other expires and the parent is checked for
    doneness, as [update_subjob_state] does for each of them; the calls
    made, in order. *)
Fixpoint expire_and_check `{hdr : job_h} (offsets : list Z) (parent : job)
  : option (job * list event) :=
  match offsets with
  | [] => Some (parent, [])
  | offset :: rest =>
      parent ← set_subjob_tblstate parent offset JOB_STATE_EXPIRED;
      let '(parent, calls) := chk_array_doneness parent in
      '(parent, more) ← expire_and_check rest parent;
      Some (parent, (calls ++ more)%list)
  end.

(** ** Vocabulary of the further properties *)

(** A text of white space and commas only. *)
Fixpoint all_separators (s : string) : bool :=
  match s with
  | EmptyString => true
  | String c r => (isspace c || Ascii.eqb c ",") && all_separators r
  end.

(** A text without the character [c]. *)
Fixpoint lacks (c : ascii) (s : string) : bool :=
  match s with
  | EmptyString => true
  | String d r => negb (Ascii.eqb d c) && lacks c r
  end.

(** A slot in one of the four states that keep an array job going. *)
Definition active_state (s : job_state) : bool :=
  match s with
  | JOB_STATE_QUEUED | JOB_STATE_RUNNING | JOB_STATE_HELD | JOB_STATE_EXITING => true
  | _ => false
  end.

(** The sum of the ten counters. *)
Definition subjsct_total (t : ajtrkhd) : Z :=
  tkm_subjsct t JOB_STATE_TRANSIT + tkm_subjsct t JOB_STATE_QUEUED
  + tkm_subjsct t JOB_STATE_HELD + tkm_subjsct t JOB_STATE_WAITING
  + tkm_subjsct t JOB_STATE_RUNNING + tkm_subjsct t JOB_STATE_EXITING
  + tkm_subjsct t JOB_STATE_EXPIRED + tkm_subjsct t JOB_STATE_BEGUN
  + tkm_subjsct t JOB_STATE_MOVED + tkm_subjsct t JOB_STATE_FINISHED.

(** A text of decimal digits only. *)
Fixpoint all_digits (s : string) : bool :=
  match s with
  | EmptyString => true
  | String c r => isdigit c && all_digits r
  end.

(** The array job of "1-10:3" with every slot Expired but the one of
    index 7, and the subjob of that index, about to expire with exit
    status -3. *)
Definition almost_done_job : job :=
  default (sample_job None)
    (@set_subjob_tblstates sample_job_h (sample_job (Some sample_tbl))
       [(0, JOB_STATE_EXPIRED); (1, JOB_STATE_EXPIRED); (3, JOB_STATE_EXPIRED)]).

Definition almost_done_tbl : ajtrkhd :=
  default sample_tbl (ji_ajtrk almost_done_job).

Definition last_subjob : job :=
  mk_job "12[7].svr" JOB_STATE_EXITING 0 16 0 0 0 (-3) None 2
    (Some "12[].svr") false None None None None None None.

(** An array job that has begun, submitted with [range], with table [t]. *)
Definition array_job (range : string) (t : ajtrkhd) : job :=
  mk_job "12[].svr" JOB_STATE_BEGUN 0 8 0 0 0 0 (Some t) 0 None false
    None None None (Some range) None None.

(** The table [mk_subjob_index_tbl] builds for a range (the table of
    "1-10:3" where it builds none). *)
Definition built_tbl (range : string) : ajtrkhd :=
  match @mk_subjob_index_tbl sample_job_h sample_env range JOB_STATE_QUEUED
          ATR_ACTION_NEW with
  | Built t => t
  | _ => sample_tbl
  end.

(** The array job submitted with "4294967290-5": the start is read as
    the [int] -6. *)
Definition wrapped_job : job :=
  array_job "4294967290-5" (built_tbl "4294967290-5").

(** The array job submitted with "1000000000-1000000360:2" (181 slots,
    indices of ten digits) after the subjobs at the offsets 1, 3, ...,
    177 expired: 89 single Queued slots, then the three Queued slots at
    the offsets 178 to 180. *)
Definition long_index_job : job :=
  default (sample_job None)
    (@set_subjob_tblstates sample_job_h
       (array_job "1000000000-1000000360:2"
          (built_tbl "1000000000-1000000360:2"))
       (map (fun k => (2 * Z.of_nat k + 1, JOB_STATE_EXPIRED)) (seq 0 89))).

(** * Properties *)

(** ** Machine arithmetic *)

Lemma to_int_id (x : Z) : is_int x -> to_int x = x.
Proof.
  unfold is_int, INT_MIN, INT_MAX, to_int. intros Hx.
  rewrite Z.mod_small by lia. lia.
Qed.

Lemma to_int_is_int (x : Z) : is_int (to_int x).
Proof.
  unfold is_int, INT_MIN, INT_MAX, to_int.
  pose proof (Z.mod_pos_bound (x + 2147483648) 4294967296). lia.
Qed.

Lemma to_int_le (x : Z) : INT_MIN <= x -> to_int x <= x.
Proof.
  unfold INT_MIN, to_int. intros Hx.
  pose proof (Z.mod_le (x + 2147483648) 4294967296). lia.
Qed.

Lemma to_int_wrap (x : Z) :
  INT_MAX < x <= INT_MAX + 4294967296 -> to_int x = x - 4294967296.
Proof.
  unfold INT_MAX, to_int. intros Hx.
  replace (x + 2147483648) with ((x - 2147483648) + 1 * 4294967296) by lia.
  rewrite Z.mod_add by lia. rewrite Z.mod_small by lia. lia.
Qed.

Lemma int_add_id (x y : Z) : is_int (x + y) -> int_add x y = x + y.
Proof. apply to_int_id. Qed.

Lemma int_sub_id (x y : Z) : is_int (x - y) -> int_sub x y = x - y.
Proof. apply to_int_id. Qed.

Lemma int_mul_id (x y : Z) : is_int (x * y) -> int_mul x y = x * y.
Proof. apply to_int_id. Qed.

(** The offsets of a well-formed table stay inside its range. *)
Lemma wf_offset_bounds (t : ajtrkhd) (o : Z) :
  wf_table t -> 0 <= o < tkm_ct t ->
  tkm_start t <= tkm_start t + o * tkm_step t <= tkm_end t.
Proof.
  intros [Hs Ho He Hst Hct _] Hlo. rewrite Hct in Hlo.
  assert (o * tkm_step t <= tkm_end t - tkm_start t); [|nia].
  assert (o + 1 <= (tkm_end t - tkm_start t + tkm_step t) / tkm_step t) as H1 by lia.
  pose proof (Z.mul_div_le (tkm_end t - tkm_start t + tkm_step t) (tkm_step t)).
  nia.
Qed.

Lemma wf_ct_pos (t : ajtrkhd) : wf_table t -> 1 <= tkm_ct t.
Proof.
  intros [Hs Ho He Hst Hct _]. rewrite Hct.
  apply Z.div_le_lower_bound; lia.
Qed.

Lemma SJ_TBLIDX_2_IDX_wf (t : ajtrkhd) (o : Z) :
  wf_table t -> 0 <= o < tkm_ct t ->
  SJ_TBLIDX_2_IDX t o = tkm_start t + o * tkm_step t.
Proof.
  intros Hwf Ho. pose proof (wf_offset_bounds t o Hwf Ho) as Hb.
  destruct Hwf as [Hs Hord He Hst Hct _].
  unfold SJ_TBLIDX_2_IDX.
  rewrite int_mul_id, int_add_id; unfold is_int, INT_MIN, INT_MAX in *; nia.
Qed.

(** The index of a slot is found again at that slot. *)
Lemma numindex_to_offset_of_offset (parent : job) (t : ajtrkhd) (o : Z) :
  ji_ajtrk parent = Some t -> wf_table t -> 0 <= o < tkm_ct t ->
  numindex_to_offset parent (SJ_TBLIDX_2_IDX t o) = o.
Proof.
  intros Ht Hwf Ho. pose proof (wf_offset_bounds t o Hwf Ho) as Hb.
  pose proof (SJ_TBLIDX_2_IDX_wf t o Hwf Ho) as HSJ.
  unfold numindex_to_offset. rewrite Ht. rewrite HSJ.
  destruct Hwf as [Hs Hord He Hst Hct _].
  rewrite int_sub_id by (unfold is_int, INT_MIN, INT_MAX in *; lia).
  replace (tkm_start t + o * tkm_step t - tkm_start t) with (o * tkm_step t) by lia.
  rewrite Z.rem_mul, Z.quot_mul by lia.
  rewrite HSJ.
  repeat match goal with
  | |- context [?a =? ?b] => destruct (Z.eqb_spec a b); try lia
  | |- context [?a >? ?b] => destruct (Z.gtb_spec a b); try lia
  end; simpl; try lia.
Qed.

(** An answer other than -1 is a slot of the table with this index. *)
Lemma numindex_to_offset_sound (parent : job) (t : ajtrkhd) (iindx i : Z) :
  ji_ajtrk parent = Some t -> wf_table t ->
  numindex_to_offset parent iindx = i -> i <> -1 ->
  0 <= i < tkm_ct t /\ iindx = tkm_start t + i * tkm_step t.
Proof.
  intros Ht Hwf Hi Hne. unfold numindex_to_offset in Hi. rewrite Ht in Hi.
  destruct Hwf as [Hs Hord He Hst Hct _].
  destruct (Z.gtb_spec (tkm_start t) iindx); [rewrite orb_true_r in Hi; simpl in Hi; lia|].
  destruct (Z.gtb_spec iindx (tkm_end t)); [rewrite orb_true_r in Hi; lia|].
  rewrite !orb_false_r in Hi.
  rewrite int_sub_id in Hi by (unfold is_int, INT_MIN, INT_MAX in *; lia).
  destruct (Z.eqb_spec (Z.rem (iindx - tkm_start t) (tkm_step t)) 0) as [Hrem|]; simpl in Hi; [|lia].
  destruct (Z.eqb_spec (SJ_TBLIDX_2_IDX t (Z.quot (iindx - tkm_start t) (tkm_step t))) iindx);
    simpl in Hi; [|lia].
  rewrite Z.rem_mod_nonneg in Hrem by lia.
  rewrite Z.quot_div_nonneg in Hi by lia.
  pose proof (Z.div_mod (iindx - tkm_start t) (tkm_step t) ltac:(lia)) as Hdm.
  rewrite Hrem, Hi in Hdm.
  split; [|lia].
  assert (0 <= i) by (subst i; apply Z.div_pos; lia).
  split; [lia|]. rewrite Hct.
  apply Z.lt_le_trans with (i + 1); [lia|].
  apply Z.div_le_lower_bound; [lia|]. nia.
Qed.

Lemma sample_tbl_wf : wf_table sample_tbl.
Proof. split; vm_compute; congruence. Qed.

(** ** C4: the offset bijection *)

(** C4.  In a well-formed table, an external index inside [start, end]
    and congruent to start modulo step is mapped by [numindex_to_offset]
    to [(index - start) / step], whose external index is the input
    again; an index outside the range or not congruent is answered -1;
    and so is every index whose recomputed external index differs from
    it, so an answer other than -1 is never a wrong offset. *)
Theorem numindex_to_offset_bijection (parent : job) (t : ajtrkhd) (iindx : Z) :
  ji_ajtrk parent = Some t -> wf_table t ->
  (tkm_start t <= iindx <= tkm_end t ->
   (iindx - tkm_start t) mod tkm_step t = 0 ->
   numindex_to_offset parent iindx = (iindx - tkm_start t) / tkm_step t
   /\ 0 <= numindex_to_offset parent iindx < tkm_ct t
   /\ SJ_TBLIDX_2_IDX t (numindex_to_offset parent iindx) = iindx)
  /\ (~ (tkm_start t <= iindx <= tkm_end t)
      \/ (iindx - tkm_start t) mod tkm_step t <> 0 ->
      numindex_to_offset parent iindx = -1)
  /\ (SJ_TBLIDX_2_IDX t (Z.quot (int_sub iindx (tkm_start t)) (tkm_step t)) <> iindx ->
      numindex_to_offset parent iindx = -1)
  /\ (numindex_to_offset parent iindx <> -1 ->
      SJ_TBLIDX_2_IDX t (numindex_to_offset parent iindx) = iindx).
Proof.
  intros Ht Hwf.
  assert (forall i, numindex_to_offset parent iindx = i -> i <> -1 ->
            SJ_TBLIDX_2_IDX t i = iindx) as Hsound.
  { intros i Hi Hne.
    destruct (numindex_to_offset_sound parent t iindx i Ht Hwf Hi Hne) as [Hb ->].
    apply SJ_TBLIDX_2_IDX_wf; assumption. }
  split; [|split; [|split]].
  - intros Hrange Hmod.
    set (o := (iindx - tkm_start t) / tkm_step t).
    pose proof (wf_step t Hwf) as Hst.
    assert (iindx = tkm_start t + o * tkm_step t) as Hidx.
    { pose proof (Z.div_mod (iindx - tkm_start t) (tkm_step t) ltac:(lia)).
      subst o. lia. }
    assert (0 <= o < tkm_ct t) as Ho.
    { split; [apply Z.div_pos; lia|]. rewrite (wf_ct t Hwf).
      apply Z.lt_le_trans with (o + 1); [lia|].
      apply Z.div_le_lower_bound; [lia|]. nia. }
    assert (numindex_to_offset parent iindx = o) as Hres.
    { rewrite Hidx at 1. rewrite <- (SJ_TBLIDX_2_IDX_wf t o Hwf Ho).
      apply numindex_to_offset_of_offset; assumption. }
    rewrite Hres. repeat split; try lia.
    rewrite SJ_TBLIDX_2_IDX_wf by assumption. lia.
  - intros Hout.
    destruct (Z.eq_dec (numindex_to_offset parent iindx) (-1)) as [|Hne]; [assumption|].
    destruct (numindex_to_offset_sound parent t iindx _ Ht Hwf eq_refl Hne) as [Hb Hidx].
    pose proof (wf_offset_bounds t _ Hwf Hb). pose proof (wf_step t Hwf).
    destruct Hout as [Hout|Hout]; [lia|].
    exfalso. apply Hout. rewrite Hidx at 1.
    replace (tkm_start t + numindex_to_offset parent iindx * tkm_step t - tkm_start t)
      with (numindex_to_offset parent iindx * tkm_step t) by lia.
    apply Z.mod_mul. lia.
  - intros Hne. unfold numindex_to_offset. rewrite Ht.
    destruct (_ || _ || _); [reflexivity|].
    destruct (Z.eqb_spec
      (SJ_TBLIDX_2_IDX t (Z.quot (int_sub iindx (tkm_start t)) (tkm_step t))) iindx);
      [contradiction|reflexivity].
  - intros Hne. apply Hsound; [reflexivity|assumption].
Qed.

Lemma numindex_to_offset_bijection_witness :
  numindex_to_offset (sample_job (Some sample_tbl)) 7 = 2
  /\ SJ_TBLIDX_2_IDX sample_tbl 2 = 7
  /\ numindex_to_offset (sample_job (Some sample_tbl)) 8 = -1.
Proof.
  pose proof (numindex_to_offset_bijection (sample_job (Some sample_tbl))
                sample_tbl 7 eq_refl sample_tbl_wf) as H7.
  pose proof (numindex_to_offset_bijection (sample_job (Some sample_tbl))
                sample_tbl 8 eq_refl sample_tbl_wf) as H8.
  destruct H7 as [H7 _].
  destruct H8 as [_ [H8 _]].
  destruct H7 as [Ha [_ Hb]]; [simpl; lia | reflexivity |].
  split; [exact Ha|]. split; [rewrite Ha in Hb; exact Hb|].
  apply H8. right. simpl. discriminate.
Defined.

(** ** C1: the histogram invariant *)

Lemma count_state_bounds (s : job_state) (tbl : list ajtrk) :
  0 <= count_state s tbl <= Z.of_nat (length tbl).
Proof.
  induction tbl as [|ent rest IH]; simpl; [lia|].
  destruct (decide (trk_status ent = s)); lia.
Qed.

Lemma count_state_replicate (s s' : job_state) (e : ajtrk) (n : nat) :
  trk_status e = s' ->
  count_state s (replicate n e) = if decide (s' = s) then Z.of_nat n else 0.
Proof.
  intros He. induction n as [|n IH]; simpl.
  - destruct (decide (s' = s)); reflexivity.
  - rewrite IH, He. destruct (decide (s' = s)); lia.
Qed.

(** Changing the state of slot [i] moves one unit between two counts. *)
Lemma count_state_insert (s newstate : job_state) (tbl : list ajtrk)
    (i : nat) (ent : ajtrk) :
  tbl !! i = Some ent ->
  count_state s (<[i := set_trk_status newstate ent]> tbl)
  = count_state s tbl
    - (if decide (trk_status ent = s) then 1 else 0)
    + (if decide (newstate = s) then 1 else 0).
Proof.
  revert i. induction tbl as [|e rest IH]; intros [|i] Hi; simpl in *;
    try discriminate.
  - injection Hi as ->.
    destruct (decide (trk_status ent = s)), (decide (newstate = s)); lia.
  - rewrite (IH i Hi). lia.
Qed.

Lemma tbl_get_Some (t : ajtrkhd) (o : Z) (ent : ajtrk) :
  tbl_get t o = Some ent ->
  0 <= o < Z.of_nat (length (tkm_tbl t)) /\ tkm_tbl t !! Z.to_nat o = Some ent.
Proof.
  unfold tbl_get. destruct (Z.ltb_spec o 0); [discriminate|].
  intros Hl. split; [|assumption].
  apply lookup_lt_Some in Hl. lia.
Qed.

Lemma tbl_get_in_range (t : ajtrkhd) (o : Z) :
  0 <= o < Z.of_nat (length (tkm_tbl t)) -> is_Some (tbl_get t o).
Proof.
  intros Ho. unfold tbl_get. destruct (Z.ltb_spec o 0); [lia|].
  apply lookup_lt_is_Some. lia.
Qed.

Section Histogram.
Context `{hdr : job_h}.

(** One effective call: what it changes and what it keeps. *)
Lemma set_subjob_tblstate_step (parent : job) (t : ajtrkhd) (offset : Z)
    (ent : ajtrk) (newstate : job_state) :
  ji_ajtrk parent = Some t ->
  tbl_get t offset = Some ent ->
  trk_status ent <> newstate ->
  table_ok t ->
  exists parent' t',
    set_subjob_tblstate parent offset newstate = Some parent'
    /\ ji_ajtrk parent' = Some t'
    /\ tkm_subjsct t' (trk_status ent) = tkm_subjsct t (trk_status ent) - 1
    /\ tkm_subjsct t' newstate = tkm_subjsct t newstate + 1
    /\ (forall s, s <> trk_status ent -> s <> newstate ->
          tkm_subjsct t' s = tkm_subjsct t s)
    /\ tbl_get t' offset = Some (set_trk_status newstate ent)
    /\ (forall o, o <> offset -> tbl_get t' o = tbl_get t o)
    /\ tkm_ct t' = tkm_ct t /\ tkm_start t' = tkm_start t
    /\ tkm_end t' = tkm_end t /\ tkm_step t' = tkm_step t
    /\ table_ok t'.
Proof.
  intros Ht Hget Hne [Hhist Hlen Hct].
  destruct (tbl_get_Some t offset ent Hget) as [Hrange Hlook].
  pose proof (count_state_bounds (trk_status ent) (tkm_tbl t)) as Hb1.
  pose proof (count_state_bounds newstate (tkm_tbl t)) as Hb2.
  pose proof (count_state_insert newstate newstate _ _ _ Hlook) as Hn.
  pose proof (count_state_bounds newstate
                (<[Z.to_nat offset := set_trk_status newstate ent]> (tkm_tbl t))) as Hb3.
  rewrite length_insert in Hb3.
  pose proof (count_state_insert (trk_status ent) newstate _ _ _ Hlook) as Ho.
  destruct (decide (newstate = newstate)) as [_|]; [|congruence].
  destruct (decide (trk_status ent = newstate)) as [|_]; [congruence|].
  destruct (decide (trk_status ent = trk_status ent)) as [_|]; [|congruence].
  destruct (decide (newstate = trk_status ent)) as [|_]; [congruence|].
  assert (int_sub (tkm_subjsct t (trk_status ent)) 1
          = tkm_subjsct t (trk_status ent) - 1) as Hdec.
  { apply int_sub_id. rewrite Hhist. unfold is_int, INT_MIN, INT_MAX in *. lia. }
  assert (int_add (tkm_subjsct t newstate) 1 = tkm_subjsct t newstate + 1) as Hinc.
  { apply int_add_id. rewrite Hhist. unfold is_int, INT_MIN, INT_MAX in *. lia. }
  unfold set_subjob_tblstate.
  destruct (Z.eqb_spec offset (-1)); [lia|].
  rewrite Ht, Hget. simpl.
  destruct (decide (trk_status ent = newstate)); [congruence|].
  eexists _, _. split; [reflexivity|]. split; [reflexivity|].
  simpl. unfold subjsct_set.
  destruct (decide (newstate = newstate)) as [_|]; [|congruence].
  destruct (decide (trk_status ent = newstate)) as [|_]; [congruence|].
  destruct (decide (trk_status ent = trk_status ent)) as [_|]; [|congruence].
  destruct (decide (newstate = trk_status ent)) as [|_]; [congruence|].
  rewrite Hdec, Hinc.
  repeat split; try reflexivity; try assumption.
  - intros s Hs1 Hs2.
    destruct (decide (s = newstate)); [congruence|].
    destruct (decide (s = trk_status ent)); [congruence|]. reflexivity.
  - unfold tbl_get; simpl. destruct (Z.ltb_spec offset 0); [lia|].
    apply list_lookup_insert_eq. lia.
  - intros o Hoff. unfold tbl_get; simpl. destruct (Z.ltb_spec o 0); [reflexivity|].
    apply list_lookup_insert_ne. lia.
  - intros s. simpl.
    rewrite (count_state_insert s newstate _ _ _ Hlook).
    destruct (decide (s = newstate)) as [->|Hs1].
    + destruct (decide (newstate = newstate)); [|congruence].
      destruct (decide (trk_status ent = newstate)); [congruence|].
      rewrite Hhist. lia.
    + destruct (decide (newstate = s)); [congruence|].
      destruct (decide (s = trk_status ent)) as [->|Hs2].
      * destruct (decide (trk_status ent = trk_status ent)); [|congruence].
        rewrite Hhist. lia.
      * destruct (decide (trk_status ent = s)); [congruence|].
        rewrite Hhist. lia.
  - simpl. rewrite length_insert. assumption.
Qed.

(** Every call with an offset that is -1 or a slot of the table is
    defined and keeps the invariant and the shape of the table. *)
Lemma set_subjob_tblstate_ok (parent : job) (t : ajtrkhd) (offset : Z)
    (newstate : job_state) :
  ji_ajtrk parent = Some t ->
  table_ok t ->
  offset = -1 \/ 0 <= offset < tkm_ct t ->
  exists parent' t',
    set_subjob_tblstate parent offset newstate = Some parent'
    /\ ji_ajtrk parent' = Some t'
    /\ table_ok t'
    /\ tkm_ct t' = tkm_ct t /\ tkm_start t' = tkm_start t
    /\ tkm_end t' = tkm_end t /\ tkm_step t' = tkm_step t
    /\ ji_svrflags parent' = ji_svrflags parent.
Proof.
  intros Ht Hok Hoff.
  destruct (Z.eq_dec offset (-1)) as [->|Hne].
  { exists parent, t. unfold set_subjob_tblstate. simpl. auto 10. }
  destruct Hoff as [|Hoff]; [contradiction|].
  destruct (tbl_get_in_range t offset) as [ent Hent].
  { rewrite (ok_len t Hok). assumption. }
  destruct (decide (trk_status ent = newstate)) as [Heq|Hdiff].
  { exists parent, t. unfold set_subjob_tblstate.
    destruct (Z.eqb_spec offset (-1)); [contradiction|].
    rewrite Ht, Hent. simpl.
    destruct (decide (trk_status ent = newstate)); [|contradiction]. auto 10. }
  destruct (set_subjob_tblstate_step parent t offset ent newstate Ht Hent Hdiff Hok)
    as (parent' & t' & Hset & Ht' & _ & _ & _ & _ & _ & H1 & H2 & H3 & H4 & Hok').
  exists parent', t'. split_and!; try assumption.
  unfold set_subjob_tblstate in Hset.
  destruct (Z.eqb_spec offset (-1)); [contradiction|].
  rewrite Ht, Hent in Hset. simpl in Hset.
  destruct (decide (trk_status ent = newstate)); [contradiction|].
  injection Hset as <-. reflexivity.
Qed.

Lemma set_subjob_tblstates_ok (calls : list (Z * job_state)) :
  forall (parent : job) (t : ajtrkhd),
  ji_ajtrk parent = Some t ->
  table_ok t ->
  Forall (fun c => c.1 = -1 \/ 0 <= c.1 < tkm_ct t) calls ->
  exists parent' t',
    set_subjob_tblstates parent calls = Some parent'
    /\ ji_ajtrk parent' = Some t'
    /\ table_ok t'
    /\ tkm_ct t' = tkm_ct t.
Proof.
  induction calls as [|[offset newstate] rest IH]; intros parent t Ht Hok Hcalls.
  - exists parent, t. simpl. auto.
  - inversion Hcalls as [|c cs Hc Hrest]; subst. simpl in Hc.
    destruct (set_subjob_tblstate_ok parent t offset newstate Ht Hok Hc)
      as (p1 & t1 & Hset & Ht1 & Hok1 & Hct1 & _).
    destruct (IH p1 t1 Ht1 Hok1) as (p2 & t2 & Hsets & Ht2 & Hok2 & Hct2).
    { rewrite Hct1. assumption. }
    exists p2, t2. simpl. rewrite Hset. simpl. rewrite Hsets.
    split_and!; try done. congruence.
Qed.

End Histogram.

(** ** What a successful parse returns *)

Ltac parse_cases :=
  repeat match goal with
  | H : context [let '(_, _) := ?p in _] |- _ => destruct p eqn:?
  | H : context [if ?b then _ else _] |- _ => destruct b eqn:?
  | H : context [match ?o with Some _ => _ | None => _ end] |- _ => destruct o eqn:?
  | H : Some _ = Some _ |- _ => injection H as ?; subst
  | H : Parsed _ _ _ _ _ = Parsed _ _ _ _ _ |- _ => injection H as ?; subst
  | H : _ = _ |- _ => discriminate H
  end.

(** The out-parameters of a successful call: [int] values with
    [start <= end], [step >= 1] and the count formula. *)
Lemma parse_subjob_index_Parsed (pc ep : string) (start end_ step count : Z) :
  parse_subjob_index pc = Parsed ep start end_ step count ->
  is_int start /\ is_int end_ /\ is_int step
  /\ start <= end_ /\ 1 <= step
  /\ count = Z.quot (int_add (int_sub end_ start) step) step.
Proof.
  unfold parse_subjob_index, parse_finish. intros H. parse_cases;
    repeat match goal with
    | H : (_ || _) = false |- _ => apply orb_false_elim in H; destruct H
    | H : (_ >=? _) = false |- _ => rewrite Z.geb_leb in H; apply Z.leb_gt in H
    | H : (_ <? _) = false |- _ => apply Z.ltb_ge in H
    end;
    split_and!; try apply to_int_is_int; try reflexivity;
    try (unfold is_int, INT_MIN, INT_MAX; lia); lia.
Qed.

(** ** Construction *)

Section Construction.
Context `{hdr : job_h}.

Lemma fill_tbl_replicate (initalstate : job_state) (end_ step : Z) (room : nat) :
  forall (i : Z) (l : list ajtrk),
  fill_tbl room i end_ step initalstate = Some l ->
  l = replicate (length l) (new_ajtrk initalstate) /\ (length l <= room)%nat.
Proof.
  induction room as [|room IH]; intros i l; simpl.
  - destruct (i <=? end_); [discriminate|]. intros [= <-]. split; [reflexivity|simpl; lia].
  - destruct (i <=? end_); [|intros [= <-]; split; [reflexivity|simpl; lia]].
    destruct (fill_tbl room (int_add i step) end_ step initalstate) as [l'|] eqn:Hl';
      simpl; [|discriminate].
    intros [= <-]. destruct (IH _ _ Hl') as [Hrep Hlen].
    simpl. rewrite <- Hrep. split; [reflexivity|lia].
Qed.

(** The loop visits every index from [i] up to [end_]. *)
Lemma fill_tbl_length_ge (initalstate : job_state) (end_ step : Z) (room : nat) :
  is_int end_ -> 1 <= step ->
  forall (i : Z) (l : list ajtrk),
  is_int i -> i <= end_ ->
  fill_tbl room i end_ step initalstate = Some l ->
  (end_ - i) / step + 1 <= Z.of_nat (length l).
Proof.
  intros He Hst. induction room as [|room IH]; intros i l Hi Hle; simpl.
  - destruct (Z.leb_spec i end_); [discriminate|lia].
  - destruct (Z.leb_spec i end_); [|lia].
    destruct (fill_tbl room (int_add i step) end_ step initalstate) as [l'|] eqn:Hl';
      simpl; [|discriminate].
    intros [= <-]. simpl length.
    destruct (Z_le_gt_dec (i + step) end_) as [Hin|Hout].
    + assert (int_add i step = i + step) as Hadd.
      { apply int_add_id. unfold is_int, INT_MIN, INT_MAX in *. lia. }
      rewrite Hadd in Hl'.
      assert (is_int (i + step)) by (unfold is_int, INT_MIN, INT_MAX in *; lia).
      pose proof (IH (i + step) l' H0 Hin Hl') as IHl.
      replace (end_ - i) with ((end_ - (i + step)) + 1 * step) by lia.
      rewrite Z.div_add by lia. lia.
    + rewrite Z.div_small by lia. lia.
Qed.

(** Without overflow the loop stays inside [room] slots. *)
Lemma fill_tbl_total (initalstate : job_state) (end_ step : Z) (room : nat) :
  1 <= step -> end_ + step <= INT_MAX ->
  forall i : Z,
  INT_MIN <= i ->
  (i <= end_ -> (end_ - i) / step + 1 <= Z.of_nat room) ->
  is_Some (fill_tbl room i end_ step initalstate).
Proof.
  intros Hst He. induction room as [|room IH]; intros i Hi Hroom; simpl.
  - destruct (Z.leb_spec i end_); [|eauto].
    specialize (Hroom H). pose proof (Z.div_pos (end_ - i) step). lia.
  - destruct (Z.leb_spec i end_); [|eauto].
    assert (int_add i step = i + step) as Hadd.
    { apply int_add_id. unfold is_int, INT_MIN, INT_MAX in *. lia. }
    rewrite Hadd.
    destruct (IH (i + step)) as [l' Hl']; [lia| |rewrite Hl'; simpl; eauto].
    intros Hin. specialize (Hroom H).
    replace (end_ - i) with ((end_ - (i + step)) + 1 * step) in Hroom by lia.
    rewrite Z.div_add in Hroom by lia. lia.
Qed.

(** The count computed by the parser never exceeds the number of
    indices of the range. *)
Lemma parse_count_le (start end_ step : Z) :
  is_int start -> is_int end_ -> 1 <= step -> start <= end_ ->
  Z.quot (int_add (int_sub end_ start) step) step <= (end_ - start) / step + 1.
Proof.
  intros Hs He Hst Hle.
  assert (int_add (int_sub end_ start) step <= end_ - start + step) as Hx.
  { unfold int_add, int_sub.
    pose proof (to_int_le (end_ - start) ltac:(unfold INT_MIN; lia)).
    pose proof (to_int_is_int (end_ - start)) as [Hlo _].
    pose proof (to_int_le (to_int (end_ - start) + step) ltac:(lia)). lia. }
  apply (Z.quot_le_mono _ _ step) in Hx; [|lia].
  rewrite (Z.quot_div_nonneg (end_ - start + step)) in Hx by lia.
  replace (end_ - start + step) with ((end_ - start) + 1 * step) in Hx by lia.
  rewrite Z.div_add in Hx by lia. exact Hx.
Qed.

Lemma parse_count_exact (start end_ step : Z) :
  0 <= start -> start <= end_ -> 1 <= step -> end_ + step <= INT_MAX ->
  Z.quot (int_add (int_sub end_ start) step) step = (end_ - start) / step + 1.
Proof.
  intros Hs Hle Hst He.
  rewrite int_sub_id, int_add_id by (unfold is_int, INT_MIN, INT_MAX in *; lia).
  rewrite Z.quot_div_nonneg by lia.
  replace (end_ - start + step) with ((end_ - start) + 1 * step) by lia.
  rewrite Z.div_add by lia. reflexivity.
Qed.

(** What a built table looks like, for any initial state. *)
Lemma mk_subjob_index_tbl_Built (env : server_env) (range : string)
    (initalstate : job_state) (mode : atr_action) (t : ajtrkhd) :
  mk_subjob_index_tbl env range initalstate mode = Built t ->
  exists ep start end_ step count,
    parse_subjob_index range = Parsed ep start end_ step count
    /\ tkm_ct t = count /\ tkm_start t = start /\ tkm_end t = end_
    /\ tkm_step t = step /\ tkm_flags t = 0
    /\ tkm_subjsct t = subjsct_set (fun _ => 0) JOB_STATE_QUEUED count
    /\ tkm_tbl t = replicate (Z.to_nat count) (new_ajtrk initalstate)
    /\ 1 <= count.
Proof.
  unfold mk_subjob_index_tbl. intros H.
  destruct (parse_subjob_index range) as [ep start end_ step count| |] eqn:Hp;
    try discriminate.
  destruct (_ && _); [discriminate|].
  destruct (negb _); [discriminate|].
  destruct (fill_tbl _ _ _ _ _) as [l|] eqn:Hfill; [|discriminate].
  injection H as <-. simpl.
  destruct (parse_subjob_index_Parsed _ _ _ _ _ _ Hp)
    as (Hs & He & Hst & Hle & Hst1 & Hcount).
  destruct (fill_tbl_replicate _ _ _ _ _ _ Hfill) as [Hrep Hlen].
  pose proof (fill_tbl_length_ge _ _ _ _ He Hst1 _ _ Hs Hle Hfill) as Hge.
  pose proof (parse_count_le start end_ step Hs He Hst1 Hle) as Hcle.
  rewrite <- Hcount in Hcle.
  pose proof (Z.div_pos (end_ - start) step ltac:(lia) ltac:(lia)).
  assert (Z.of_nat (length l) = count) as Hlc by lia.
  exists ep, start, end_, step, count. split_and!; try reflexivity; [|lia].
  rewrite Hrep. f_equal. lia.
Qed.

(** A loop that ends inside its [room] never overflowed: the index after
    the last slot is still an [int]. *)
Lemma fill_tbl_no_overflow (initalstate : job_state) (end_ step : Z) (room : nat) :
  1 <= step <= INT_MAX -> is_int end_ ->
  forall (i : Z) (l : list ajtrk),
  0 <= i <= end_ ->
  Z.of_nat room <= (end_ - i) / step + 1 ->
  fill_tbl room i end_ step initalstate = Some l ->
  i + Z.of_nat (length l) * step <= INT_MAX.
Proof.
  intros Hst He. induction room as [|room IH]; intros i l Hi Hroom; simpl.
  - destruct (Z.leb_spec i end_); [discriminate|lia].
  - destruct (Z.leb_spec i end_); [|lia].
    destruct (fill_tbl room (int_add i step) end_ step initalstate) as [l'|] eqn:Hl';
      simpl; [|discriminate].
    intros [= <-]. simpl length.
    destruct (Z_le_gt_dec (i + step) INT_MAX) as [Hfit|Hover].
    + rewrite int_add_id in Hl' by (unfold is_int, INT_MIN, INT_MAX in *; lia).
      destruct (Z_le_gt_dec (i + step) end_) as [Hin|Hout].
      * assert (i + step + Z.of_nat (length l') * step <= INT_MAX); [|lia].
        apply IH; [lia| |assumption].
        replace (end_ - i) with ((end_ - (i + step)) + 1 * step) in Hroom by lia.
        rewrite Z.div_add in Hroom by lia. lia.
      * destruct room; simpl in Hl'; destruct (Z.leb_spec (i + step) end_);
          try lia; injection Hl' as <-; simpl; lia.
    + exfalso. unfold int_add in Hl'.
      rewrite to_int_wrap in Hl' by (unfold is_int, INT_MIN, INT_MAX in *; lia).
      destruct (fill_tbl_replicate _ _ _ _ _ _ Hl') as [_ Hlen].
      pose proof (fill_tbl_length_ge initalstate end_ step room He ltac:(lia)
                    (i + step - 4294967296) l'
                    ltac:(unfold is_int, INT_MIN, INT_MAX in *; lia)
                    ltac:(unfold is_int, INT_MIN, INT_MAX in *; lia) Hl') as Hge.
      assert ((end_ - i) / step <= (end_ - (i + step - 4294967296)) / step).
      { apply Z.div_le_mono; unfold INT_MAX in *; lia. }
      lia.
Qed.

(** A table built from a range with a non-negative start is well formed,
    and its indices, with one more step, stay below [INT_MAX]. *)
Lemma mk_subjob_index_tbl_wf (env : server_env) (range : string)
    (initalstate : job_state) (mode : atr_action) (t : ajtrkhd) :
  mk_subjob_index_tbl env range initalstate mode = Built t ->
  0 <= tkm_start t ->
  wf_table t /\ tkm_start t + tkm_ct t * tkm_step t <= INT_MAX.
Proof.
  unfold mk_subjob_index_tbl. intros H.
  destruct (parse_subjob_index range) as [ep start end_ step count| |] eqn:Hp;
    try discriminate.
  destruct (_ && _); [discriminate|].
  destruct (negb _); [discriminate|].
  destruct (fill_tbl _ _ _ _ _) as [l|] eqn:Hfill; [|discriminate].
  injection H as <-. simpl. intros H0.
  destruct (parse_subjob_index_Parsed _ _ _ _ _ _ Hp)
    as (Hs & He & Hst & Hle & Hst1 & Hcount).
  destruct (fill_tbl_replicate _ _ _ _ _ _ Hfill) as [Hrep Hlen].
  pose proof (fill_tbl_length_ge _ _ _ _ He Hst1 _ _ Hs Hle Hfill) as Hge.
  pose proof (parse_count_le start end_ step Hs He Hst1 Hle) as Hcle.
  rewrite <- Hcount in Hcle.
  pose proof (Z.div_pos (end_ - start) step ltac:(lia) ltac:(lia)).
  assert (Z.of_nat (length l) = count) as Hlc by lia.
  assert (count = (end_ - start) / step + 1) as Hexact by lia.
  split.
  - split; simpl; try lia; [apply He|].
    replace (end_ - start + step) with ((end_ - start) + 1 * step) by lia.
    rewrite Z.div_add by lia. exact Hexact.
  - rewrite <- Hlc.
    apply (fill_tbl_no_overflow initalstate end_ step (Z.to_nat count));
      [destruct Hst; lia|assumption|lia|lia|assumption].
Qed.

(** Built for the Queued state, as [setup_arrayjob_attrs] does, a table
    satisfies the histogram invariant. *)
Lemma mk_subjob_index_tbl_queued_ok (env : server_env) (range : string)
    (mode : atr_action) (t : ajtrkhd) :
  mk_subjob_index_tbl env range JOB_STATE_QUEUED mode = Built t ->
  table_ok t.
Proof.
  intros H.
  destruct (mk_subjob_index_tbl_Built _ _ _ _ _ H)
    as (ep & start & end_ & step & count & Hp & Hct & _ & _ & _ & _ & Hh & Htbl & Hpos).
  destruct (parse_subjob_index_Parsed _ _ _ _ _ _ Hp)
    as (Hs & He & Hst & Hle & Hst1 & Hcount).
  split.
  - intros s. rewrite Hh, Htbl.
    rewrite (count_state_replicate s JOB_STATE_QUEUED) by reflexivity.
    unfold subjsct_set.
    destruct (decide (s = JOB_STATE_QUEUED)) as [->|Hne].
    + destruct (decide (JOB_STATE_QUEUED = JOB_STATE_QUEUED)); [lia|congruence].
    + destruct (decide (JOB_STATE_QUEUED = s)); [congruence|reflexivity].
  - rewrite Htbl, length_replicate. lia.
  - rewrite Hct, Hcount. apply Z.le_trans with
      (int_add (int_sub end_ start) step); [|apply to_int_is_int].
    rewrite Hcount in Hpos.
    assert (0 <= int_add (int_sub end_ start) step).
    { destruct (Z_lt_le_dec (int_add (int_sub end_ start) step) 0) as [Hneg|]; [|lia].
      pose proof (Z.quot_opp_l (int_add (int_sub end_ start) step) step ltac:(lia)).
      pose proof (Z.quot_pos (- int_add (int_sub end_ start) step) step
                    ltac:(lia) ltac:(lia)). lia. }
    rewrite Z.quot_div_nonneg by lia.
    apply Z.div_le_upper_bound; nia.
Qed.

End Construction.

(** C1.  From a freshly built table (built for the Queued state, as
    [setup_arrayjob_attrs] builds it), and from any table that satisfies
    the invariant, after every call of a sequence of
    [set_subjob_tblstate] calls whose offsets are -1 or slots of the
    table, every counter [tkm_subjsct[s]] is the number of slots in
    state [s].  A call on a slot whose state differs from the new one
    decrements the old state's counter, increments the new state's,
    sets the slot's state, and leaves every other slot and counter as
    it was. *)
Theorem set_subjob_tblstate_histogram `{hdr : job_h} :
  (forall (env : server_env) (range : string) (mode : atr_action)
          (t : ajtrkhd) (parent : job) (calls : list (Z * job_state)) (k : nat),
      mk_subjob_index_tbl env range JOB_STATE_QUEUED mode = Built t ->
      ji_ajtrk parent = Some t ->
      Forall (fun c => c.1 = -1 \/ 0 <= c.1 < tkm_ct t) calls ->
      exists parent' t',
        set_subjob_tblstates parent (take k calls) = Some parent'
        /\ ji_ajtrk parent' = Some t'
        /\ forall s, tkm_subjsct t' s = count_state s (tkm_tbl t'))
  /\ (forall (t : ajtrkhd) (parent : job) (calls : list (Z * job_state)) (k : nat),
      table_ok t ->
      ji_ajtrk parent = Some t ->
      Forall (fun c => c.1 = -1 \/ 0 <= c.1 < tkm_ct t) calls ->
      exists parent' t',
        set_subjob_tblstates parent (take k calls) = Some parent'
        /\ ji_ajtrk parent' = Some t'
        /\ table_ok t')
  /\ (forall (parent : job) (t : ajtrkhd) (offset : Z) (ent : ajtrk)
             (newstate : job_state),
      ji_ajtrk parent = Some t ->
      table_ok t ->
      tbl_get t offset = Some ent ->
      trk_status ent <> newstate ->
      exists parent' t',
        set_subjob_tblstate parent offset newstate = Some parent'
        /\ ji_ajtrk parent' = Some t'
        /\ tkm_subjsct t' (trk_status ent) = tkm_subjsct t (trk_status ent) - 1
        /\ tkm_subjsct t' newstate = tkm_subjsct t newstate + 1
        /\ (forall s, s <> trk_status ent -> s <> newstate ->
              tkm_subjsct t' s = tkm_subjsct t s)
        /\ tbl_get t' offset = Some (set_trk_status newstate ent)
        /\ (forall o, o <> offset -> tbl_get t' o = tbl_get t o)).
Proof.
  split_and!.
  - intros env range mode t parent calls k Hbuilt Ht Hcalls.
    pose proof (mk_subjob_index_tbl_queued_ok _ _ _ _ Hbuilt) as Hok.
    destruct (set_subjob_tblstates_ok (take k calls) parent t Ht Hok)
      as (p' & t' & Hrun & Ht' & Hok' & _).
    { apply Forall_take. assumption. }
    exists p', t'. split_and!; try assumption. apply (ok_hist t' Hok').
  - intros t parent calls k Hok Ht Hcalls.
    destruct (set_subjob_tblstates_ok (take k calls) parent t Ht Hok)
      as (p' & t' & Hrun & Ht' & Hok' & _).
    { apply Forall_take. assumption. }
    exists p', t'. split_and!; assumption.
  - intros parent t offset ent newstate Ht Hok Hget Hne.
    destruct (set_subjob_tblstate_step parent t offset ent newstate Ht Hget Hne Hok)
      as (p' & t' & H1 & H2 & H3 & H4 & H5 & H6 & H7 & _).
    exists p', t'. split_and!; assumption.
Qed.

Lemma set_subjob_tblstate_histogram_witness :
  (exists parent' t',
     @set_subjob_tblstates sample_job_h (sample_job (Some sample_tbl))
       (take 2 [(0, JOB_STATE_EXPIRED); (-1, JOB_STATE_HELD); (3, JOB_STATE_RUNNING)])
     = Some parent'
     /\ ji_ajtrk parent' = Some t'
     /\ forall s, tkm_subjsct t' s = count_state s (tkm_tbl t'))
  /\ (exists parent' t',
     @set_subjob_tblstate sample_job_h (sample_job (Some sample_tbl)) 2 JOB_STATE_RUNNING
     = Some parent'
     /\ ji_ajtrk parent' = Some t'
     /\ tkm_subjsct t' JOB_STATE_QUEUED = 3
     /\ tkm_subjsct t' JOB_STATE_RUNNING = 1).
Proof.
  destruct (@set_subjob_tblstate_histogram sample_job_h) as (Hseq & _ & Hstep).
  split.
  - apply (Hseq sample_env "1-10:3" ATR_ACTION_NEW sample_tbl).
    + vm_compute. reflexivity.
    + reflexivity.
    + repeat constructor; simpl; lia.
  - destruct (Hstep (sample_job (Some sample_tbl)) sample_tbl 2
                (@new_ajtrk sample_job_h JOB_STATE_QUEUED) JOB_STATE_RUNNING)
      as (p' & t' & H1 & H2 & H3 & H4 & _).
    + reflexivity.
    + apply (@mk_subjob_index_tbl_queued_ok sample_job_h sample_env "1-10:3"
               ATR_ACTION_NEW). vm_compute. reflexivity.
    + reflexivity.
    + discriminate.
    + exists p', t'. split_and!; assumption.
Defined.

(** Built for the Held state from "1-3" (a state that no caller passes),
    the table has three slots, all Held, but the counter of Held is 0
    and the counter of Queued is 3: the counter array is filled for the
    Queued state whatever the initial state is. *)
Theorem mk_subjob_index_tbl_counts_queued_only :
  forall hdr : job_h,
  exists t,
    @mk_subjob_index_tbl hdr sample_env "1-3" JOB_STATE_HELD ATR_ACTION_NEW = Built t
    /\ tkm_ct t = 3
    /\ tkm_tbl t = replicate 3 (@new_ajtrk hdr JOB_STATE_HELD)
    /\ tkm_subjsct t JOB_STATE_HELD = 0
    /\ tkm_subjsct t JOB_STATE_QUEUED = 3.
Proof.
  intros hdr. eexists. split; [vm_compute; reflexivity|].
  split_and!; reflexivity.
Qed.


(** C7.  [mk_subjob_index_tbl] answers PBSE_MaxArraySize exactly when
    the range parses, its count exceeds the limit (max_array_size when
    set, 10000 otherwise) and the mode is ATR_ACTION_NEW or
    ATR_ACTION_ALTER.  In mode ATR_ACTION_RECOV the limit is not looked
    at: a range that parses builds its table with all its slots,
    whatever its count (the allocation succeeding, the range starting at
    a non-negative index and [end + step] staying an [int]). *)
Theorem mk_subjob_index_tbl_limit `{hdr : job_h} (env : server_env)
    (range : string) (initalstate : job_state) (mode : atr_action) :
  let limit :=
    match sv_maxarraysize env with
    | Some l => to_int l
    | None => PBS_MAX_ARRAY_JOB_DFL
    end in
  (mk_subjob_index_tbl env range initalstate mode = BuildError PBSE_MaxArraySize
   <-> exists ep start end_ step count,
         parse_subjob_index range = Parsed ep start end_ step count
         /\ count > limit
         /\ (mode = ATR_ACTION_NEW \/ mode = ATR_ACTION_ALTER))
  /\ (mode = ATR_ACTION_RECOV ->
      forall ep start end_ step count,
        parse_subjob_index range = Parsed ep start end_ step count ->
        malloc_ok env = true ->
        0 <= start -> end_ + step <= INT_MAX ->
        exists t,
          mk_subjob_index_tbl env range initalstate mode = Built t
          /\ tkm_ct t = count
          /\ Z.of_nat (length (tkm_tbl t)) = count).
Proof.
  intros limit. split; [split|].
  - unfold mk_subjob_index_tbl. fold limit.
    destruct (parse_subjob_index range) as [ep start end_ step count| |] eqn:Hp;
      try discriminate.
    destruct (_ || _) eqn:Hmode; simpl.
    + destruct (Z.gtb_spec count limit).
      * intros _. exists ep, start, end_, step, count.
        split_and!; [reflexivity|lia|].
        apply orb_true_iff in Hmode.
        destruct Hmode as [Hm|Hm]; apply bool_decide_eq_true in Hm; auto.
      * destruct (negb _); [discriminate|]. destruct (fill_tbl _ _ _ _ _); discriminate.
    + destruct (negb _); [discriminate|]. destruct (fill_tbl _ _ _ _ _); discriminate.
  - intros (ep & start & end_ & step & count & Hp & Hgt & Hmode).
    unfold mk_subjob_index_tbl. fold limit. rewrite Hp.
    assert (bool_decide (mode = ATR_ACTION_NEW)
            || bool_decide (mode = ATR_ACTION_ALTER) = true) as ->.
    { apply orb_true_iff.
      destruct Hmode as [Hm|Hm]; [left|right]; apply bool_decide_eq_true; exact Hm. }
    destruct (Z.gtb_spec count limit); [reflexivity|lia].
  - intros Hmode ep start end_ step count Hp Hmalloc Hs He.
    destruct (parse_subjob_index_Parsed _ _ _ _ _ _ Hp)
      as (His & Hie & Hist & Hle & Hst1 & Hcount).
    pose proof (parse_count_exact start end_ step Hs Hle Hst1 He) as Hexact.
    rewrite <- Hcount in Hexact.
    pose proof (Z.div_pos (end_ - start) step ltac:(lia) ltac:(lia)) as Hdiv.
    destruct (fill_tbl_total initalstate end_ step (Z.to_nat count) Hst1 He start)
      as [l Hl].
    { unfold INT_MIN. lia. }
    { intros _. lia. }
    unfold mk_subjob_index_tbl. rewrite Hp, Hmode, Hmalloc, Hl. simpl.
    eexists. split; [reflexivity|]. simpl. split; [reflexivity|].
    destruct (fill_tbl_replicate _ _ _ _ _ _ Hl) as [_ Hlen].
    pose proof (fill_tbl_length_ge _ _ _ _ Hie Hst1 _ _ His Hle Hl). lia.
Qed.

Lemma mk_subjob_index_tbl_limit_witness :
  @mk_subjob_index_tbl sample_job_h (mk_env (Some 5) true 0) "1-10"
    JOB_STATE_QUEUED ATR_ACTION_NEW = BuildError PBSE_MaxArraySize
  /\ exists t,
       @mk_subjob_index_tbl sample_job_h (mk_env (Some 5) true 0) "1-10"
         JOB_STATE_QUEUED ATR_ACTION_RECOV = Built t
       /\ tkm_ct t = 10
       /\ Z.of_nat (length (tkm_tbl t)) = 10.
Proof.
  split.
  - apply (@mk_subjob_index_tbl_limit sample_job_h (mk_env (Some 5) true 0) "1-10"
             JOB_STATE_QUEUED ATR_ACTION_NEW).
    exists "", 1, 10, 1, 10. split_and!; [reflexivity|reflexivity|left; reflexivity].
  - apply (proj2 (@mk_subjob_index_tbl_limit sample_job_h (mk_env (Some 5) true 0)
                    "1-10" JOB_STATE_QUEUED ATR_ACTION_RECOV) eq_refl "" 1 10 1 10);
      [reflexivity|reflexivity|lia|unfold INT_MAX; lia].
Defined.

(** ** C2: doneness *)

Lemma scan_errors_none (tbl : list ajtrk) (e i : Z) :
  Forall (fun ent => trk_error ent = 0) tbl ->
  scan_errors tbl e i = (e, i + Z.of_nat (length tbl)).
Proof.
  revert e i. induction tbl as [|ent rest IH]; intros e i Hall; simpl.
  - f_equal. lia.
  - inversion Hall as [|? ? H0 Hrest]; subst. rewrite H0. simpl.
    rewrite IH by assumption. f_equal. lia.
Qed.

Lemma scan_errors_after_positive (tbl : list ajtrk) (i : Z) :
  Forall (fun ent => 0 <= trk_error ent) tbl ->
  (scan_errors tbl 1 i).1 = 1.
Proof.
  revert i. induction tbl as [|ent rest IH]; intros i Hall; simpl; [reflexivity|].
  inversion Hall as [|? ? H0 Hrest]; subst.
  destruct (Z.gtb_spec (trk_error ent) 0); [apply IH; assumption|].
  destruct (Z.ltb_spec (trk_error ent) 0); [lia|apply IH; assumption].
Qed.

Lemma scan_errors_positive (tbl : list ajtrk) (e i : Z) :
  Forall (fun ent => 0 <= trk_error ent) tbl ->
  Exists (fun ent => 0 < trk_error ent) tbl ->
  (scan_errors tbl e i).1 = 1.
Proof.
  revert e i. induction tbl as [|ent rest IH]; intros e i Hall Hex; simpl.
  - inversion Hex.
  - inversion Hall as [|? ? H0 Hrest]; subst.
    destruct (Z.gtb_spec (trk_error ent) 0).
    + apply scan_errors_after_positive. assumption.
    + destruct (Z.ltb_spec (trk_error ent) 0); [lia|].
      inversion Hex as [? ? Hpos|? ? Hlater]; subst; [lia|].
      apply IH; assumption.
Qed.

Lemma scan_errors_negative (tbl : list ajtrk) (e i : Z) :
  Exists (fun ent => trk_error ent < 0) tbl ->
  (scan_errors tbl e i).1 = 2.
Proof.
  revert e i. induction tbl as [|ent rest IH]; intros e i Hex; simpl.
  - inversion Hex.
  - destruct (Z.gtb_spec (trk_error ent) 0).
    + inversion Hex as [? ? Hneg|? ? Hlater]; subst; [lia|]. apply IH. assumption.
    + destruct (Z.ltb_spec (trk_error ent) 0); [reflexivity|].
      inversion Hex as [? ? Hneg|? ? Hlater]; subst; [lia|]. apply IH. assumption.
Qed.

(** The scan stops at the first slot with a negative error. *)
Lemma scan_errors_stops (before after : list ajtrk) (ent : ajtrk) (e i : Z) :
  Forall (fun ent => 0 <= trk_error ent) before ->
  trk_error ent < 0 ->
  scan_errors (before ++ ent :: after) e i = (2, i + Z.of_nat (length before)).
Proof.
  revert e i. induction before as [|b rest IH]; intros e i Hall Hneg; simpl.
  - destruct (Z.gtb_spec (trk_error ent) 0); [lia|].
    destruct (Z.ltb_spec (trk_error ent) 0); [|lia]. f_equal. lia.
  - inversion Hall as [|? ? H0 Hrest]; subst.
    destruct (Z.gtb_spec (trk_error b) 0).
    + rewrite IH by assumption. f_equal. lia.
    + destruct (Z.ltb_spec (trk_error b) 0); [lia|].
      rewrite IH by assumption. f_equal. lia.
Qed.

(** Once the latch bit is set, the guard of [chk_array_doneness] holds. *)
Lemma chk_array_latched `{hdr : job_h} (flags : Z) :
  TKMFLG_CHK_ARRAY <> 0 ->
  Z.land (Z.lor flags TKMFLG_CHK_ARRAY)
    (Z.lor TKMFLG_NO_DELETE TKMFLG_CHK_ARRAY) <> 0.
Proof.
  intros Hbit Hzero. rewrite <- Z.lor_land_distr_l in Hzero.
  apply Z.lor_eq_0_iff in Hzero. tauto.
Qed.

(** C2.  On an array job whose table is not marked (neither a delete in
    progress nor the latch) and whose counters of Queued, Running, Held
    and Exiting are all 0, [chk_array_doneness] stores exit status 0 if
    no slot recorded an error, 1 if some slot recorded a positive error
    and none a negative one, and 2 if some slot recorded a negative
    error, the scan stopping at the first such slot.  It makes the
    end-of-job calls once and sets the latch: a second call on the
    result makes no call and changes nothing. *)
Theorem chk_array_doneness_finalizes_once `{hdr : job_h}
    (parent : job) (t : ajtrkhd) :
  ji_ajtrk parent = Some t ->
  TKMFLG_CHK_ARRAY <> 0 ->
  Z.land (tkm_flags t) (Z.lor TKMFLG_NO_DELETE TKMFLG_CHK_ARRAY) = 0 ->
  tkm_subjsct t JOB_STATE_QUEUED = 0 ->
  tkm_subjsct t JOB_STATE_RUNNING = 0 ->
  tkm_subjsct t JOB_STATE_HELD = 0 ->
  tkm_subjsct t JOB_STATE_EXITING = 0 ->
  Z.of_nat (length (tkm_tbl t)) = tkm_ct t ->
  exists parent1 e,
    chk_array_doneness parent = 
      (parent1,
       ([Ev_check_block]
        ++ (if decide (ji_state parent = JOB_STATE_BEGUN)
            then [Ev_account_job_update; Ev_set_attr_rsc_used_acct;
                  Ev_account_jobend e; Ev_svr_mailowner e]
            else [])
        ++ (if at_depend_set parent then [Ev_depend_on_term] else [])
        ++ [Ev_svr_saveorpurge_finjobhist])%list)
    /\ ji_exitstat parent1 = e
    /\ ji_un_type parent1 = JOB_UNION_TYPE_EXEC
    /\ (Forall (fun ent => trk_error ent = 0) (tkm_tbl t) -> e = 0)
    /\ (Exists (fun ent => 0 < trk_error ent) (tkm_tbl t) ->
        Forall (fun ent => 0 <= trk_error ent) (tkm_tbl t) -> e = 1)
    /\ (Exists (fun ent => trk_error ent < 0) (tkm_tbl t) -> e = 2)
    /\ (forall before ent after,
          tkm_tbl t = (before ++ ent :: after)%list ->
          Forall (fun ent => 0 <= trk_error ent) before ->
          trk_error ent < 0 ->
          scan_errors (tkm_tbl t) 0 0 = (2, Z.of_nat (length before)))
    /\ chk_array_doneness parent1 = (parent1, []).
Proof.
  intros Ht Hbit Hflags Hq Hr Hh He Hlen.
  assert (take (Z.to_nat (tkm_ct t)) (tkm_tbl t) = tkm_tbl t) as Htake.
  { apply take_ge. lia. }
  eexists _, (scan_errors (tkm_tbl t) 0 0).1.
  split_and!.
  - unfold chk_array_doneness. rewrite Ht, Hflags, Hq, Hr, Hh, He, Htake. simpl.
    reflexivity.
  - reflexivity.
  - reflexivity.
  - intros Hall. rewrite scan_errors_none by assumption. reflexivity.
  - intros Hex Hall. apply scan_errors_positive; assumption.
  - intros Hex. apply scan_errors_negative; assumption.
  - intros before ent after -> Hall Hneg.
    rewrite scan_errors_stops by assumption. f_equal.
  - unfold chk_array_doneness at 1. simpl.
    destruct (Z.eqb_spec (Z.land (Z.lor (tkm_flags t) TKMFLG_CHK_ARRAY)
                            (Z.lor TKMFLG_NO_DELETE TKMFLG_CHK_ARRAY)) 0) as [Hz|];
      [|reflexivity].
    exfalso. exact (chk_array_latched _ Hbit Hz).
Qed.

Lemma chk_array_doneness_finalizes_once_witness :
  exists parent1,
    @chk_array_doneness sample_job_h expired_job
    = (parent1,
       [Ev_check_block; Ev_account_job_update; Ev_set_attr_rsc_used_acct;
        Ev_account_jobend 0; Ev_svr_mailowner 0; Ev_svr_saveorpurge_finjobhist])
    /\ ji_exitstat parent1 = 0
    /\ @chk_array_doneness sample_job_h parent1 = (parent1, []).
Proof.
  destruct (@chk_array_doneness_finalizes_once sample_job_h expired_job expired_tbl)
    as (p1 & e & Hchk & He & _ & Hnone & _ & _ & _ & Hlatch).
  - vm_compute. reflexivity.
  - discriminate.
  - reflexivity.
  - reflexivity.
  - reflexivity.
  - reflexivity.
  - reflexivity.
  - reflexivity.
  - assert (e = 0) as ->.
    { apply Hnone. vm_compute. repeat constructor. }
    exists p1. split_and!; [exact Hchk|exact He|exact Hlatch].
Defined.

(** ** C6: the failure paths of create_subjob *)

Lemma tbl_get_insert (t : ajtrkhd) (indx o : Z) (ent x : ajtrk) :
  tbl_get t indx = Some ent ->
  tbl_get (set_tkm_tbl (<[Z.to_nat indx := x]> (tkm_tbl t)) t) o
  = if decide (o = indx) then Some x else tbl_get t o.
Proof.
  intros Hget. destruct (tbl_get_Some t indx ent Hget) as [Hrange Hlook].
  unfold tbl_get; simpl. destruct (decide (o = indx)) as [->|Hne].
  - destruct (Z.ltb_spec indx 0); [lia|]. apply list_lookup_insert_eq. lia.
  - destruct (Z.ltb_spec o 0); [reflexivity|]. apply list_lookup_insert_ne. lia.
Qed.

(** A failure that returns before the slot is linked. *)
Ltac same_parent :=
  split; [reflexivity|];
  let t0 := fresh "t" in let Ht0 := fresh "Ht" in
  intros t0 Ht0; exists t0;
  split_and!; [congruence|reflexivity|left; reflexivity].

(** C6.  On a parent whose table (if any) is well formed, [create_subjob]
    returns; it answers PBSE_BADSTATE, and leaves the parent as it was,
    when the slot the index resolves to is in a state other than Queued.
    On every failure no subjob is returned, the counters are as before,
    and every slot is as before, except that after a failed enqueue the
    slot of the index (which is Queued) has no subjob linked. *)
Theorem create_subjob_failure_keeps_table `{hdr : job_h} (env : server_env)
    (parent : job) (newjid : string) :
  (forall t, ji_ajtrk parent = Some t -> wf_table t) ->
  exists rc subj parent' evs,
    create_subjob env parent newjid = Some (rc, subj, parent', evs)
    /\ (forall index t ent,
          Z.land (ji_svrflags parent) JOB_SVFLG_ArrayJob <> 0 ->
          get_index_from_jid newjid = Some index ->
          ji_ajtrk parent = Some t ->
          tbl_get t (subjob_index_to_offset parent index) = Some ent ->
          trk_status ent <> JOB_STATE_QUEUED ->
          rc = PBSE_BADSTATE /\ subj = None /\ parent' = parent)
    /\ (rc <> PBSE_NONE ->
        subj = None
        /\ forall t, ji_ajtrk parent = Some t ->
           exists t',
             ji_ajtrk parent' = Some t'
             /\ tkm_subjsct t' = tkm_subjsct t
             /\ forall o,
                  tbl_get t' o = tbl_get t o
                  \/ exists ent,
                       tbl_get t o = Some ent
                       /\ trk_status ent = JOB_STATE_QUEUED
                       /\ tbl_get t' o = Some (set_trk_psubjob None ent)).
Proof.
  intros Hwf. unfold create_subjob.
  destruct (Z.eqb_spec (Z.land (ji_svrflags parent) JOB_SVFLG_ArrayJob) 0) as [Hz|Hnz].
  { eexists _, _, _, _. split; [reflexivity|]. split.
    - intros index t ent Hflag. contradiction.
    - intros _. same_parent. }
  destruct (get_index_from_jid newjid) as [index|] eqn:Hidx.
  2: { eexists _, _, _, _. split; [reflexivity|]. split.
       - intros index t ent _ Hi. discriminate.
       - intros _. same_parent. }
  destruct (Z.eqb_spec (subjob_index_to_offset parent index) (-1)) as [Hm1|Hfound].
  { eexists _, _, _, _. split; [reflexivity|]. split.
    - intros index' t ent _ [= <-] Ht Hget.
      destruct (tbl_get_Some _ _ _ Hget). lia.
    - intros _. same_parent. }
  destruct (ji_ajtrk parent) as [t|] eqn:Ht.
  2: { exfalso. apply Hfound. unfold subjob_index_to_offset. rewrite Ht. reflexivity. }
  set (indx := subjob_index_to_offset parent index) in *.
  assert (0 <= indx < tkm_ct t) as Hrange.
  { subst indx. unfold subjob_index_to_offset in *. rewrite Ht in *.
    destruct (at_nul index); [contradiction|].
    apply (numindex_to_offset_sound parent t (atoi index) _ Ht (Hwf t eq_refl) eq_refl Hfound). }
  destruct (tbl_get_in_range t indx) as [ent Hget].
  { rewrite (wf_len t (Hwf t eq_refl)). assumption. }
  simpl. rewrite Hget. simpl.
  destruct (bool_decide (trk_status ent = JOB_STATE_QUEUED)) eqn:Hst; simpl.
  2: { apply bool_decide_eq_false in Hst.
       eexists _, _, _, _. split; [reflexivity|]. split.
       - intros index' t' ent' _ [= <-] [= <-] Hget' _. auto.
       - intros _. same_parent. }
  apply bool_decide_eq_true in Hst.
  assert (forall index' t' ent',
            Some index = Some index' -> Some t = Some t' ->
            tbl_get t' (subjob_index_to_offset parent index') = Some ent' ->
            trk_status ent' <> JOB_STATE_QUEUED -> False) as Hqueued.
  { intros index' t' ent' [= <-] [= <-] Hget' Hne. fold indx in Hget'. congruence. }
  destruct (malloc_ok env); simpl.
  2: { eexists _, _, _, _. split; [reflexivity|]. split.
       - intros index' t' ent' _ Hi Ht' Hget' Hne. exfalso. eauto.
       - intros _. same_parent. }
  destruct (svr_enquejob_rc env =? 0); simpl.
  { eexists _, _, _, _. split; [reflexivity|]. split.
    - intros index' t' ent' _ Hi Ht' Hget' Hne. exfalso. eauto.
    - intros Hrc. contradiction. }
  eexists _, _, _, _. split; [reflexivity|]. split.
  { intros index' t' ent' _ Hi Ht' Hget' Hne. exfalso. eauto. }
  intros _. split; [reflexivity|]. intros t0 [= <-].
  unfold job_purge, link_subjob. rewrite Ht, Hget. simpl.
  rewrite (tbl_get_insert t indx indx ent _ Hget).
  destruct (decide (indx = indx)); [|congruence]. simpl.
  rewrite list_insert_insert_eq.
  eexists. split; [reflexivity|]. split; [reflexivity|].
  intros o. destruct (tbl_get_Some t indx ent Hget) as [Hr Hlook].
  destruct (decide (o = indx)) as [->|Hne].
  + right. exists ent. split_and!; [assumption|assumption|].
    unfold tbl_get; simpl. destruct (Z.ltb_spec indx 0); [lia|].
    rewrite list_lookup_insert_eq by lia. reflexivity.
  + left. unfold tbl_get; simpl. destruct (Z.ltb_spec o 0); [reflexivity|].
    apply list_lookup_insert_ne. lia.
Qed.

Lemma running_job_wf :
  forall t, ji_ajtrk running_job = Some t -> wf_table t.
Proof. intros t [= <-]. split; vm_compute; congruence. Qed.

Lemma create_subjob_failure_keeps_table_witness :
  exists subj parent' evs,
    @create_subjob sample_job_h sample_env running_job "12[4].svr"
    = Some (PBSE_BADSTATE, subj, parent', evs)
    /\ subj = None /\ parent' = running_job.
Proof.
  destruct (@create_subjob_failure_keeps_table sample_job_h sample_env
              running_job "12[4].svr" running_job_wf)
    as (rc & subj & parent' & evs & Hcall & HA & _).
  destruct (HA "4" (default sample_tbl (ji_ajtrk running_job))
              (set_trk_status JOB_STATE_RUNNING (@new_ajtrk sample_job_h JOB_STATE_QUEUED)))
    as (H1 & H2 & H3).
  - discriminate.
  - reflexivity.
  - vm_compute. reflexivity.
  - vm_compute. reflexivity.
  - discriminate.
  - exists subj, parent', evs. rewrite <- H1. split_and!; [exact Hcall|exact H2|exact H3].
Defined.

(** ** Decimal text read back by strtol *)

Lemma digit_char_spec (d : Z) :
  0 <= d < 10 ->
  isdigit (digit_char d) = true /\ digit_value (digit_char d) = d.
Proof.
  intros Hd.
  assert (d = 0 \/ d = 1 \/ d = 2 \/ d = 3 \/ d = 4 \/ d = 5 \/ d = 6
          \/ d = 7 \/ d = 8 \/ d = 9) as Hcases by lia.
  repeat (destruct Hcases as [->|Hcases]; [split; reflexivity|]).
  subst d. split; reflexivity.
Qed.

(** A digit is none of the other characters the parser looks for. *)
Lemma isdigit_other (c : ascii) :
  isdigit c = true ->
  isspace c = false
  /\ Ascii.eqb c "," = false /\ Ascii.eqb c "]" = false
  /\ Ascii.eqb c "-" = false /\ Ascii.eqb c "+" = false
  /\ Ascii.eqb c ":" = false.
Proof.
  destruct c as [[] [] [] [] [] [] [] []]; intros H; try discriminate H;
    repeat split; reflexivity.
Qed.

Lemma digit_at_facts (pc : string) :
  digit_at pc = true ->
  skip_spaces pc = pc /\ skip_spaces_commas pc = pc
  /\ at_nul pc = false /\ space_at pc = false
  /\ char_at "," pc = false /\ char_at "]" pc = false
  /\ char_at "-" pc = false /\ char_at "+" pc = false
  /\ char_at ":" pc = false.
Proof.
  destruct pc as [|c r]; simpl; [discriminate|]. intros Hd.
  destruct (isdigit_other c Hd) as (H1 & H2 & H3 & H4 & H5 & H6).
  rewrite H1, H2, H3, H4, H5, H6. simpl. rewrite ?H1. repeat split; reflexivity.
Qed.

Lemma print_digits_app (fuel : nat) (n : Z) (acc rest : string) :
  print_digits fuel n acc ++ rest = print_digits fuel n (acc ++ rest).
Proof.
  revert n acc. induction fuel as [|fuel IH]; intros n acc; simpl; [reflexivity|].
  destruct (n / 10 =? 0); [reflexivity|]. rewrite IH. reflexivity.
Qed.

Lemma print_digits_digit_at (fuel : nat) (n : Z) (acc : string) :
  digit_at (print_digits fuel n acc) = true.
Proof.
  revert n acc. induction fuel as [|fuel IH]; intros n acc; simpl.
  - apply digit_char_spec. apply Z.mod_pos_bound. lia.
  - destruct (n / 10 =? 0); [|apply IH].
    simpl. apply digit_char_spec. apply Z.mod_pos_bound. lia.
Qed.

(** Reading the digits of [n] from 0 is reading on from [n]. *)
Lemma strtol_digits_print (fuel : nat) :
  forall (n : Z) (acc : string),
  0 <= n < 10 ^ Z.of_nat (S fuel) ->
  strtol_digits 0 (print_digits fuel n acc) = strtol_digits n acc.
Proof.
  induction fuel as [|fuel IH]; intros n acc Hn.
  - simpl print_digits. change (10 ^ Z.of_nat 1) with 10 in Hn.
    rewrite Z.mod_small by lia. simpl.
    destruct (digit_char_spec n Hn) as [-> ->]. reflexivity.
  - simpl print_digits.
    pose proof (Z.mod_pos_bound n 10 ltac:(lia)) as Hmod.
    pose proof (Z.div_mod n 10 ltac:(lia)) as Hdm.
    destruct (Z.eqb_spec (n / 10) 0) as [Hz|Hnz].
    + simpl. destruct (digit_char_spec (n mod 10) Hmod) as [-> ->].
      f_equal. lia.
    + rewrite IH.
      * simpl. destruct (digit_char_spec (n mod 10) Hmod) as [-> ->].
        f_equal. lia.
      * split; [apply Z.div_pos; lia|].
        apply Z.div_lt_upper_bound; [lia|].
        replace (Z.of_nat (S (S fuel))) with (Z.succ (Z.of_nat (S fuel))) in Hn by lia.
        rewrite Z.pow_succ_r in Hn by lia. lia.
Qed.

Lemma log2_fuel_enough (n : Z) :
  0 <= n -> n < 10 ^ Z.of_nat (S (Z.to_nat (Z.log2 n))).
Proof.
  intros Hn. pose proof (Z.log2_nonneg n) as Hl.
  replace (Z.of_nat (S (Z.to_nat (Z.log2 n)))) with (Z.succ (Z.log2 n)) by lia.
  destruct (Z.eq_dec n 0) as [->|Hne]; [reflexivity|].
  pose proof (Z.log2_spec n ltac:(lia)) as [_ Hlt].
  apply Z.lt_le_trans with (1 := Hlt).
  apply Z.pow_le_mono_l. lia.
Qed.

Lemma strtol_digits_stop (n : Z) (rest : string) :
  digit_at rest = false -> strtol_digits n rest = (n, rest).
Proof. destruct rest as [|c r]; simpl; [reflexivity|]. intros ->. reflexivity. Qed.

Lemma print_nat_digit_at (n : Z) (rest : string) :
  digit_at (print_nat n ++ rest) = true.
Proof. unfold print_nat. rewrite print_digits_app. apply print_digits_digit_at. Qed.

(** [strtol] reads back what %d printed, up to the next non-digit. *)
Lemma strtol_print_nat (n : Z) (rest : string) :
  0 <= n <= LONG_MAX -> digit_at rest = false ->
  strtol (print_nat n ++ rest) = (n, rest).
Proof.
  intros Hn Hrest. unfold strtol.
  pose proof (print_nat_digit_at n rest) as Hd.
  destruct (digit_at_facts _ Hd) as (-> & _ & _ & _ & _ & _ & -> & -> & _).
  rewrite Hd. unfold print_nat. rewrite print_digits_app. simpl.
  rewrite strtol_digits_print by (split; [lia|apply log2_fuel_enough; lia]).
  rewrite strtol_digits_stop by assumption.
  unfold clamp_long, LONG_MIN, LONG_MAX in *.
  destruct (Z.ltb_spec n (-9223372036854775808)); [lia|].
  destruct (Z.ltb_spec 9223372036854775807 n); [lia|]. reflexivity.
Qed.

Lemma strtol_sprintf_d (n : Z) (rest : string) :
  LONG_MIN <= n <= LONG_MAX -> digit_at rest = false ->
  strtol (sprintf_d n ++ rest) = (n, rest).
Proof.
  intros Hn Hrest. unfold sprintf_d.
  destruct (Z.ltb_spec n 0); [|apply strtol_print_nat; [lia|assumption]].
  unfold strtol. simpl.
  pose proof (print_nat_digit_at (- n) rest) as Hd. rewrite Hd.
  unfold print_nat. rewrite print_digits_app.
  rewrite strtol_digits_print by (split; [lia|apply log2_fuel_enough; lia]).
  rewrite strtol_digits_stop by assumption.
  unfold clamp_long, LONG_MIN, LONG_MAX in *.
  destruct (Z.ltb_spec (- - n) (-9223372036854775808)); [lia|].
  destruct (Z.ltb_spec 9223372036854775807 (- - n)); [lia|]. f_equal. lia.
Qed.

(** ** The segment forms of parse_subjob_index *)

Lemma string_app_assoc (a b c : string) : (a ++ b) ++ c = a ++ (b ++ c).
Proof. induction a as [|x a IH]; simpl; [reflexivity|]. rewrite IH. reflexivity. Qed.

Lemma string_app_empty_r (a : string) : a ++ "" = a.
Proof. induction a as [|x a IH]; simpl; [reflexivity|]. rewrite IH. reflexivity. Qed.

Lemma string_length_app (a b : string) :
  String.length (a ++ b) = (String.length a + String.length b)%nat.
Proof. induction a as [|c a IH]; simpl; [reflexivity|]. rewrite IH. reflexivity. Qed.

Lemma parse_subjob_index_steps (pc : string) :
  parse_subjob_index pc
  = let pc := skip_spaces_commas pc in
    if at_nul pc || char_at "]" pc then NoMore pc
    else if negb (digit_at pc) then ParseError
    else let '(v, eptr) := strtol pc in parse_after_start (to_int v) eptr.
Proof. reflexivity. Qed.

Lemma print_nat_numeral (n : Z) : 0 <= n <= LONG_MAX -> numeral (print_nat n) n.
Proof.
  intros Hn rest Hrest. split; [apply print_nat_digit_at|].
  apply strtol_print_nat; assumption.
Qed.

Lemma sprintf_d_signed_numeral (n : Z) :
  LONG_MIN <= n <= LONG_MAX -> signed_numeral (sprintf_d n) n.
Proof.
  intros Hn rest Hrest. split; [|apply strtol_sprintf_d; assumption].
  unfold sprintf_d. destruct (n <? 0); [reflexivity|].
  apply digit_at_facts. apply print_nat_digit_at.
Qed.

Lemma sprintf_d_nonneg (n : Z) : 0 <= n -> sprintf_d n = print_nat n.
Proof. intros Hn. unfold sprintf_d. destruct (Z.ltb_spec n 0); [lia|reflexivity]. Qed.

Lemma print_nat_signed_numeral (n : Z) :
  0 <= n <= LONG_MAX -> signed_numeral (print_nat n) n.
Proof.
  intros Hn. rewrite <- (sprintf_d_nonneg n) by lia.
  apply sprintf_d_signed_numeral. unfold LONG_MIN. lia.
Qed.

Lemma parse_numeral (sx : string) (X : Z) (rest : string) :
  numeral sx X -> is_int X -> digit_at rest = false ->
  parse_subjob_index (sx ++ rest) = parse_after_start X rest.
Proof.
  intros Hnum HX Hrest. destruct (Hnum rest Hrest) as [Hd Hstr].
  rewrite parse_subjob_index_steps. cbv zeta.
  destruct (digit_at_facts _ Hd) as (_ & -> & -> & _ & _ & -> & _).
  rewrite Hd, Hstr. simpl. rewrite to_int_id by assumption. reflexivity.
Qed.

Lemma parse_finish_single (pc : string) (X : Z) :
  parse_finish pc X X 1 = Parsed pc X X 1 1.
Proof. unfold parse_finish, int_sub. rewrite Z.sub_diag. reflexivity. Qed.

Lemma parse_after_start_end (X : Z) :
  parse_after_start X "" = Parsed "" X X 1 1.
Proof. apply parse_finish_single. Qed.

Lemma parse_after_start_comma (X : Z) (rest : string) :
  parse_after_start X (String "," rest) = Parsed rest X X 1 1.
Proof. apply parse_finish_single. Qed.

Lemma parse_after_start_dash (X Y : Z) (sy rest : string) :
  numeral sy Y -> is_int Y -> digit_at rest = false ->
  parse_after_start X (String "-" (sy ++ rest)) = parse_after_end X Y rest.
Proof.
  intros Hnum HY Hrest. destruct (Hnum rest Hrest) as [_ Hstr].
  unfold parse_after_start. simpl. rewrite Hstr, to_int_id by assumption.
  reflexivity.
Qed.

(** Whatever follows, a range whose end is not above its start fails. *)
Lemma parse_after_end_order (X Y : Z) (rest : string) :
  Y <= X -> parse_after_end X Y rest = ParseError.
Proof.
  intros Hle. unfold parse_after_end. cbv zeta.
  destruct (Z.geb_spec X Y) as [_|]; [|lia]. simpl.
  repeat case_match; reflexivity.
Qed.

Lemma parse_after_end_end (X Y : Z) :
  X < Y -> parse_after_end X Y "" = parse_finish "" X Y 1.
Proof.
  intros Hlt. unfold parse_after_end. simpl.
  destruct (Z.geb_spec X Y); [lia|reflexivity].
Qed.

Lemma parse_after_end_comma (X Y : Z) (rest : string) :
  X < Y ->
  parse_after_end X Y (String "," rest) = parse_finish (String "," rest) X Y 1.
Proof.
  intros Hlt. unfold parse_after_end. simpl.
  destruct (Z.geb_spec X Y); [lia|reflexivity].
Qed.

Lemma parse_after_end_step (X Y Z : Z) (sz rest : string) :
  signed_numeral sz Z -> is_int Z -> digit_at rest = false ->
  parse_after_end X Y (String ":" (sz ++ rest))
  = let pc := skip_spaces rest in
    let pc := if char_at "," pc then advance pc else pc in
    if (X >=? Y) || (Z <? 1) then ParseError else parse_finish pc X Y Z.
Proof.
  intros Hnum HZ Hrest. destruct (Hnum rest Hrest) as [Hsk Hstr].
  unfold parse_after_end. simpl. rewrite Hsk, Hstr, to_int_id by assumption.
  reflexivity.
Qed.

Lemma parse_finish_count (pc : string) (X Y Z : Z) :
  0 <= X -> X <= Y -> 1 <= Z -> Y + Z <= INT_MAX ->
  parse_finish pc X Y Z = Parsed pc X Y Z ((Y - X + Z) / Z).
Proof.
  intros HX Hle HZ Hmax. unfold parse_finish.
  rewrite parse_count_exact by assumption.
  replace (Y - X + Z) with ((Y - X) + 1 * Z) by lia.
  rewrite Z.div_add by lia. reflexivity.
Qed.

Lemma int_max_long (n : Z) : 0 <= n <= INT_MAX -> 0 <= n <= LONG_MAX.
Proof. unfold INT_MAX, LONG_MAX. lia. Qed.

Lemma is_int_long (n : Z) : is_int n -> LONG_MIN <= n <= LONG_MAX.
Proof. unfold is_int, INT_MIN, INT_MAX, LONG_MIN, LONG_MAX. lia. Qed.

Lemma int_max_is_int (n : Z) : 0 <= n <= INT_MAX -> is_int n.
Proof. unfold is_int, INT_MIN, INT_MAX. lia. Qed.

(** The segment forms on numerals of [int] values.  A dash-form segment
    X-Y or X-Y:Z (decimal numerals of [int] values, followed by anything
    that is not a digit) is answered -1 whenever X >= Y or Z < 1; the
    single-value forms X and X, succeed with end = start and step = 1;
    and every success returns count = ((end - start) + step) / step. *)
Theorem parse_subjob_index_segment_forms :
  (forall X Y rest,
      0 <= X <= INT_MAX -> 0 <= Y <= INT_MAX -> digit_at rest = false ->
      Y <= X ->
      parse_subjob_index (print_nat X ++ "-" ++ print_nat Y ++ rest) = ParseError)
  /\ (forall X Y Z rest,
      0 <= X <= INT_MAX -> 0 <= Y <= INT_MAX -> is_int Z ->
      digit_at rest = false ->
      Y <= X \/ Z < 1 ->
      parse_subjob_index
        (print_nat X ++ "-" ++ print_nat Y ++ ":" ++ sprintf_d Z ++ rest)
      = ParseError)
  /\ (forall X,
      0 <= X <= INT_MAX ->
      parse_subjob_index (print_nat X) = Parsed "" X X 1 1
      /\ forall rest,
           parse_subjob_index (print_nat X ++ "," ++ rest) = Parsed rest X X 1 1)
  /\ (forall pc ep start end_ step count,
      parse_subjob_index pc = Parsed ep start end_ step count ->
      count = Z.quot (int_add (int_sub end_ start) step) step
      /\ (0 <= start -> end_ + step <= INT_MAX ->
          count = (end_ - start + step) / step)).
Proof.
  split_and!.
  - intros X Y rest HX HY Hrest Hle.
    rewrite (parse_numeral _ X) by
      (first [apply print_nat_numeral, int_max_long | apply int_max_is_int | idtac];
       auto).
    change ("-" ++ print_nat Y ++ rest) with (String "-" (print_nat Y ++ rest)).
    rewrite (parse_after_start_dash X Y) by
      (first [apply print_nat_numeral, int_max_long | apply int_max_is_int | idtac];
       auto).
    apply parse_after_end_order. assumption.
  - intros X Y Z rest HX HY HZ Hrest Hbad.
    rewrite (parse_numeral _ X) by
      (first [apply print_nat_numeral, int_max_long | apply int_max_is_int | idtac];
       auto).
    change ("-" ++ print_nat Y ++ ":" ++ sprintf_d Z ++ rest)
      with (String "-" (print_nat Y ++ String ":" (sprintf_d Z ++ rest))).
    rewrite (parse_after_start_dash X Y) by
      (first [apply print_nat_numeral, int_max_long | apply int_max_is_int | idtac];
       auto).
    rewrite (parse_after_end_step X Y Z) by
      (first [apply sprintf_d_signed_numeral, is_int_long | idtac]; auto).
    cbv zeta.
    destruct (Z.geb_spec X Y); [reflexivity|].
    destruct (Z.ltb_spec Z 1); [reflexivity|lia].
  - intros X HX. split.
    + rewrite <- (string_app_empty_r (print_nat X)).
      rewrite (parse_numeral _ X) by
        (first [apply print_nat_numeral, int_max_long | apply int_max_is_int | idtac];
         auto).
      apply parse_after_start_end.
    + intros rest.
      rewrite (parse_numeral _ X) by
        (first [apply print_nat_numeral, int_max_long | apply int_max_is_int | idtac];
         auto).
      apply parse_after_start_comma.
  - intros pc ep start end_ step count Hp.
    destruct (parse_subjob_index_Parsed _ _ _ _ _ _ Hp)
      as (Hs & He & Hst & Hle & Hst1 & Hcount).
    split; [assumption|]. intros H0 Hmax. rewrite Hcount.
    rewrite parse_count_exact by assumption.
    replace (end_ - start + step) with ((end_ - start) + 1 * step) by lia.
    rewrite Z.div_add by lia. reflexivity.
Qed.

Lemma parse_subjob_index_segment_forms_witness :
  parse_subjob_index "5-2" = ParseError
  /\ parse_subjob_index "1-9:0" = ParseError
  /\ parse_subjob_index "7" = Parsed "" 7 7 1 1
  /\ parse_subjob_index "7,8" = Parsed "8" 7 7 1 1
  /\ 4 = (10 - 1 + 3) / 3.
Proof.
  destruct parse_subjob_index_segment_forms as (Hdash & Hstep & Hone & Hcount).
  split_and!.
  - apply (Hdash 5 2 ""); [unfold INT_MAX; lia|unfold INT_MAX; lia|reflexivity|lia].
  - apply (Hstep 1 9 0 "");
      [unfold INT_MAX; lia|unfold INT_MAX; lia
      |unfold is_int, INT_MIN, INT_MAX; lia|reflexivity|lia].
  - apply (Hone 7). unfold INT_MAX; lia.
  - apply (proj2 (Hone 7 ltac:(unfold INT_MAX; lia)) "8").
  - apply (proj2 (Hcount "1-10:3" "" 1 10 3 4 eq_refl));
      [lia|unfold INT_MAX; lia].
Defined.

(** ** Repeated parsing terminates *)

Lemma advance_length (pc : string) :
  (String.length (advance pc) <= String.length pc)%nat.
Proof. destruct pc; simpl; lia. Qed.

Lemma skip_spaces_length (pc : string) :
  (String.length (skip_spaces pc) <= String.length pc)%nat.
Proof.
  induction pc as [|c r IH]; simpl; [lia|].
  destruct (isspace c); simpl; lia.
Qed.

Lemma skip_spaces_commas_length (pc : string) :
  (String.length (skip_spaces_commas pc) <= String.length pc)%nat.
Proof.
  induction pc as [|c r IH]; simpl; [lia|].
  destruct (isspace c || Ascii.eqb c ","); simpl; lia.
Qed.

Lemma strtol_digits_length (pc : string) :
  forall acc v eptr,
  strtol_digits acc pc = (v, eptr) ->
  (String.length eptr <= String.length pc)%nat
  /\ (digit_at pc = true -> (String.length eptr < String.length pc)%nat).
Proof.
  induction pc as [|c r IH]; intros acc v eptr; simpl.
  - intros [= <- <-]. simpl. split; [lia|discriminate].
  - destruct (isdigit c).
    + intros H. destruct (IH _ _ _ H). split; [lia|]. intros _. lia.
    + intros [= <- <-]. split; [simpl; lia|discriminate].
Qed.

Lemma strtol_length (pc : string) (v : Z) (eptr : string) :
  strtol pc = (v, eptr) ->
  (String.length eptr <= String.length pc)%nat
  /\ (digit_at pc = true -> (String.length eptr < String.length pc)%nat).
Proof.
  unfold strtol.
  pose proof (skip_spaces_length pc) as Hsk.
  pose proof (advance_length (skip_spaces pc)) as Hadv.
  intros H.
  assert (digit_at pc = true -> skip_spaces pc = pc
            /\ char_at "-" pc = false /\ char_at "+" pc = false) as Hdig.
  { intros Hd. destruct (digit_at_facts pc Hd) as (? & _ & _ & _ & _ & _ & ? & ? & _).
    auto. }
  destruct (char_at "-" (skip_spaces pc)) eqn:Hminus.
  - destruct (digit_at (advance (skip_spaces pc))) eqn:Hd.
    + destruct (strtol_digits 0 (advance (skip_spaces pc))) as [v' e'] eqn:Hs.
      injection H as <- <-. destruct (strtol_digits_length _ _ _ _ Hs) as [Hle _].
      split; [lia|]. intros Hp. destruct (Hdig Hp) as (Heq & Hm & _).
      rewrite Heq in Hminus. congruence.
    + injection H as <- <-. split; [lia|]. intros Hp.
      destruct (Hdig Hp) as (Heq & Hm & _). rewrite Heq in Hminus. congruence.
  - destruct (char_at "+" (skip_spaces pc)) eqn:Hplus.
    + destruct (digit_at (advance (skip_spaces pc))) eqn:Hd.
      * destruct (strtol_digits 0 (advance (skip_spaces pc))) as [v' e'] eqn:Hs.
        injection H as <- <-. destruct (strtol_digits_length _ _ _ _ Hs) as [Hle _].
        split; [lia|]. intros Hp. destruct (Hdig Hp) as (Heq & _ & Hm).
        rewrite Heq in Hplus. congruence.
      * injection H as <- <-. split; [lia|]. intros Hp.
        destruct (Hdig Hp) as (Heq & _ & Hm). rewrite Heq in Hplus. congruence.
    + destruct (digit_at (skip_spaces pc)) eqn:Hd.
      * destruct (strtol_digits 0 (skip_spaces pc)) as [v' e'] eqn:Hs.
        injection H as <- <-.
        destruct (strtol_digits_length _ _ _ _ Hs) as [Hle Hlt].
        split; [lia|]. intros _. specialize (Hlt Hd). lia.
      * injection H as <- <-. split; [lia|]. intros Hp.
        destruct (Hdig Hp) as (Heq & _). rewrite Heq in Hd. congruence.
Qed.

Lemma parse_after_end_length (start end_ : Z) (eptr ep : string)
    (s e st c : Z) :
  parse_after_end start end_ eptr = Parsed ep s e st c ->
  (String.length ep <= String.length eptr)%nat.
Proof.
  unfold parse_after_end, parse_finish. cbv zeta.
  set (pc := if space_at eptr then advance eptr else eptr).
  assert (String.length pc <= String.length eptr)%nat as Hpc.
  { subst pc. pose proof (advance_length eptr). destruct (space_at eptr); lia. }
  destruct (at_nul pc || char_at "," pc || char_at "]" pc).
  - destruct (_ || _); [discriminate|]. intros [= <- _ _ _ _]. assumption.
  - destruct (negb (char_at ":" pc)); [discriminate|].
    destruct (strtol (skip_spaces (advance pc))) as [v e1] eqn:Hs.
    destruct (strtol_length _ _ _ Hs) as [Hle _].
    pose proof (skip_spaces_length (advance pc)).
    pose proof (advance_length pc).
    pose proof (skip_spaces_length e1).
    pose proof (advance_length (skip_spaces e1)).
    destruct (_ || _); [discriminate|]. intros [= <- _ _ _ _].
    destruct (char_at "," (skip_spaces e1)); lia.
Qed.

Lemma parse_after_start_length (start : Z) (eptr ep : string) (s e st c : Z) :
  parse_after_start start eptr = Parsed ep s e st c ->
  (String.length ep <= String.length eptr)%nat.
Proof.
  unfold parse_after_start, parse_finish. cbv zeta.
  pose proof (skip_spaces_length eptr).
  pose proof (advance_length (skip_spaces eptr)).
  destruct (_ || _ || _).
  - intros [= <- _ _ _ _]. destruct (char_at "," (skip_spaces eptr)); lia.
  - destruct (negb _); [discriminate|].
    destruct (strtol (advance (skip_spaces eptr))) as [v e1] eqn:Hs.
    destruct (strtol_length _ _ _ Hs) as [Hle _].
    intros Hp. apply parse_after_end_length in Hp. lia.
Qed.

(** Every successful call leaves a strictly shorter rest. *)
Lemma parse_subjob_index_consumes (pc ep : string) (s e st c : Z) :
  parse_subjob_index pc = Parsed ep s e st c ->
  (String.length ep < String.length pc)%nat.
Proof.
  rewrite parse_subjob_index_steps. cbv zeta.
  pose proof (skip_spaces_commas_length pc).
  destruct (_ || _); [discriminate|].
  destruct (digit_at (skip_spaces_commas pc)) eqn:Hd; [|discriminate]. simpl.
  destruct (strtol (skip_spaces_commas pc)) as [v e1] eqn:Hs.
  destruct (strtol_length _ _ _ Hs) as [_ Hlt]. specialize (Hlt Hd).
  intros Hp. apply parse_after_start_length in Hp. lia.
Qed.

Lemma segments_parse_segments (str : string) (segs : list (Z * Z * Z * Z))
    (r : parse_result) :
  segments str segs r ->
  forall fuel, (String.length str < fuel)%nat ->
  parse_segments fuel str = Some (segs, r).
Proof.
  induction 1 as [str r Hp Hr|str ep s e st c segs r Hp Hsegs IH]; intros fuel Hfuel.
  - destruct fuel as [|fuel]; simpl; rewrite Hp;
      destruct r; try reflexivity; exfalso; eapply Hr; reflexivity.
  - destruct fuel as [|fuel]; [lia|]. simpl. rewrite Hp.
    pose proof (parse_subjob_index_consumes _ _ _ _ _ _ Hp).
    rewrite IH by lia. reflexivity.
Qed.

Lemma segments_total (fuel : nat) :
  forall str, (String.length str < fuel)%nat ->
  exists segs r, segments str segs r.
Proof.
  induction fuel as [|fuel IH]; intros str Hlen; [lia|].
  destruct (parse_subjob_index str) as [ep s e st c|ep|] eqn:Hp.
  - pose proof (parse_subjob_index_consumes _ _ _ _ _ _ Hp).
    destruct (IH ep ltac:(lia)) as (segs & r & Hsegs).
    exists ((s, e, st, c) :: segs), r. eapply segments_more; eassumption.
  - exists [], (NoMore ep). apply segments_last; [assumption|discriminate].
  - exists [], ParseError. apply segments_last; [assumption|discriminate].
Qed.

(** Leading commas are skipped. *)
Lemma segments_comma (str : string) (segs : list (Z * Z * Z * Z))
    (r : parse_result) :
  segments str segs r -> segments (String "," str) segs r.
Proof.
  intros H. inversion H; subst.
  - apply segments_last; [reflexivity|assumption].
  - eapply segments_more; [|eassumption].
    match goal with Hp : parse_subjob_index str = _ |- _ => rewrite <- Hp end.
    reflexivity.
Qed.

(** ** Format, then Parse *)

Lemma indices_in_state_elem (state : job_state) (step : Z) (tbl : list ajtrk) :
  forall (i0 i : Z),
  i ∈ indices_in_state tbl state i0 step
  <-> exists (o : nat) (ent : ajtrk),
        tbl !! o = Some ent /\ trk_status ent = state
        /\ i = i0 + Z.of_nat o * step.
Proof.
  induction tbl as [|ent rest IH]; intros i0 i; simpl.
  - split; [intros H; inversion H|intros (o & e & H & _); discriminate].
  - rewrite elem_of_app, IH. split.
    + intros [Hhd|(o & e & Hl & Hs & Hi)].
      * destruct (decide (trk_status ent = state)); [|inversion Hhd].
        apply list_elem_of_singleton in Hhd. exists 0%nat, ent. simpl.
        split_and!; [reflexivity|assumption|lia].
      * exists (S o), e. simpl. split_and!; [assumption|assumption|lia].
    + intros ([|o] & e & Hl & Hs & Hi); simpl in Hl.
      * injection Hl as ->. left.
        destruct (decide (trk_status e = state)); [|contradiction].
        apply list_elem_of_singleton. lia.
      * right. exists o, e. split_and!; [assumption|assumption|lia].
Qed.

(** The loop over a range without overflow visits its indices in order. *)
Lemma range_indices_exact (step : Z) (n : nat) :
  1 <= step ->
  forall X Y : Z,
  INT_MIN <= X -> Y = X + Z.of_nat n * step -> Y + step <= INT_MAX ->
  range_indices (S n) X Y step
  = Some (map (fun k => X + Z.of_nat k * step) (seq 0 (S n))).
Proof.
  intros Hstep. induction n as [|n IH]; intros X Y HX HY Hmax.
  - simpl. destruct (Z.leb_spec X Y); [|lia].
    rewrite int_add_id by (unfold is_int, INT_MIN, INT_MAX in *; lia).
    destruct (Z.leb_spec (X + step) Y); [lia|]. simpl. do 2 f_equal. lia.
  - remember (S n) as m. simpl. destruct (Z.leb_spec X Y); [|nia].
    rewrite int_add_id by (unfold is_int, INT_MIN, INT_MAX in *; nia).
    subst m. rewrite (IH (X + step) Y) by lia.
    change (seq 0 (S (S n))) with (0%nat :: seq 1 (S n)).
    rewrite <- seq_shift, map_map.
    generalize (seq 0 (S n)). intros l. simpl. f_equal. f_equal; [lia|].
    apply map_ext. intros k. lia.
Qed.

Lemma joined_digit_at (s : string) : digit_at (joined s) = false.
Proof. destruct s; reflexivity. Qed.

Lemma parse_after_start_joined (X : Z) (s : string) :
  parse_after_start X (joined s) = Parsed s X X 1 1.
Proof.
  destruct s; [apply parse_after_start_end|apply parse_after_start_comma].
Qed.

Lemma parse_after_end_joined (X Y : Z) (s : string) :
  X < Y -> parse_after_end X Y (joined s) = parse_finish (joined s) X Y 1.
Proof.
  intros Hlt. destruct s; [apply parse_after_end_end|apply parse_after_end_comma];
    assumption.
Qed.

Lemma skip_joined (s : string) :
  (if char_at "," (skip_spaces (joined s))
   then advance (skip_spaces (joined s)) else skip_spaces (joined s)) = s.
Proof. destruct s; reflexivity. Qed.

Lemma segments_joined (s : string) (segs : list (Z * Z * Z * Z))
    (r : parse_result) :
  segments s segs r -> segments (joined s) segs r.
Proof. destruct s; [trivial|apply segments_comma]. Qed.

Lemma segment_indices_single (X : Z) :
  0 <= X -> X + 1 <= INT_MAX -> segment_indices (X, X, 1, 1) = Some [X].
Proof.
  intros H0 Hmax. unfold segment_indices.
  change (Z.to_nat 1) with 1%nat.
  rewrite (range_indices_exact 1 0) by (unfold INT_MIN; lia).
  simpl. do 2 f_equal. lia.
Qed.

Lemma segment_indices_range (X Y step : Z) (n : nat) :
  0 <= X -> 1 <= step -> Y = X + Z.of_nat n * step -> Y + step <= INT_MAX ->
  segment_indices (X, Y, step, (Y - X + step) / step)
  = Some (map (fun k => X + Z.of_nat k * step) (seq 0 (S n))).
Proof.
  intros H0 Hstep HY Hmax. unfold segment_indices.
  replace ((Y - X + step) / step) with (Z.of_nat (S n)).
  - rewrite Nat2Z.id. apply range_indices_exact; try assumption.
    unfold INT_MIN. lia.
  - subst Y. replace (X + Z.of_nat n * step - X + step)
      with (Z.of_nat (S n) * step) by lia.
    rewrite Z.div_mul by lia. reflexivity.
Qed.

Lemma segments_single (sx : string) (X : Z) (T : string)
    (segs : list (Z * Z * Z * Z)) (r : parse_result) :
  numeral sx X -> is_int X -> segments T segs r ->
  segments (sx ++ joined T) ((X, X, 1, 1) :: segs) r.
Proof.
  intros Hx HX Hsegs. eapply segments_more; [|exact Hsegs].
  rewrite (parse_numeral sx X) by auto using joined_digit_at.
  apply parse_after_start_joined.
Qed.

Lemma segments_pair (sx sy : string) (X Y : Z) (T : string)
    (segs : list (Z * Z * Z * Z)) (r : parse_result) :
  numeral sx X -> is_int X -> numeral sy Y -> is_int Y -> segments T segs r ->
  segments (sx ++ String "," (sy ++ joined T))
    ((X, X, 1, 1) :: (Y, Y, 1, 1) :: segs) r.
Proof.
  intros Hx HX Hy HY Hsegs.
  eapply segments_more; [|apply segments_single; eassumption].
  rewrite (parse_numeral sx X) by auto.
  apply parse_after_start_comma.
Qed.

Lemma segments_dash (sx sy : string) (X Y : Z) (T : string)
    (segs : list (Z * Z * Z * Z)) (r : parse_result) :
  numeral sx X -> numeral sy Y -> 0 <= X -> X < Y -> Y + 1 <= INT_MAX ->
  segments T segs r ->
  segments (sx ++ String "-" (sy ++ joined T))
    ((X, Y, 1, (Y - X + 1) / 1) :: segs) r.
Proof.
  intros Hx Hy H0 Hlt Hmax Hsegs.
  assert (is_int X /\ is_int Y) as [HX HY]
    by (unfold is_int, INT_MIN, INT_MAX in *; lia).
  eapply segments_more; [|apply segments_joined; exact Hsegs].
  rewrite (parse_numeral sx X) by auto.
  rewrite (parse_after_start_dash X Y) by auto using joined_digit_at.
  rewrite parse_after_end_joined by assumption.
  apply parse_finish_count; lia.
Qed.

Lemma segments_dash_step (sx sy sz : string) (X Y step : Z) (T : string)
    (segs : list (Z * Z * Z * Z)) (r : parse_result) :
  numeral sx X -> numeral sy Y -> signed_numeral sz step ->
  0 <= X -> X < Y -> 1 <= step -> Y + step <= INT_MAX ->
  segments T segs r ->
  segments (sx ++ String "-" (sy ++ String ":" (sz ++ joined T)))
    ((X, Y, step, (Y - X + step) / step) :: segs) r.
Proof.
  intros Hx Hy Hz H0 Hlt Hstep Hmax Hsegs.
  assert (is_int X /\ is_int Y /\ is_int step) as (HX & HY & HS)
    by (unfold is_int, INT_MIN, INT_MAX in *; lia).
  eapply segments_more; [|exact Hsegs].
  rewrite (parse_numeral sx X) by auto.
  rewrite (parse_after_start_dash X Y) by auto.
  rewrite (parse_after_end_step X Y step) by auto using joined_digit_at.
  cbv zeta. rewrite skip_joined.
  destruct (Z.geb_spec X Y); [lia|]. destruct (Z.ltb_spec step 1); [lia|].
  simpl. apply parse_finish_count; lia.
Qed.

Section RoundTrip.
Variables (t : ajtrkhd) (state : job_state).
Hypothesis Hwf : wf_table t.
Hypothesis Hmax : tkm_start t + tkm_ct t * tkm_step t <= INT_MAX.

Lemma offset_index_bounds (o : nat) :
  (o < length (tkm_tbl t))%nat ->
  0 <= offset_index t o
  /\ offset_index t o <= tkm_end t
  /\ SJ_TBLIDX_2_IDX t (Z.of_nat o) = offset_index t o.
Proof.
  intros Ho. pose proof (wf_len t Hwf) as Hlen.
  assert (0 <= Z.of_nat o < tkm_ct t) as Hrange by lia.
  pose proof (wf_offset_bounds t _ Hwf Hrange).
  pose proof (wf_start t Hwf).
  unfold offset_index. split_and!; try lia.
  apply SJ_TBLIDX_2_IDX_wf; assumption.
Qed.

Lemma in_table_ltb (o : nat) :
  (Z.of_nat o <? tkm_ct t) = bool_decide (o < length (tkm_tbl t))%nat.
Proof.
  pose proof (wf_len t Hwf) as Hlen.
  destruct (Z.ltb_spec (Z.of_nat o) (tkm_ct t)).
  - rewrite bool_decide_eq_true_2 by lia. reflexivity.
  - rewrite bool_decide_eq_false_2 by lia. reflexivity.
Qed.

Lemma status_is_true (o : nat) :
  status_is t o state = true ->
  exists ent, tkm_tbl t !! o = Some ent /\ trk_status ent = state
              /\ (o < length (tkm_tbl t))%nat.
Proof.
  unfold status_is. destruct (tkm_tbl t !! o) as [ent|] eqn:Hl; [|discriminate].
  intros Hb. apply bool_decide_eq_true in Hb. exists ent.
  split_and!; [reflexivity|assumption|]. eapply lookup_lt_Some; eassumption.
Qed.

Lemma cvt_range_loop_run (fuel first : nat) (pcomma : bool) (buf : string) :
  (first < length (tkm_tbl t))%nat ->
  status_is t first state = true ->
  cvt_range_loop (S fuel) t state first pcomma buf
  = cvt_range_loop fuel t state
      (S (cvt_range_run (Z.to_nat (tkm_ct t)) t state (S first) first)) true
      (buf ++ (if pcomma then "," else "")
           ++ run_text t first
                (cvt_range_run (Z.to_nat (tkm_ct t)) t state (S first) first)).
Proof.
  intros Hlt Hst. cbn [cvt_range_loop]. rewrite in_table_ltb.
  rewrite bool_decide_eq_true_2 by assumption. rewrite Hst. cbv zeta.
  set (last := cvt_range_run (Z.to_nat (tkm_ct t)) t state (S first) first).
  f_equal. unfold run_text.
  destruct pcomma, (S first <? last)%nat, (tkm_step t >? 1), (first <? last)%nat;
    rewrite ?string_app_assoc, ?string_app_empty_r; reflexivity.
Qed.

Lemma cvt_range_loop_skip (fuel first : nat) (pcomma : bool) (buf : string) :
  (first < length (tkm_tbl t))%nat ->
  status_is t first state = false ->
  cvt_range_loop (S fuel) t state first pcomma buf
  = cvt_range_loop fuel t state (S first) pcomma buf.
Proof.
  intros Hlt Hst. cbn [cvt_range_loop]. rewrite in_table_ltb.
  rewrite bool_decide_eq_true_2 by assumption. rewrite Hst. reflexivity.
Qed.

Lemma cvt_range_loop_done (fuel first : nat) (pcomma : bool) (buf : string) :
  (length (tkm_tbl t) <= first)%nat ->
  cvt_range_loop fuel t state first pcomma buf = buf.
Proof.
  intros Hge. destruct fuel; cbn [cvt_range_loop]; [reflexivity|].
  rewrite in_table_ltb. rewrite bool_decide_eq_false_2 by lia. reflexivity.
Qed.

(** The text written so far is only appended to. *)
Lemma cvt_range_loop_buf (fuel : nat) :
  forall (first : nat) (pcomma : bool) (buf : string),
  cvt_range_loop fuel t state first pcomma buf
  = buf ++ cvt_range_loop fuel t state first pcomma "".
Proof.
  induction fuel as [|fuel IH]; intros first pcomma buf.
  - simpl. rewrite string_app_empty_r. reflexivity.
  - destruct (le_lt_dec (length (tkm_tbl t)) first) as [Hge|Hlt].
    { rewrite !cvt_range_loop_done by assumption.
      rewrite string_app_empty_r. reflexivity. }
    destruct (status_is t first state) eqn:Hst.
    + rewrite !cvt_range_loop_run by assumption.
      rewrite IH. rewrite (IH _ _ ("" ++ _)).
      rewrite !string_app_assoc. reflexivity.
    + rewrite !cvt_range_loop_skip by assumption. apply IH.
Qed.

Lemma run_text_digit_at (first last : nat) (rest : string) :
  (first < length (tkm_tbl t))%nat ->
  digit_at (run_text t first last ++ rest) = true.
Proof.
  intros Hlt. destruct (offset_index_bounds first Hlt) as (H0 & _ & HSJ).
  unfold run_text. rewrite HSJ, sprintf_d_nonneg by assumption.
  rewrite string_app_assoc. apply print_nat_digit_at.
Qed.

(** Asked for a separating comma, the loop writes the same text after
    a comma, or nothing. *)
Lemma cvt_range_loop_comma (fuel : nat) :
  forall first : nat,
  cvt_range_loop fuel t state first true ""
  = joined (cvt_range_loop fuel t state first false "").
Proof.
  induction fuel as [|fuel IH]; intros first; [reflexivity|].
  destruct (le_lt_dec (length (tkm_tbl t)) first) as [Hge|Hlt].
  { rewrite !cvt_range_loop_done by assumption. reflexivity. }
  destruct (status_is t first state) eqn:Hst.
  - rewrite !cvt_range_loop_run by assumption.
    set (last := cvt_range_run (Z.to_nat (tkm_ct t)) t state (S first) first).
    rewrite cvt_range_loop_buf. rewrite (cvt_range_loop_buf _ _ _ ("" ++ "" ++ _)).
    set (rest := cvt_range_loop fuel t state (S last) true "").
    pose proof (run_text_digit_at first last rest Hlt) as Hd.
    simpl. unfold joined.
    destruct (run_text t first last ++ rest) as [|c r]; [discriminate|reflexivity].
  - rewrite !cvt_range_loop_skip by assumption. apply IH.
Qed.

(** The run that [cvt_range_run] finds consists of slots in the state. *)
Lemma cvt_range_run_spec (fuel : nat) :
  forall next last : nat,
  (last < next)%nat ->
  (last <= cvt_range_run fuel t state next last)%nat
  /\ forall o, (next <= o <= cvt_range_run fuel t state next last)%nat ->
       status_is t o state = true.
Proof.
  induction fuel as [|fuel IH]; intros next last Hlt; simpl.
  - split; [lia|]. intros o Ho. lia.
  - destruct ((Z.of_nat next <? tkm_ct t) && status_is t next state) eqn:Hc.
    + apply andb_true_iff in Hc. destruct Hc as [_ Hst].
      destruct (IH (S next) next ltac:(lia)) as [Hle Hall].
      split; [lia|]. intros o Ho.
      destruct (decide (o = next)) as [->|Hne]; [assumption|].
      apply Hall. lia.
    + split; [lia|]. intros o Ho. lia.
Qed.

Lemma indices_from_done (first : nat) :
  (length (tkm_tbl t) <= first)%nat -> indices_from t state first = [].
Proof. intros Hge. unfold indices_from. rewrite drop_ge by assumption. reflexivity. Qed.

Lemma offset_index_S (o : nat) :
  offset_index t (S o) = offset_index t o + tkm_step t.
Proof. unfold offset_index. lia. Qed.

Lemma indices_from_skip (first : nat) :
  (first < length (tkm_tbl t))%nat ->
  status_is t first state = false ->
  indices_from t state first = indices_from t state (S first).
Proof.
  intros Hlt Hst. unfold indices_from, status_is in *.
  destruct (lookup_lt_is_Some_2 _ _ Hlt) as [ent Hent]. rewrite Hent in Hst.
  apply bool_decide_eq_false in Hst.
  rewrite (drop_S _ _ _ Hent). simpl.
  destruct (decide (trk_status ent = state)); [contradiction|].
  rewrite offset_index_S. reflexivity.
Qed.

Lemma indices_from_take (first : nat) :
  status_is t first state = true ->
  indices_from t state first = offset_index t first :: indices_from t state (S first).
Proof.
  intros Hst. destruct (status_is_true _ Hst) as (ent & Hent & Hs & _).
  unfold indices_from. rewrite (drop_S _ _ _ Hent). simpl.
  destruct (decide (trk_status ent = state)); [|contradiction].
  rewrite offset_index_S. reflexivity.
Qed.

Lemma indices_from_run (n : nat) :
  forall first : nat,
  (forall o, (first <= o < first + n)%nat -> status_is t o state = true) ->
  indices_from t state first
  = (map (fun k => offset_index t first + Z.of_nat k * tkm_step t) (seq 0 n)
     ++ indices_from t state (first + n))%list.
Proof.
  induction n as [|n IH]; intros first Hall.
  - simpl. rewrite Nat.add_0_r. reflexivity.
  - rewrite indices_from_take by (apply Hall; lia).
    rewrite (IH (S first)) by (intros o Ho; apply Hall; lia).
    replace (S first + n)%nat with (first + S n)%nat by lia.
    change (seq 0 (S n)) with (0%nat :: seq 1 n).
    rewrite <- seq_shift, map_cons, map_map. simpl app. f_equal; [lia|].
    f_equal. apply map_ext. intros k. rewrite offset_index_S. lia.
Qed.

Lemma segments_empty : segments "" [] (NoMore "").
Proof. apply segments_last; [reflexivity|discriminate]. Qed.

(** The text written from offset [first] on parses, segment by segment,
    to the indices of the slots in the state from [first] on. *)
Lemma cvt_range_loop_segments (fuel : nat) :
  forall first : nat,
  (length (tkm_tbl t) <= fuel + first)%nat ->
  exists segs,
    segments (cvt_range_loop fuel t state first false "") segs (NoMore "")
    /\ segments_indices segs = Some (indices_from t state first).
Proof.
  induction fuel as [|fuel IH]; intros first Hfuel.
  { exists []. rewrite indices_from_done by lia.
    split; [apply segments_empty|reflexivity]. }
  destruct (le_lt_dec (length (tkm_tbl t)) first) as [Hge|Hlt].
  { exists []. rewrite cvt_range_loop_done, indices_from_done by assumption.
    split; [apply segments_empty|reflexivity]. }
  destruct (status_is t first state) eqn:Hst.
  2: { rewrite cvt_range_loop_skip, indices_from_skip by assumption.
       apply IH. lia. }
  rewrite cvt_range_loop_run by assumption.
  set (last := cvt_range_run (Z.to_nat (tkm_ct t)) t state (S first) first).
  destruct (cvt_range_run_spec (Z.to_nat (tkm_ct t)) (S first) first ltac:(lia))
    as [Hle Hrun]. fold last in Hle, Hrun.
  assert (forall o, (first <= o <= last)%nat -> status_is t o state = true) as Hall.
  { intros o Ho. destruct (decide (o = first)) as [->|]; [assumption|].
    apply Hrun. lia. }
  assert (last < length (tkm_tbl t))%nat as Hlast.
  { destruct (status_is_true last (Hall last ltac:(lia))) as (_ & _ & _ & H). exact H. }
  destruct (IH (S last) ltac:(lia)) as (segs & Hsegs & Hidx).
  rewrite cvt_range_loop_buf, cvt_range_loop_comma.
  set (T := cvt_range_loop fuel t state (S last) false "") in *.
  destruct (offset_index_bounds first Hlt) as (HX0 & HXe & HSJX).
  destruct (offset_index_bounds last Hlast) as (HY0 & HYe & HSJY).
  pose proof (wf_step t Hwf) as Hstep.
  assert (offset_index t last
          = offset_index t first + Z.of_nat (last - first) * tkm_step t) as HY.
  { unfold offset_index. nia. }
  assert (offset_index t first <= offset_index t last
          /\ offset_index t last + tkm_step t <= INT_MAX) as [HXY HYmax].
  { pose proof (wf_len t Hwf) as Hlen. unfold offset_index in *. split; nia. }
  assert (0 <= offset_index t first <= LONG_MAX
          /\ 0 <= offset_index t last <= LONG_MAX
          /\ LONG_MIN <= tkm_step t <= LONG_MAX) as (HXl & HYl & HSl)
    by (unfold INT_MAX, LONG_MIN, LONG_MAX in *; lia).
  assert (is_int (offset_index t first) /\ is_int (offset_index t last))
    as [HXi HYi] by (unfold is_int, INT_MIN, INT_MAX in *; lia).
  rewrite (indices_from_run (S (last - first)) first)
    by (intros o Ho; apply Hall; lia).
  replace (first + S (last - first))%nat with (S last) by lia.
  unfold run_text. rewrite HSJX, HSJY.
  rewrite !sprintf_d_nonneg by lia.
  destruct (Nat.ltb_spec (S first) last) as [Hlong|Hshort].
  - destruct (Z.gtb_spec (tkm_step t) 1) as [Hbig|Hone].
    + rewrite !string_app_assoc. cbn [append].
      exists ((offset_index t first, offset_index t last, tkm_step t,
               (offset_index t last - offset_index t first + tkm_step t)
               / tkm_step t) :: segs).
      split.
      * apply segments_dash_step;
          [apply print_nat_numeral; assumption
          |apply print_nat_numeral; assumption
          |apply print_nat_signed_numeral; lia
          |lia|nia|lia|lia|exact Hsegs].
      * cbn [segments_indices]. rewrite Hidx.
        rewrite (segment_indices_range _ _ _ (last - first)) by (assumption || lia).
        reflexivity.
    + assert (tkm_step t = 1) as Hs1 by lia.
      rewrite !string_app_assoc. cbn [append].
      exists ((offset_index t first, offset_index t last, 1,
               (offset_index t last - offset_index t first + 1) / 1) :: segs).
      split.
      * apply segments_dash;
          [apply print_nat_numeral; assumption
          |apply print_nat_numeral; assumption
          |lia|nia|lia|exact Hsegs].
      * cbn [segments_indices]. rewrite Hidx. rewrite Hs1 in *.
        rewrite (segment_indices_range _ _ 1 (last - first)) by (assumption || lia).
        reflexivity.
  - destruct (Nat.ltb_spec first last) as [Hpair|Hsingle].
    + assert (last = S first) as Hl by lia.
      rewrite !string_app_assoc. cbn [append].
      exists ((offset_index t first, offset_index t first, 1, 1)
              :: (offset_index t last, offset_index t last, 1, 1) :: segs).
      split.
      * apply segments_pair;
          [apply print_nat_numeral; assumption|assumption
          |apply print_nat_numeral; assumption|assumption|exact Hsegs].
      * cbn [segments_indices].
        rewrite !segment_indices_single by lia. rewrite Hidx.
        rewrite Hl in *. replace (S first - first)%nat with 1%nat by lia.
        simpl. do 3 f_equal; [lia|]. f_equal. rewrite offset_index_S. lia.
    + assert (last = first) as Hl by lia.
      rewrite !string_app_assoc. cbn [append].
      exists ((offset_index t first, offset_index t first, 1, 1) :: segs).
      split.
      * apply segments_single;
          [apply print_nat_numeral; assumption|assumption|exact Hsegs].
      * cbn [segments_indices].
        rewrite !segment_indices_single by lia. rewrite Hidx.
        rewrite Hl. replace (first - first)%nat with 0%nat by lia.
        simpl. do 3 f_equal. lia.
Qed.

(** The fuel does not cut the loops short: the run found is maximal,
    and any number of turns that covers the table gives the same text. *)
Lemma cvt_range_run_maximal (fuel : nat) :
  forall next last : nat,
  next = S last ->
  (length (tkm_tbl t) <= fuel + next)%nat ->
  (Z.of_nat (S (cvt_range_run fuel t state next last)) <? tkm_ct t)
  && status_is t (S (cvt_range_run fuel t state next last)) state = false.
Proof.
  induction fuel as [|fuel IH]; intros next last Hnext Hfuel; simpl.
  - subst next. rewrite in_table_ltb, bool_decide_eq_false_2 by lia. reflexivity.
  - destruct ((Z.of_nat next <? tkm_ct t) && status_is t next state) eqn:Hc.
    + apply IH; [reflexivity|lia].
    + subst next. exact Hc.
Qed.

Lemma cvt_range_loop_fuel (fuel : nat) :
  forall (fuel' first : nat) (pcomma : bool) (buf : string),
  (length (tkm_tbl t) <= fuel + first)%nat ->
  (length (tkm_tbl t) <= fuel' + first)%nat ->
  cvt_range_loop fuel t state first pcomma buf
  = cvt_range_loop fuel' t state first pcomma buf.
Proof.
  induction fuel as [|fuel IH]; intros fuel' first pcomma buf Hf Hf'.
  - rewrite !cvt_range_loop_done by lia. reflexivity.
  - destruct (le_lt_dec (length (tkm_tbl t)) first) as [Hge|Hlt].
    { rewrite !cvt_range_loop_done by assumption. reflexivity. }
    destruct fuel' as [|fuel']; [lia|].
    destruct (status_is t first state) eqn:Hst.
    + rewrite !cvt_range_loop_run by assumption.
      destruct (cvt_range_run_spec (Z.to_nat (tkm_ct t)) (S first) first ltac:(lia))
        as [Hle _].
      apply IH; lia.
    + rewrite !cvt_range_loop_skip by assumption. apply IH; lia.
Qed.

End RoundTrip.

(** ** C9: the text for an empty match *)

Lemma cvt_range_loop_no_match (t : ajtrkhd) (state : job_state) (fuel : nat) :
  (forall o, status_is t o state = false) ->
  forall (first : nat) (pcomma : bool) (buf : string),
  cvt_range_loop fuel t state first pcomma buf = buf.
Proof.
  intros Hnone. induction fuel as [|fuel IH]; intros first pcomma buf; simpl;
    [reflexivity|].
  destruct (Z.of_nat first <? tkm_ct t); [|reflexivity].
  rewrite Hnone. apply IH.
Qed.

Lemma status_is_no_match (t : ajtrkhd) (state : job_state) :
  Forall (fun ent => trk_status ent <> state) (tkm_tbl t) ->
  forall o, status_is t o state = false.
Proof.
  intros Hall o. unfold status_is.
  destruct (tkm_tbl t !! o) as [ent|] eqn:Hl; [|reflexivity].
  apply bool_decide_eq_false. eapply Forall_lookup_1 in Hall; eassumption.
Qed.

(** The text that [update_array_indices_remaining_attr] stores. *)
Lemma update_array_indices_remaining_text `{hdr : job_h} (parent : job)
    (t : ajtrkhd) :
  ji_ajtrk parent = Some t ->
  Z.land (tkm_flags t) TKMFLG_REVAL_IND_REMAINING <> 0 ->
  at_array_indices_remaining (update_array_indices_remaining_attr parent)
  = Some match cvt_range parent JOB_STATE_QUEUED with
         | None => "-"
         | Some str => if at_nul str then "-" else str
         end.
Proof.
  intros Ht Hflag. unfold update_array_indices_remaining_attr. rewrite Ht.
  destruct (Z.eqb_spec (Z.land (tkm_flags t) TKMFLG_REVAL_IND_REMAINING) 0);
    [contradiction|].
  simpl. unfold update_subjob_state_ct. simpl. rewrite Ht. reflexivity.
Qed.

(** C9 as stated fails: for the table of "1-10:3", all Queued, and the
    state Held, which no slot is in, [cvt_range] returns the empty
    string, not "-". *)
Lemma cvt_range_sentinel_counterexample :
  ~ (forall (pjob : job) (t : ajtrkhd) (state : job_state),
       ji_ajtrk pjob = Some t ->
       Forall (fun ent => trk_status ent <> state) (tkm_tbl t) ->
       cvt_range pjob state = Some "-").
Proof.
  intros H.
  specialize (H (sample_job (Some sample_tbl)) sample_tbl JOB_STATE_HELD eq_refl).
  assert (cvt_range (sample_job (Some sample_tbl)) JOB_STATE_HELD = Some "") as He
    by reflexivity.
  rewrite H in He; [discriminate|].
  repeat constructor; discriminate.
Qed.

(** C9, amended.  For a state that no slot is in, [cvt_range] returns
    the empty string.  [update_array_indices_remaining_attr], on a table
    marked for re-evaluation, stores "-" in array_indices_remaining when
    no slot is Queued, and never stores an empty text.  On "-",
    [parse_subjob_index] answers -1, which ends the loop of
    [fixup_arrayindicies] with no slot queued again. *)
Theorem cvt_range_empty_match `{hdr : job_h} :
  (forall (pjob : job) (t : ajtrkhd) (state : job_state),
      ji_ajtrk pjob = Some t ->
      Forall (fun ent => trk_status ent <> state) (tkm_tbl t) ->
      cvt_range pjob state = Some "")
  /\ (forall (parent : job) (t : ajtrkhd),
      ji_ajtrk parent = Some t ->
      Z.land (tkm_flags t) TKMFLG_REVAL_IND_REMAINING <> 0 ->
      (Forall (fun ent => trk_status ent <> JOB_STATE_QUEUED) (tkm_tbl t) ->
       at_array_indices_remaining (update_array_indices_remaining_attr parent)
       = Some "-")
      /\ exists text,
           at_array_indices_remaining (update_array_indices_remaining_attr parent)
           = Some text
           /\ text <> "")
  /\ parse_subjob_index "-" = ParseError
  /\ (forall (fuel : nat) (pjob : job), fixup_loop (S fuel) "-" pjob = Some pjob).
Proof.
  split_and!.
  - intros pjob t state Ht Hall. unfold cvt_range. rewrite Ht.
    rewrite cvt_range_loop_no_match by (apply status_is_no_match; assumption).
    reflexivity.
  - intros parent t Ht Hflag.
    rewrite (update_array_indices_remaining_text parent t Ht Hflag).
    unfold cvt_range. rewrite Ht. split.
    + intros Hall.
      rewrite cvt_range_loop_no_match by (apply status_is_no_match; assumption).
      reflexivity.
    + destruct (cvt_range_loop _ _ _ _ _ _) as [|c r]; simpl;
        eexists; (split; [reflexivity|discriminate]).
  - reflexivity.
  - intros fuel pjob. reflexivity.
Qed.

Lemma cvt_range_empty_match_witness :
  cvt_range (sample_job (Some sample_tbl)) JOB_STATE_HELD = Some ""
  /\ at_array_indices_remaining
       (@update_array_indices_remaining_attr sample_job_h expired_job)
     = Some "-".
Proof.
  destruct (@cvt_range_empty_match sample_job_h) as (Hempty & Hattr & _ & _).
  split.
  - apply (Hempty _ sample_tbl); [reflexivity|]. repeat constructor; discriminate.
  - apply (Hattr expired_job expired_tbl).
    + vm_compute. reflexivity.
    + vm_compute. discriminate.
    + vm_compute. repeat constructor; discriminate.
Defined.

(** ** C10: the qmove fix-up *)

Lemma wf_table_same_shape (t t' : ajtrkhd) :
  wf_table t -> same_shape t t' -> table_ok t' -> wf_table t'.
Proof.
  intros [H1 H2 H3 H4 H5 H6] (Hc & Hs & He & Hst) Hok.
  split; rewrite ?Hc, ?Hs, ?He, ?Hst; try assumption.
  rewrite <- Hc. apply (ok_len t' Hok).
Qed.

Section Fixup.
Context `{hdr : job_h}.

Lemma set_subjob_tblstate_status (parent : job) (t : ajtrkhd) (offset : Z)
    (newstate : job_state) :
  ji_ajtrk parent = Some t ->
  table_ok t ->
  0 <= offset < tkm_ct t ->
  exists parent' t',
    set_subjob_tblstate parent offset newstate = Some parent'
    /\ ji_ajtrk parent' = Some t'
    /\ table_ok t' /\ same_shape t t'
    /\ forall o, status_at t' o
                 = if decide (o = offset) then Some newstate else status_at t o.
Proof.
  intros Ht Hok Hoff.
  destruct (tbl_get_in_range t offset) as [ent Hent].
  { rewrite (ok_len t Hok). assumption. }
  destruct (decide (trk_status ent = newstate)) as [Heq|Hdiff].
  - exists parent, t. unfold set_subjob_tblstate.
    destruct (Z.eqb_spec offset (-1)); [lia|].
    rewrite Ht, Hent. simpl.
    destruct (decide (trk_status ent = newstate)); [|contradiction].
    split_and!; try done. intros o. destruct (decide (o = offset)) as [->|]; [|reflexivity].
    unfold status_at. rewrite Hent. simpl. congruence.
  - destruct (set_subjob_tblstate_step parent t offset ent newstate Ht Hent Hdiff Hok)
      as (p' & t' & Hset & Ht' & _ & _ & _ & Hnew & Hother & H1 & H2 & H3 & H4 & Hok').
    exists p', t'. split_and!; try done.
    intros o. unfold status_at. destruct (decide (o = offset)) as [->|Hne].
    + rewrite Hnew. reflexivity.
    + rewrite (Hother o Hne). reflexivity.
Qed.

Lemma same_shape_refl (t : ajtrkhd) : same_shape t t.
Proof. repeat split. Qed.

Lemma same_shape_trans (t1 t2 t3 : ajtrkhd) :
  same_shape t1 t2 -> same_shape t2 t3 -> same_shape t1 t3.
Proof. unfold same_shape. intuition congruence. Qed.

(** The first loop: every slot from [i] on is Expired afterwards. *)
Lemma expire_loop_spec (fuel : nat) :
  forall (i : Z) (pjob : job) (t : ajtrkhd),
  ji_ajtrk pjob = Some t -> table_ok t ->
  0 <= i -> i + Z.of_nat fuel = tkm_ct t ->
  exists pjob' t',
    expire_loop fuel i pjob = Some pjob'
    /\ ji_ajtrk pjob' = Some t'
    /\ table_ok t' /\ same_shape t t'
    /\ forall o, status_at t' o
                 = if decide (i <= o < tkm_ct t) then Some JOB_STATE_EXPIRED
                   else status_at t o.
Proof.
  induction fuel as [|fuel IH]; intros i pjob t Ht Hok Hi Hsum.
  - exists pjob, t. simpl.
    split_and!; [reflexivity|assumption|assumption|apply same_shape_refl|].
    intros o. destruct (decide (i <= o < tkm_ct t)); [lia|reflexivity].
  - destruct (set_subjob_tblstate_status pjob t i JOB_STATE_EXPIRED Ht Hok ltac:(lia))
      as (p1 & t1 & Hset & Ht1 & Hok1 & Hsh1 & Hst1).
    destruct (IH (i + 1) p1 t1 Ht1 Hok1 ltac:(lia)) as (p2 & t2 & Hrun & Ht2 & Hok2 & Hsh2 & Hst2).
    { destruct Hsh1 as (-> & _). lia. }
    exists p2, t2. simpl. rewrite Hset. simpl. rewrite Hrun.
    split_and!;
      [reflexivity|assumption|assumption|eapply same_shape_trans; eassumption|].
    intros o. rewrite Hst2, Hst1. destruct Hsh1 as (Hc & _). rewrite Hc.
    destruct (decide (i + 1 <= o < tkm_ct t)), (decide (i <= o < tkm_ct t)),
      (decide (o = i)); try reflexivity; lia.
Qed.

(** The loop over a range queues the indices the range stands for. *)
Lemma requeue_loop_requeue_all (fuel : nat) :
  forall (i end_ step : Z) (l : list Z) (pjob : job),
  range_indices fuel i end_ step = Some l ->
  requeue_loop fuel i end_ step pjob = requeue_all l pjob.
Proof.
  induction fuel as [|fuel IH]; intros i end_ step l pjob; simpl.
  - destruct (i <=? end_); [discriminate|]. intros [= <-]. reflexivity.
  - destruct (i <=? end_); [|intros [= <-]; reflexivity].
    destruct (range_indices fuel (int_add i step) end_ step) as [l'|] eqn:Hl';
      simpl; [|discriminate].
    intros [= <-]. simpl.
    destruct (set_subjob_tblstate pjob _ _); simpl; [|reflexivity].
    apply IH. assumption.
Qed.

Lemma requeue_all_app (l1 l2 : list Z) (pjob : job) :
  requeue_all (l1 ++ l2) pjob = requeue_all l1 pjob ≫= requeue_all l2.
Proof.
  revert pjob. induction l1 as [|i l1 IH]; intros pjob; simpl; [reflexivity|].
  destruct (set_subjob_tblstate pjob _ _); simpl; [apply IH|reflexivity].
Qed.

(** The loop over the text queues the indices the text stands for. *)
Lemma fixup_loop_requeue_all (fuel : nat) :
  forall (str : string) (segs : list (Z * Z * Z * Z)) (last : parse_result)
         (l : list Z) (pjob : job),
  parse_segments fuel str = Some (segs, last) ->
  segments_indices segs = Some l ->
  fixup_loop fuel str pjob = requeue_all l pjob.
Proof.
  induction fuel as [|fuel IH]; intros str segs last l pjob; simpl.
  - destruct (parse_subjob_index str); try discriminate;
      intros [= <- <-] [= <-]; reflexivity.
  - destruct (parse_subjob_index str) as [ep s e st c|ep|];
      try (intros [= <- <-] [= <-]; reflexivity).
    destruct (parse_segments fuel ep) as [[segs' last']|] eqn:Hrest; simpl;
      [|discriminate].
    intros [= <- <-]. simpl.
    destruct (range_indices (Z.to_nat c) s e st) as [l1|] eqn:Hl1; simpl;
      [|discriminate].
    destruct (segments_indices segs') as [l2|] eqn:Hl2; simpl; [|discriminate].
    intros [= <-]. rewrite requeue_all_app.
    rewrite (requeue_loop_requeue_all _ _ _ _ _ pjob Hl1).
    destruct (requeue_all l1 pjob) as [p1|]; simpl; [|reflexivity].
    eapply IH; eassumption.
Qed.

End Fixup.

Section FixupSpec.
Context `{hdr : job_h}.
Variable t0 : ajtrkhd.
Hypothesis Hwf0 : wf_table t0.

Lemma SJ_TBLIDX_2_IDX_same_shape (t : ajtrkhd) (o : Z) :
  same_shape t0 t -> SJ_TBLIDX_2_IDX t o = SJ_TBLIDX_2_IDX t0 o.
Proof. intros (_ & Hs & _ & Hst). unfold SJ_TBLIDX_2_IDX. rewrite Hs, Hst. reflexivity. Qed.

Lemma queued_if_elem (x : Z) (A B : list Z) :
  (x ∈ A <-> x ∈ B) ->
  (if decide (x ∈ A) then JOB_STATE_QUEUED else JOB_STATE_EXPIRED)
  = (if decide (x ∈ B) then JOB_STATE_QUEUED else JOB_STATE_EXPIRED).
Proof. intros H. destruct (decide (x ∈ A)), (decide (x ∈ B)); tauto. Qed.

(** Queuing the indices of [l] one after the other: a slot is Queued
    afterwards exactly if its index was among them or among those
    queued before. *)
Lemma requeue_all_spec (l : list Z) :
  forall (done : list Z) (pjob : job) (t : ajtrkhd),
  ji_ajtrk pjob = Some t -> table_ok t -> same_shape t0 t ->
  (forall o, 0 <= o < tkm_ct t0 ->
     status_at t o
     = Some (if decide (SJ_TBLIDX_2_IDX t0 o ∈ done)
             then JOB_STATE_QUEUED else JOB_STATE_EXPIRED)) ->
  exists pjob' t',
    requeue_all l pjob = Some pjob'
    /\ ji_ajtrk pjob' = Some t'
    /\ table_ok t' /\ same_shape t0 t'
    /\ forall o, 0 <= o < tkm_ct t0 ->
         status_at t' o
         = Some (if decide (SJ_TBLIDX_2_IDX t0 o ∈ (done ++ l)%list)
                 then JOB_STATE_QUEUED else JOB_STATE_EXPIRED).
Proof.
  induction l as [|i l IH]; intros done pjob t Ht Hok Hsh Hst.
  - exists pjob, t. rewrite app_nil_r. simpl. split_and!; try done.
  - pose proof (wf_table_same_shape _ _ Hwf0 Hsh Hok) as Hwf.
    assert (tkm_ct t = tkm_ct t0) as Hct by apply Hsh.
    replace (done ++ i :: l)%list with ((done ++ [i]) ++ l)%list
      by (rewrite <- app_assoc; reflexivity).
    destruct (Z.eq_dec (numindex_to_offset pjob i) (-1)) as [Hnone|Hfound].
    + simpl. rewrite Hnone. unfold set_subjob_tblstate at 1. simpl.
      apply (IH (done ++ [i])%list pjob t Ht Hok Hsh).
      intros o Ho. rewrite (Hst o Ho). f_equal. apply queued_if_elem.
      rewrite elem_of_app, list_elem_of_singleton.
      split; [auto|]. intros [Hin|Heq]; [assumption|].
      exfalso.
      pose proof (numindex_to_offset_of_offset pjob t o Ht Hwf ltac:(lia)) as Hback.
      rewrite (SJ_TBLIDX_2_IDX_same_shape t o Hsh), Heq, Hnone in Hback. lia.
    + destruct (numindex_to_offset_sound pjob t i _ Ht Hwf eq_refl Hfound)
        as [Hrange Hi].
      destruct (set_subjob_tblstate_status pjob t (numindex_to_offset pjob i)
                  JOB_STATE_QUEUED Ht Hok Hrange)
        as (p1 & t1 & Hset & Ht1 & Hok1 & Hsh1 & Hst1).
      simpl. rewrite Hset. simpl.
      apply (IH (done ++ [i])%list p1 t1 Ht1 Hok1).
      { eapply same_shape_trans; eassumption. }
      intros o Ho. rewrite Hst1.
      assert (SJ_TBLIDX_2_IDX t0 o = tkm_start t + o * tkm_step t) as HSJ.
      { rewrite <- (SJ_TBLIDX_2_IDX_same_shape t o Hsh).
        apply SJ_TBLIDX_2_IDX_wf; [assumption|lia]. }
      pose proof (wf_step t Hwf) as Hstep.
      destruct (decide (o = numindex_to_offset pjob i)) as [Heq|Hne].
      * f_equal. destruct (decide (SJ_TBLIDX_2_IDX t0 o ∈ (done ++ [i])%list))
          as [|Hnot]; [reflexivity|].
        exfalso. apply Hnot. rewrite elem_of_app, list_elem_of_singleton.
        right. rewrite HSJ, Heq. symmetry. exact Hi.
      * rewrite (Hst o Ho). f_equal. apply queued_if_elem.
        rewrite elem_of_app, list_elem_of_singleton.
        split; [auto|]. intros [Hin|Heq]; [assumption|].
        exfalso. rewrite HSJ in Heq. rewrite Hi in Heq at 1. nia.
Qed.

End FixupSpec.

(** C10.  On an array job with a well-formed table that satisfies the
    histogram invariant (and not the case of a job created here, mode
    ATR_ACTION_NEW with JOB_SVFLG_HERE), for a remaining-indices text
    whose ranges expand without overflow, [fixup_arrayindicies] answers
    PBSE_NONE; afterwards a slot is Queued if its external index is
    among the indices the text parses to and Expired otherwise (indices
    that map to no offset change nothing), and the histogram invariant
    holds again. *)
Theorem fixup_arrayindicies_requeues `{hdr : job_h} (pattr : string)
    (pjob : job) (t : ajtrkhd) (mode : atr_action)
    (indices : list Z) (last : parse_result) :
  ji_ajtrk pjob = Some t ->
  wf_table t ->
  table_ok t ->
  Z.land (ji_svrflags pjob) JOB_SVFLG_ArrayJob <> 0 ->
  Z.land (ji_svrflags pjob) JOB_SVFLG_HERE = 0 \/ mode <> ATR_ACTION_NEW ->
  parse_indices pattr = Some (indices, last) ->
  exists pjob' t',
    fixup_arrayindicies pattr pjob mode = Some (PBSE_NONE, pjob')
    /\ ji_ajtrk pjob' = Some t'
    /\ same_shape t t'
    /\ Z.of_nat (length (tkm_tbl t')) = tkm_ct t
    /\ (forall s, tkm_subjsct t' s = count_state s (tkm_tbl t'))
    /\ forall o, 0 <= o < tkm_ct t ->
         status_at t' o
         = Some (if decide (SJ_TBLIDX_2_IDX t o ∈ indices)
                 then JOB_STATE_QUEUED else JOB_STATE_EXPIRED).
Proof.
  intros Ht Hwf Hok Harray Hhere Hparse.
  unfold parse_indices in Hparse.
  destruct (parse_segments (S (String.length pattr)) pattr) as [[segs last']|] eqn:Hsegs;
    simpl in Hparse; [|discriminate].
  destruct (segments_indices segs) as [l|] eqn:Hl; simpl in Hparse; [|discriminate].
  injection Hparse as -> ->.
  pose proof (wf_ct_pos t Hwf) as Hpos.
  destruct (expire_loop_spec (Z.to_nat (tkm_ct t)) 0 pjob t Ht Hok ltac:(lia) ltac:(lia))
    as (p1 & t1 & Hexp & Ht1 & Hok1 & Hsh1 & Hst1).
  destruct (requeue_all_spec t Hwf indices [] p1 t1 Ht1 Hok1 Hsh1)
    as (p2 & t2 & Hreq & Ht2 & Hok2 & Hsh2 & Hst2).
  { intros o Ho. rewrite Hst1. destruct (decide (0 <= o < tkm_ct t)); [|lia].
    destruct (decide (SJ_TBLIDX_2_IDX t o ∈ [])) as [Hin|]; [inversion Hin|reflexivity]. }
  exists p2, t2. split_and!.
  - unfold fixup_arrayindicies. rewrite Ht.
    destruct (Z.eqb_spec (Z.land (ji_svrflags pjob) JOB_SVFLG_ArrayJob) 0);
      [contradiction|].
    assert (negb (Z.land (ji_svrflags pjob) JOB_SVFLG_HERE =? 0)
            && bool_decide (mode = ATR_ACTION_NEW) = false) as ->.
    { destruct Hhere as [->|Hmode]; [reflexivity|].
      rewrite (bool_decide_eq_false_2 _ Hmode). apply andb_false_r. }
    rewrite Hexp. cbn [mbind option_bind].
    rewrite (fixup_loop_requeue_all _ _ _ _ _ p1 Hsegs Hl), Hreq. reflexivity.
  - assumption.
  - assumption.
  - rewrite (ok_len t2 Hok2). apply Hsh2.
  - apply (ok_hist t2 Hok2).
  - exact Hst2.
Qed.

Lemma sample_tbl_ok : table_ok sample_tbl.
Proof.
  apply (@mk_subjob_index_tbl_queued_ok sample_job_h sample_env "1-10:3"
           ATR_ACTION_NEW).
  vm_compute. reflexivity.
Qed.

Lemma fixup_arrayindicies_requeues_witness :
  exists pjob' t',
    @fixup_arrayindicies sample_job_h "4-10:3,2" (sample_job (Some sample_tbl))
      ATR_ACTION_ALTER = Some (PBSE_NONE, pjob')
    /\ ji_ajtrk pjob' = Some t'
    /\ status_at t' 0 = Some JOB_STATE_EXPIRED
    /\ status_at t' 1 = Some JOB_STATE_QUEUED
    /\ forall s, tkm_subjsct t' s = count_state s (tkm_tbl t').
Proof.
  destruct (@fixup_arrayindicies_requeues sample_job_h "4-10:3,2"
              (sample_job (Some sample_tbl)) sample_tbl ATR_ACTION_ALTER
              [4; 7; 10; 2] (NoMore ""))
    as (p' & t' & Hfix & Ht' & _ & _ & Hhist & Hst).
  - reflexivity.
  - exact sample_tbl_wf.
  - exact sample_tbl_ok.
  - discriminate.
  - left. reflexivity.
  - vm_compute. reflexivity.
  - exists p', t'. split_and!; [exact Hfix|exact Ht'| | |exact Hhist].
    + apply (Hst 0). simpl. lia.
    + apply (Hst 1). simpl. lia.
Defined.

(** ** The scenarios of the spec *)

(** Scenario 1: the range "1-10" gives 10 slots, all counted as Queued. *)
Example scenario_build_1_10 :
  exists t,
    @mk_subjob_index_tbl sample_job_h sample_env "1-10" JOB_STATE_QUEUED
      ATR_ACTION_NEW = Built t
    /\ tkm_ct t = 10 /\ length (tkm_tbl t) = 10%nat
    /\ tkm_subjsct t JOB_STATE_QUEUED = 10
    /\ tkm_subjsct t JOB_STATE_EXPIRED = 0.
Proof. eexists. split; [vm_compute; reflexivity|]. split_and!; reflexivity. Qed.

(** Scenario 2: the range "1-10:3" gives the indices 1, 4, 7 and 10. *)
Example scenario_build_1_10_3 :
  @mk_subjob_index_tbl sample_job_h sample_env "1-10:3" JOB_STATE_QUEUED
    ATR_ACTION_NEW = Built sample_tbl
  /\ state_indices sample_tbl JOB_STATE_QUEUED = [1; 4; 7; 10].
Proof. split; vm_compute; reflexivity. Qed.

(** Scenario 3: the four subjobs of "1-10:3" expire one at a time with no
    error recorded; the parent is saved after each of the first three,
    the end-of-job calls are made once, after the fourth, with exit
    status 0, and a further check makes no call. *)
Example scenario_doneness :
  exists parent,
    @expire_and_check sample_job_h [0; 1; 2; 3] (sample_job (Some sample_tbl))
    = Some (parent,
            [Ev_job_save_db; Ev_job_save_db; Ev_job_save_db;
             Ev_check_block; Ev_account_job_update; Ev_set_attr_rsc_used_acct;
             Ev_account_jobend 0; Ev_svr_mailowner 0;
             Ev_svr_saveorpurge_finjobhist])
    /\ ji_exitstat parent = 0
    /\ (@chk_array_doneness sample_job_h parent).2 = [].
Proof.
  eexists. split; [vm_compute; reflexivity|]. split; vm_compute; reflexivity.
Qed.

(** Scenario 4: with the slots 0, 1 and 2 of "1-10" Expired and the rest
    Queued, the texts are "4-10" and "1-3". *)
Example scenario_format :
  exists t pjob,
    @mk_subjob_index_tbl sample_job_h sample_env "1-10" JOB_STATE_QUEUED
      ATR_ACTION_NEW = Built t
    /\ @set_subjob_tblstates sample_job_h (sample_job (Some t))
         [(0, JOB_STATE_EXPIRED); (1, JOB_STATE_EXPIRED); (2, JOB_STATE_EXPIRED)]
       = Some pjob
    /\ cvt_range pjob JOB_STATE_QUEUED = Some "4-10"
    /\ cvt_range pjob JOB_STATE_EXPIRED = Some "1-3".
Proof.
  eexists _, _. split; [vm_compute; reflexivity|].
  split; [vm_compute; reflexivity|]. split; vm_compute; reflexivity.
Qed.

(** Scenario 5: the range "5-2" is a syntax error. *)
Example scenario_build_5_2 :
  @mk_subjob_index_tbl sample_job_h sample_env "5-2" JOB_STATE_QUEUED
    ATR_ACTION_NEW = BuildError PBSE_BADATVAL.
Proof. reflexivity. Qed.

(** * Further properties of array_func.c *)

(** ** parse_subjob_index *)

(** X1.  Every successful [parse_subjob_index] call leaves a rest that is
    strictly shorter than its text, so parsing a text again and again
    from the rest, as the loop of [fixup_arrayindicies] does, ends after
    at most one call per character and one more, with an answer other
    than 0. *)
Theorem parse_subjob_index_progress :
  (forall pc ep start end_ step count,
      parse_subjob_index pc = Parsed ep start end_ step count ->
      (String.length ep < String.length pc)%nat)
  /\ (forall str,
      exists segs last,
        parse_segments (S (String.length str)) str = Some (segs, last)
        /\ (length segs <= String.length str)%nat
        /\ parse_rc last <> 0).
Proof.
  split; [apply parse_subjob_index_consumes|].
  assert (forall str segs last, segments str segs last ->
            (length segs <= String.length str)%nat /\ parse_rc last <> 0) as Hseg.
  { induction 1 as [str r Hp Hr|str ep s e st c segs r Hp Hsegs IH].
    - split; [simpl; lia|]. destruct r; simpl; try lia.
      exfalso. eapply Hr. reflexivity.
    - pose proof (parse_subjob_index_consumes _ _ _ _ _ _ Hp).
      destruct IH. split; [simpl; lia|assumption]. }
  intros str.
  destruct (segments_total (S (String.length str)) str ltac:(lia)) as (segs & r & Hs).
  exists segs, r. split; [apply segments_parse_segments; [assumption|lia]|].
  apply (Hseg _ _ _ Hs).
Qed.

Lemma parse_subjob_index_progress_witness :
  (String.length ",7" < String.length "1-5,7")%nat
  /\ exists segs last,
       parse_segments (S (String.length "1-5,7")) "1-5,7" = Some (segs, last).
Proof.
  destruct parse_subjob_index_progress as [Hstep Hall].
  split.
  - apply (Hstep "1-5,7" ",7" 1 5 1 5). reflexivity.
  - destruct (Hall "1-5,7") as (segs & last & H & _). exists segs, last. exact H.
Defined.

(** X2.  What a successful [parse_subjob_index] call returns is a range:
    [int] values with start <= end and step >= 1, with start = end only
    in the single-value form (step 1, count 1); and where
    (end - start) + step is still an [int], the count is at least 1 and
    is the number of indices start, start+step, ... up to end. *)
Theorem parse_subjob_index_range (pc ep : string) (start end_ step count : Z) :
  parse_subjob_index pc = Parsed ep start end_ step count ->
  is_int start /\ is_int end_ /\ is_int step
  /\ start <= end_ /\ 1 <= step
  /\ (start = end_ -> step = 1 /\ count = 1)
  /\ (end_ - start + step <= INT_MAX ->
      1 <= count /\ count = (end_ - start) / step + 1).
Proof.
  intros Hp.
  destruct (parse_subjob_index_Parsed _ _ _ _ _ _ Hp)
    as (Hs & He & Hst & Hle & Hst1 & Hcount).
  split_and!; try assumption.
  - intros Heq. subst end_.
    rewrite parse_subjob_index_steps in Hp. cbv zeta in Hp.
    destruct (_ || _); [discriminate|].
    destruct (negb _); [discriminate|].
    destruct (strtol (skip_spaces_commas pc)) as [v eptr].
    unfold parse_after_start in Hp. cbv zeta in Hp.
    destruct (_ || _ || _).
    + rewrite parse_finish_single in Hp. injection Hp as _ _ _ <- <-. auto.
    + destruct (negb _); [discriminate|].
      destruct (strtol _) as [v2 e2]. unfold parse_after_end in Hp. cbv zeta in Hp.
      exfalso.
      repeat match type of Hp with
      | context [let '(_, _) := ?p in _] => destruct p
      | context [if ?b then _ else _] => destruct b eqn:?
      | match ?o with Some _ => _ | None => _ end = _ => destruct o as [[? ?]|] eqn:?
      end; try discriminate;
      repeat match goal with
      | H : Some _ = Some _ |- _ => injection H as ? ?; subst
      | H : (_ || _) = false |- _ => apply orb_false_elim in H; destruct H
      | H : (_ >=? _) = false |- _ => rewrite Z.geb_leb in H; apply Z.leb_gt in H
      end; unfold parse_finish in Hp; injection Hp as ? ? ? ? ?; subst; lia.
  - intros Hfit.
    assert (count = (end_ - start) / step + 1) as Hc.
    { rewrite Hcount.
      rewrite int_sub_id, int_add_id by (unfold is_int, INT_MIN, INT_MAX in *; lia).
      rewrite Z.quot_div_nonneg by lia.
      replace (end_ - start + step) with ((end_ - start) + 1 * step) by lia.
      rewrite Z.div_add by lia. reflexivity. }
    split; [|exact Hc].
    pose proof (Z.div_pos (end_ - start) step ltac:(lia) ltac:(lia)). lia.
Qed.

Lemma parse_subjob_index_range_witness :
  1 <= 10 /\ 1 <= 3 /\ 4 = (10 - 1) / 3 + 1.
Proof.
  destruct (parse_subjob_index_range "1-10:3" "" 1 10 3 4 eq_refl)
    as (_ & _ & _ & Hle & Hst & _ & Hcount).
  split; [exact Hle|]. split; [exact Hst|].
  apply Hcount. unfold INT_MAX. lia.
Defined.

Lemma skip_spaces_commas_separators (sep s : string) :
  all_separators sep = true ->
  skip_spaces_commas (sep ++ s) = skip_spaces_commas s.
Proof.
  induction sep as [|c r IH]; simpl; [reflexivity|].
  intros H. apply andb_true_iff in H. destruct H as [Hc Hr].
  rewrite Hc. apply IH. assumption.
Qed.

(** X3.  White space and commas in front of a segment are skipped: a
    text gets the answer of what follows its leading separators, and a
    text of separators only gets the answer 1 (no more indices) at its
    end, as the empty text does. *)
Theorem parse_subjob_index_separators (sep s : string) :
  all_separators sep = true ->
  parse_subjob_index (sep ++ s) = parse_subjob_index s
  /\ parse_subjob_index sep = NoMore "".
Proof.
  intros Hsep. split.
  - rewrite !parse_subjob_index_steps. cbv zeta.
    rewrite skip_spaces_commas_separators by assumption. reflexivity.
  - rewrite <- (string_app_empty_r sep) at 1.
    rewrite parse_subjob_index_steps. cbv zeta.
    rewrite skip_spaces_commas_separators by assumption. reflexivity.
Qed.

Lemma parse_subjob_index_separators_witness :
  parse_subjob_index " ,, 4-6" = Parsed "" 4 6 1 3
  /\ parse_subjob_index " ,, " = NoMore "".
Proof.
  destruct (parse_subjob_index_separators " ,, " "4-6" eq_refl) as [H1 H2].
  split; [etransitivity; [exact H1|reflexivity]|exact H2].
Defined.

(** ** mk_subjob_index_tbl *)

(** X4.  The failures of [mk_subjob_index_tbl] are told apart by cause:
    PBSE_BADATVAL exactly when the range text does not parse to a
    segment, PBSE_SYSTEM exactly when it parses, the size limit does not
    reject it and the allocation fails; no other error than these two
    and PBSE_MaxArraySize is answered, and a table is built only from a
    text that parses, with the allocation succeeding. *)
Theorem mk_subjob_index_tbl_errors `{hdr : job_h} (env : server_env)
    (range : string) (initalstate : job_state) (mode : atr_action) :
  let limit :=
    match sv_maxarraysize env with
    | Some l => to_int l
    | None => PBS_MAX_ARRAY_JOB_DFL
    end in
  (mk_subjob_index_tbl env range initalstate mode = BuildError PBSE_BADATVAL
   <-> forall ep start end_ step count,
         parse_subjob_index range <> Parsed ep start end_ step count)
  /\ (mk_subjob_index_tbl env range initalstate mode = BuildError PBSE_SYSTEM
      <-> exists ep start end_ step count,
            parse_subjob_index range = Parsed ep start end_ step count
            /\ ~ ((mode = ATR_ACTION_NEW \/ mode = ATR_ACTION_ALTER) /\ count > limit)
            /\ malloc_ok env = false)
  /\ (forall e, mk_subjob_index_tbl env range initalstate mode = BuildError e ->
        e = PBSE_BADATVAL \/ e = PBSE_MaxArraySize \/ e = PBSE_SYSTEM)
  /\ (forall t, mk_subjob_index_tbl env range initalstate mode = Built t ->
        malloc_ok env = true
        /\ exists ep, parse_subjob_index range
                      = Parsed ep (tkm_start t) (tkm_end t) (tkm_step t) (tkm_ct t)).
Proof.
  intros limit. unfold mk_subjob_index_tbl. fold limit.
  destruct (parse_subjob_index range) as [ep start end_ step count| |] eqn:Hp.
  - set (over := (bool_decide (mode = ATR_ACTION_NEW)
                  || bool_decide (mode = ATR_ACTION_ALTER)) && (count >? limit)).
    assert (over = true
            <-> (mode = ATR_ACTION_NEW \/ mode = ATR_ACTION_ALTER) /\ count > limit)
      as Hover.
    { unfold over. rewrite andb_true_iff, orb_true_iff, !bool_decide_eq_true.
      destruct (Z.gtb_spec count limit); intuition lia. }
    assert (forall ep' s' e' st' c',
              Parsed ep start end_ step count = Parsed ep' s' e' st' c' -> c' = count)
      as Hinj by (intros ? ? ? ? ? H; injection H; auto).
    destruct over eqn:Hov.
    + split_and!.
      * split; [discriminate|intros H; exfalso; eapply H; reflexivity].
      * split; [discriminate|].
        intros (? & ? & ? & ? & c' & Heq & Hno & _). apply Hinj in Heq. subst c'.
        exfalso. apply Hno. apply Hover. reflexivity.
      * intros e He. injection He as <-. auto.
      * discriminate.
    + assert (~ ((mode = ATR_ACTION_NEW \/ mode = ATR_ACTION_ALTER) /\ count > limit))
        as Hnot by (intros H; apply Hover in H; discriminate).
      destruct (malloc_ok env) eqn:Hmal; cbn [negb].
      * destruct (fill_tbl _ _ _ _ _) as [l|] eqn:Hfill.
        -- split_and!.
           ++ split; [discriminate|intros H; exfalso; eapply H; reflexivity].
           ++ split; [discriminate|].
              intros (? & ? & ? & ? & ? & _ & _ & ?). discriminate.
           ++ discriminate.
           ++ intros t Ht. injection Ht as <-. simpl.
              split; [reflexivity|exists ep; reflexivity].
        -- split_and!.
           ++ split; [discriminate|intros H; exfalso; eapply H; reflexivity].
           ++ split; [discriminate|].
              intros (? & ? & ? & ? & ? & _ & _ & ?). discriminate.
           ++ discriminate.
           ++ discriminate.
      * split_and!.
        -- split; [discriminate|intros H; exfalso; eapply H; reflexivity].
        -- split; [|reflexivity].
           intros _. exists ep, start, end_, step, count. auto.
        -- intros e He. injection He as <-. auto.
        -- discriminate.
  - split_and!.
    + split; [intros _ ? ? ? ? ?; discriminate|reflexivity].
    + split; [discriminate|intros (? & ? & ? & ? & ? & ? & _); discriminate].
    + intros e He. injection He as <-. auto.
    + discriminate.
  - split_and!.
    + split; [intros _ ? ? ? ? ?; discriminate|reflexivity].
    + split; [discriminate|intros (? & ? & ? & ? & ? & ? & _); discriminate].
    + intros e He. injection He as <-. auto.
    + discriminate.
Qed.

Lemma mk_subjob_index_tbl_errors_witness :
  @mk_subjob_index_tbl sample_job_h sample_env "1-" JOB_STATE_QUEUED
    ATR_ACTION_NEW = BuildError PBSE_BADATVAL
  /\ @mk_subjob_index_tbl sample_job_h (mk_env None false 0) "1-3"
       JOB_STATE_QUEUED ATR_ACTION_NEW = BuildError PBSE_SYSTEM.
Proof.
  split.
  - apply (@mk_subjob_index_tbl_errors sample_job_h sample_env "1-"
             JOB_STATE_QUEUED ATR_ACTION_NEW).
    intros ep start end_ step count. discriminate.
  - apply (@mk_subjob_index_tbl_errors sample_job_h (mk_env None false 0) "1-3"
             JOB_STATE_QUEUED ATR_ACTION_NEW).
    exists "", 1, 3, 1, 3. split_and!; [reflexivity| |reflexivity].
    intros [_ H]. vm_compute in H. discriminate.
Defined.

(** X5.  A table that [mk_subjob_index_tbl] builds from a range that
    starts at a non-negative index is well formed: start <= end,
    step >= 1, count = (end - start + step) / step, one slot per index,
    every slot fresh (the initial state, no error, no subjob linked),
    the flags clear; the index of every slot is an [int] that
    [numindex_to_offset] maps back to that slot. *)
Theorem mk_subjob_index_tbl_well_formed `{hdr : job_h} (env : server_env)
    (range : string) (initalstate : job_state) (mode : atr_action)
    (t : ajtrkhd) (pjob : job) :
  mk_subjob_index_tbl env range initalstate mode = Built t ->
  0 <= tkm_start t ->
  ji_ajtrk pjob = Some t ->
  wf_table t
  /\ tkm_flags t = 0
  /\ (forall o, 0 <= o < tkm_ct t ->
        tbl_get t o = Some (new_ajtrk initalstate)
        /\ SJ_TBLIDX_2_IDX t o = tkm_start t + o * tkm_step t
        /\ tkm_start t + o * tkm_step t <= tkm_end t
        /\ numindex_to_offset pjob (SJ_TBLIDX_2_IDX t o) = o)
  /\ (forall o, tkm_ct t <= o -> tbl_get t o = None).
Proof.
  intros Hb Hs Ht.
  destruct (mk_subjob_index_tbl_wf _ _ _ _ _ Hb Hs) as [Hwf Hmax].
  destruct (mk_subjob_index_tbl_Built _ _ _ _ _ Hb)
    as (ep & start & end_ & step & count & Hp & Hct & _ & _ & _ & Hfl & _ & Htbl & Hpos).
  split_and!; [assumption|assumption| |].
  - intros o Ho. split_and!.
    + unfold tbl_get. destruct (Z.ltb_spec o 0); [lia|].
      rewrite Htbl. apply lookup_replicate. split; [reflexivity|lia].
    + apply SJ_TBLIDX_2_IDX_wf; assumption.
    + apply (wf_offset_bounds t o Hwf Ho).
    + apply (numindex_to_offset_of_offset pjob t o Ht Hwf Ho).
  - intros o Ho. unfold tbl_get. destruct (Z.ltb_spec o 0); [reflexivity|].
    apply lookup_ge_None. rewrite Htbl, length_replicate. lia.
Qed.

Lemma mk_subjob_index_tbl_well_formed_witness :
  wf_table sample_tbl
  /\ numindex_to_offset (sample_job (Some sample_tbl))
       (SJ_TBLIDX_2_IDX sample_tbl 2) = 2.
Proof.
  destruct (@mk_subjob_index_tbl_well_formed sample_job_h sample_env "1-10:3"
              JOB_STATE_QUEUED ATR_ACTION_NEW sample_tbl
              (sample_job (Some sample_tbl)))
    as (Hwf & _ & Hslots & _).
  - vm_compute. reflexivity.
  - vm_compute. discriminate.
  - reflexivity.
  - split; [exact Hwf|]. apply (Hslots 2). simpl. lia.
Defined.

(** ** setup_arrayjob_attrs *)

(** X6.  In a mode other than ATR_ACTION_NEW and ATR_ACTION_RECOV,
    [setup_arrayjob_attrs] never builds, frees or changes the tracking
    table, and so never answers PBSE_MaxArraySize or PBSE_SYSTEM.  In
    mode ATR_ACTION_ALTER it succeeds exactly for the id of an array job
    in state Queued, and then array_indices_remaining is the new text
    while the table is still the one of the old range; in the remaining
    modes it answers PBSE_BADATVAL. *)
Theorem setup_arrayjob_attrs_keeps_table `{hdr : job_h} (env : server_env)
    (pattr : string) (pjob : job) (mode : atr_action) :
  mode <> ATR_ACTION_NEW -> mode <> ATR_ACTION_RECOV ->
  exists rc pjob',
    setup_arrayjob_attrs env pattr pjob mode = Some (rc, pjob')
    /\ ji_ajtrk pjob' = ji_ajtrk pjob
    /\ at_array pjob' = Some 1
    /\ at_array_state_count pjob' = None
    /\ rc <> PBSE_MaxArraySize /\ rc <> PBSE_SYSTEM
    /\ (mode <> ATR_ACTION_ALTER -> rc = PBSE_BADATVAL)
    /\ (mode = ATR_ACTION_ALTER ->
        (rc = PBSE_NONE
         <-> is_job_array (ji_jobid pjob) = IS_ARRAY_ArrayJob
             /\ ji_state pjob = JOB_STATE_QUEUED)
        /\ (is_job_array (ji_jobid pjob) <> IS_ARRAY_ArrayJob -> rc = PBSE_BADATVAL)
        /\ (rc = PBSE_NONE ->
            at_array_indices_remaining pjob' = Some pattr
            /\ ji_svrflags pjob' = Z.lor (ji_svrflags pjob) JOB_SVFLG_ArrayJob)).
Proof.
  intros Hnew Hrecov. unfold setup_arrayjob_attrs.
  rewrite (bool_decide_eq_false_2 _ Hnew), (bool_decide_eq_false_2 _ Hrecov).
  cbn [orb mbind option_bind negb andb]. rewrite andb_true_r.
  destruct (decide (mode = ATR_ACTION_ALTER)) as [->|Halter].
  - rewrite bool_decide_eq_true_2 by reflexivity. cbn [negb andb].
    cbn [ji_jobid set_at_array_state_count set_at_array].
    destruct (is_job_array (ji_jobid pjob)) eqn:Hkind;
      try (eexists _, _; split; [reflexivity|];
           split_and!; try reflexivity; try discriminate; try tauto;
           intros _; split_and!;
           [ split; [discriminate|intros [? _]; discriminate]
           | reflexivity
           | discriminate ]).
    cbn [ji_state].
    destruct (decide (ji_state pjob = JOB_STATE_QUEUED)) as [Hq|Hq].
    + rewrite (bool_decide_eq_true_2 _ Hq). cbn [negb].
      eexists _, _; split; [reflexivity|].
      split_and!; try reflexivity; try discriminate; tauto.
    + rewrite (bool_decide_eq_false_2 _ Hq). cbn [negb].
      eexists _, _; split; [reflexivity|].
      split_and!; try reflexivity; try discriminate; try tauto.
      intros _. split_and!; [|congruence|discriminate].
      split; [discriminate|tauto].
  - rewrite (bool_decide_eq_false_2 _ Halter). cbn [negb].
    eexists _, _; split; [reflexivity|].
    split_and!; try reflexivity; try discriminate; try tauto.
Qed.

Lemma setup_arrayjob_attrs_keeps_table_witness :
  exists rc pjob',
    @setup_arrayjob_attrs sample_job_h sample_env "1-4"
      (sample_job (Some sample_tbl)) ATR_ACTION_ALTER = Some (rc, pjob')
    /\ ji_ajtrk pjob' = Some sample_tbl.
Proof.
  destruct (@setup_arrayjob_attrs_keeps_table sample_job_h sample_env "1-4"
              (sample_job (Some sample_tbl)) ATR_ACTION_ALTER)
    as (rc & pjob' & Hrun & Htbl & _); [discriminate|discriminate|].
  exists rc, pjob'. split; [exact Hrun|exact Htbl].
Defined.

(** X7.  In the modes ATR_ACTION_NEW and ATR_ACTION_RECOV,
    [setup_arrayjob_attrs] replaces the table of the job by the one
    [mk_subjob_index_tbl] makes of array_indices_submitted.  When that
    fails the error is answered and the job is left without a table.
    When it succeeds the job has the new table, which satisfies the
    histogram invariant; on recovery the answer is PBSE_NONE, the table
    is marked for re-evaluation and the server flags stay as they are;
    for a new job the answer is PBSE_NONE exactly for the id of an array
    job, PBSE_BADATVAL otherwise, with the table in place either way. *)
Theorem setup_arrayjob_attrs_builds `{hdr : job_h} (env : server_env)
    (pattr range : string) (pjob : job) (mode : atr_action) :
  mode = ATR_ACTION_NEW \/ mode = ATR_ACTION_RECOV ->
  at_array_indices_submitted pjob = Some range ->
  (forall e,
      mk_subjob_index_tbl env range JOB_STATE_QUEUED mode = BuildError e ->
      exists pjob',
        setup_arrayjob_attrs env pattr pjob mode = Some (e, pjob')
        /\ ji_ajtrk pjob' = None
        /\ ji_svrflags pjob' = ji_svrflags pjob)
  /\ (forall t,
      mk_subjob_index_tbl env range JOB_STATE_QUEUED mode = Built t ->
      table_ok t
      /\ exists rc pjob',
          setup_arrayjob_attrs env pattr pjob mode = Some (rc, pjob')
          /\ (mode = ATR_ACTION_RECOV ->
              rc = PBSE_NONE
              /\ ji_ajtrk pjob'
                 = Some (set_tkm_flags TKMFLG_REVAL_IND_REMAINING t)
              /\ ji_svrflags pjob' = ji_svrflags pjob)
          /\ (mode = ATR_ACTION_NEW ->
              ji_ajtrk pjob' = Some t
              /\ (rc = PBSE_NONE
                  <-> is_job_array (ji_jobid pjob) = IS_ARRAY_ArrayJob)
              /\ (rc = PBSE_NONE \/ rc = PBSE_BADATVAL)
              /\ (rc = PBSE_NONE ->
                  ji_svrflags pjob' = Z.lor (ji_svrflags pjob) JOB_SVFLG_ArrayJob
                  /\ at_array_indices_remaining pjob'
                     = Some (default pattr (at_array_indices_remaining pjob))))).
Proof.
  intros Hmode Hrange. split.
  - intros e He. unfold setup_arrayjob_attrs.
    assert (bool_decide (mode = ATR_ACTION_NEW)
            || bool_decide (mode = ATR_ACTION_RECOV) = true) as ->.
    { apply orb_true_iff. rewrite !bool_decide_eq_true. exact Hmode. }
    cbn [at_array_indices_submitted set_at_array_state_count set_at_array].
    rewrite Hrange. cbn [mbind option_bind]. rewrite He. cbn [mbind option_bind].
    eexists. split; [reflexivity|]. split; reflexivity.
  - intros t Ht. pose proof (mk_subjob_index_tbl_queued_ok _ _ _ _ Ht) as Hok.
    split; [exact Hok|].
    destruct (mk_subjob_index_tbl_Built _ _ _ _ _ Ht)
      as (_ & _ & _ & _ & _ & _ & _ & _ & _ & _ & Hfl & _).
    unfold setup_arrayjob_attrs.
    cbn [at_array_indices_submitted set_at_array_state_count set_at_array].
    rewrite Hrange.
    destruct Hmode as [-> | ->].
    + rewrite (bool_decide_eq_true_2 (ATR_ACTION_NEW = ATR_ACTION_NEW))
        by reflexivity.
      rewrite (bool_decide_eq_false_2 (ATR_ACTION_NEW = ATR_ACTION_RECOV))
        by discriminate.
      rewrite (bool_decide_eq_false_2 (ATR_ACTION_NEW = ATR_ACTION_ALTER))
        by discriminate.
      cbn [orb mbind option_bind negb andb]. rewrite Ht.
      cbn [mbind option_bind]. simpl.
      destruct (at_array_indices_remaining pjob) eqn:Hrem;
        destruct (is_job_array (ji_jobid pjob)) eqn:Hkind;
        (eexists _, _; split; [reflexivity|]; split; [discriminate|]; intros _;
         split_and!;
         [ reflexivity
         | split; first [discriminate | intros _; reflexivity]
         | auto
         | first [discriminate
                 | intros _; split; simpl; rewrite ?Hrem; reflexivity] ]).
    + rewrite (bool_decide_eq_false_2 (ATR_ACTION_RECOV = ATR_ACTION_NEW))
        by discriminate.
      rewrite (bool_decide_eq_true_2 (ATR_ACTION_RECOV = ATR_ACTION_RECOV))
        by reflexivity.
      cbn [orb mbind option_bind]. rewrite Ht.
      cbn [mbind option_bind ji_ajtrk set_ji_ajtrk]. rewrite Hfl.
      eexists _, _; split; [reflexivity|]. split; [|discriminate].
      intros _. split_and!; reflexivity.
Qed.

Lemma setup_arrayjob_attrs_builds_witness :
  table_ok sample_tbl
  /\ exists rc pjob',
       @setup_arrayjob_attrs sample_job_h sample_env "1-10:3"
         (sample_job None) ATR_ACTION_NEW = Some (rc, pjob').
Proof.
  destruct (@setup_arrayjob_attrs_builds sample_job_h sample_env "1-10:3" "1-10:3"
              (sample_job None) ATR_ACTION_NEW) as [_ Hbuilt].
  - left. reflexivity.
  - reflexivity.
  - destruct (Hbuilt sample_tbl) as (Hok & rc & pjob' & Hrun & _).
    + vm_compute. reflexivity.
    + split; [exact Hok|]. exists rc, pjob'. exact Hrun.
Defined.

(** ** set_subjob_tblstate and the read-only accessors *)

Lemma count_state_total (tbl : list ajtrk) :
  count_state JOB_STATE_TRANSIT tbl + count_state JOB_STATE_QUEUED tbl
  + count_state JOB_STATE_HELD tbl + count_state JOB_STATE_WAITING tbl
  + count_state JOB_STATE_RUNNING tbl + count_state JOB_STATE_EXITING tbl
  + count_state JOB_STATE_EXPIRED tbl + count_state JOB_STATE_BEGUN tbl
  + count_state JOB_STATE_MOVED tbl + count_state JOB_STATE_FINISHED tbl
  = Z.of_nat (length tbl).
Proof.
  induction tbl as [|ent rest IH]; [reflexivity|].
  cbn [count_state length]. rewrite Nat2Z.inj_succ, <- IH.
  destruct (trk_status ent);
    repeat match goal with
    | |- context [decide (?a = ?b)] => destruct (decide (a = b)); try congruence
    end; lia.
Qed.

Lemma indices_in_state_length (state : job_state) (step : Z) (tbl : list ajtrk) :
  forall i, Z.of_nat (length (indices_in_state tbl state i step))
            = count_state state tbl.
Proof.
  induction tbl as [|ent rest IH]; intros i; [reflexivity|].
  cbn [indices_in_state count_state]. rewrite length_app, Nat2Z.inj_add, IH.
  destruct (decide (trk_status ent = state)); reflexivity.
Qed.

Lemma land_lor_same (a b : Z) : Z.land (Z.lor a b) b = b.
Proof.
  apply Z.bits_inj'. intros n Hn.
  rewrite Z.land_spec, Z.lor_spec.
  destruct (Z.testbit a n), (Z.testbit b n); reflexivity.
Qed.

Lemma land_lnot_same (a b : Z) : Z.land (Z.land a (Z.lnot b)) b = 0.
Proof.
  apply Z.bits_inj'. intros n Hn.
  rewrite !Z.land_spec, Z.lnot_spec, Z.bits_0 by assumption.
  destruct (Z.testbit a n), (Z.testbit b n); reflexivity.
Qed.

(** X8.  [set_subjob_tblstate] on a slot of the table is idempotent: a
    second call with the same offset and state changes nothing.  A call
    that changes the state sets the re-evaluation flag of the table (so
    that array_indices_remaining is recomputed), a call with the state
    the slot already has returns the job as it is; either way only the
    table of the job is touched. *)
Theorem set_subjob_tblstate_idempotent `{hdr : job_h} (parent : job)
    (t : ajtrkhd) (offset : Z) (ent : ajtrk) (newstate : job_state) :
  ji_ajtrk parent = Some t ->
  tbl_get t offset = Some ent ->
  exists parent' t',
    set_subjob_tblstate parent offset newstate = Some parent'
    /\ ji_ajtrk parent' = Some t'
    /\ set_subjob_tblstate parent' offset newstate = Some parent'
    /\ (trk_status ent = newstate -> parent' = parent)
    /\ (trk_status ent <> newstate ->
        Z.land (tkm_flags t') TKMFLG_REVAL_IND_REMAINING
        = TKMFLG_REVAL_IND_REMAINING)
    /\ parent' = set_ji_ajtrk (Some t') parent.
Proof.
  intros Ht Hget.
  destruct (tbl_get_Some t offset ent Hget) as [Hrange Hlook].
  assert (parent = set_ji_ajtrk (Some t) parent) as Hsame.
  { destruct parent. simpl in Ht. subst. reflexivity. }
  unfold set_subjob_tblstate at 1.
  destruct (Z.eqb_spec offset (-1)) as [|Hoff]; [lia|].
  rewrite Ht, Hget. cbn [mbind option_bind].
  destruct (decide (trk_status ent = newstate)) as [Heq|Hne].
  - exists parent, t. split_and!; try done.
    unfold set_subjob_tblstate.
    destruct (Z.eqb_spec offset (-1)); [lia|].
    rewrite Ht, Hget. cbn [mbind option_bind].
    destruct (decide (trk_status ent = newstate)); [reflexivity|contradiction].
  - eexists _, _. split; [reflexivity|]. split; [reflexivity|].
    split_and!.
    + unfold set_subjob_tblstate.
      destruct (Z.eqb_spec offset (-1)); [lia|].
      cbn [ji_ajtrk set_ji_ajtrk].
      assert (tbl_get
                (set_tkm_flags (Z.lor (tkm_flags t) TKMFLG_REVAL_IND_REMAINING)
                   (set_tkm_subjsct
                      (subjsct_set
                         (subjsct_set (tkm_subjsct t) (trk_status ent)
                            (int_sub (tkm_subjsct t (trk_status ent)) 1))
                         newstate
                         (int_add
                            (subjsct_set (tkm_subjsct t) (trk_status ent)
                               (int_sub (tkm_subjsct t (trk_status ent)) 1)
                               newstate) 1))
                      (set_tkm_tbl
                         (<[Z.to_nat offset := set_trk_status newstate ent]>
                            (tkm_tbl t)) t))) offset
              = Some (set_trk_status newstate ent)) as ->.
      { unfold tbl_get. destruct (Z.ltb_spec offset 0); [lia|].
        cbn [tkm_tbl set_tkm_flags set_tkm_subjsct set_tkm_tbl].
        apply list_lookup_insert_eq. lia. }
      cbn [mbind option_bind trk_status set_trk_status].
      destruct (decide (newstate = newstate)); [reflexivity|congruence].
    + contradiction.
    + intros _. cbn [tkm_flags set_tkm_flags]. apply land_lor_same.
    + destruct parent. reflexivity.
Qed.

Lemma set_subjob_tblstate_idempotent_witness :
  exists parent',
    @set_subjob_tblstate sample_job_h (sample_job (Some sample_tbl)) 2
      JOB_STATE_RUNNING = Some parent'
    /\ @set_subjob_tblstate sample_job_h parent' 2 JOB_STATE_RUNNING
       = Some parent'.
Proof.
  destruct (@set_subjob_tblstate_idempotent sample_job_h
              (sample_job (Some sample_tbl)) sample_tbl 2
              (@new_ajtrk sample_job_h JOB_STATE_QUEUED) JOB_STATE_RUNNING
              eq_refl eq_refl)
    as (parent' & t' & H1 & _ & H2 & _).
  exists parent'. split; [exact H1|exact H2].
Defined.

(** X9.  Under the histogram invariant the ten counters add up to the
    number of slots and each lies between 0 and that number.  For an
    array job [get_queued_subjobs_ct] is then the number of slots that
    are Queued in the table (it reads the counter, not the attribute
    array_indices_remaining); for a job without the array flag it is 1,
    and for an array job without a table -1. *)
Theorem get_queued_subjobs_ct_counts `{hdr : job_h} (pjob : job) (t : ajtrkhd) :
  table_ok t ->
  subjsct_total t = tkm_ct t
  /\ (forall s, 0 <= tkm_subjsct t s <= tkm_ct t)
  /\ (Z.land (ji_svrflags pjob) JOB_SVFLG_ArrayJob <> 0 ->
      (ji_ajtrk pjob = Some t ->
       get_queued_subjobs_ct pjob = count_state JOB_STATE_QUEUED (tkm_tbl t)
       /\ 0 <= get_queued_subjobs_ct pjob <= tkm_ct t)
      /\ (ji_ajtrk pjob = None -> get_queued_subjobs_ct pjob = -1))
  /\ (Z.land (ji_svrflags pjob) JOB_SVFLG_ArrayJob = 0 ->
      get_queued_subjobs_ct pjob = 1).
Proof.
  intros [Hhist Hlen Hct].
  assert (forall s, 0 <= tkm_subjsct t s <= tkm_ct t) as Hbounds.
  { intros s. rewrite Hhist, <- Hlen. apply count_state_bounds. }
  split_and!.
  - unfold subjsct_total. rewrite !Hhist, <- Hlen. apply count_state_total.
  - exact Hbounds.
  - intros Hflag. unfold get_queued_subjobs_ct.
    destruct (Z.eqb_spec (Z.land (ji_svrflags pjob) JOB_SVFLG_ArrayJob) 0);
      [contradiction|]. cbn [negb].
    split; [|intros ->; reflexivity].
    intros ->. split_and!.
    + apply Hhist.
    + apply Hbounds.
    + apply Hbounds.
  - intros Hflag. unfold get_queued_subjobs_ct. rewrite Hflag. reflexivity.
Qed.

Lemma get_queued_subjobs_ct_counts_witness :
  subjsct_total sample_tbl = 4
  /\ @get_queued_subjobs_ct sample_job_h (sample_job (Some sample_tbl)) = 4.
Proof.
  destruct (@get_queued_subjobs_ct_counts sample_job_h
              (sample_job (Some sample_tbl)) sample_tbl sample_tbl_ok)
    as (Htotal & _ & Harr & _).
  split; [exact Htotal|].
  destruct Harr as [Hct _]; [vm_compute; discriminate|].
  destruct (Hct eq_refl) as [H _]. rewrite H. reflexivity.
Defined.

Lemma job_state_num_inj (s s' : job_state) :
  job_state_num s = job_state_num s' -> s = s'.
Proof. destruct s, s'; simpl; intros H; try reflexivity; discriminate. Qed.

(** X10.  What [set_subjob_tblstate] writes, [get_subjob_state] reads:
    after a call on a slot of the table the state of that slot is the
    number of the new state, the state of every other slot and the
    discarding flag of every slot are as before.  The number is never
    -1, which both accessors answer for the offset -1 only, and it
    determines the state. *)
Theorem get_subjob_state_after_set `{hdr : job_h} (parent : job)
    (t : ajtrkhd) (offset : Z) (ent : ajtrk) (newstate : job_state) :
  ji_ajtrk parent = Some t ->
  tbl_get t offset = Some ent ->
  exists parent',
    set_subjob_tblstate parent offset newstate = Some parent'
    /\ get_subjob_state parent' offset = Some (job_state_num newstate)
    /\ (forall o, o <> offset ->
          get_subjob_state parent' o = get_subjob_state parent o)
    /\ (forall o, get_subjob_discarding parent' o = get_subjob_discarding parent o)
    /\ (forall o n, get_subjob_state parent' o = Some n ->
          (n = -1 <-> o = -1)
          /\ (o <> -1 -> exists s, status_at t o <> None
                                   /\ n = job_state_num s
                                   /\ forall s', n = job_state_num s' -> s' = s)).
Proof.
  intros Ht Hget.
  destruct (tbl_get_Some t offset ent Hget) as [Hrange Hlook].
  assert (offset <> -1) as Hoff by lia.
  assert (forall p o, o <> -1 ->
            get_subjob_state p o
            = (ptbl ← ji_ajtrk p; e ← tbl_get ptbl o;
               Some (job_state_num (trk_status e)))) as Hstate.
  { intros p o Ho. unfold get_subjob_state.
    destruct (Z.eqb_spec o (-1)); [contradiction|reflexivity]. }
  assert (forall p o, o <> -1 ->
            get_subjob_discarding p o
            = (ptbl ← ji_ajtrk p; e ← tbl_get ptbl o;
               Some (trk_discarding e))) as Hdisc.
  { intros p o Ho. unfold get_subjob_discarding.
    destruct (Z.eqb_spec o (-1)); [contradiction|reflexivity]. }
  assert (forall p n, get_subjob_state p (-1) = Some n -> n = -1) as Hminus.
  { intros p n H. unfold get_subjob_state in H. simpl in H. congruence. }
  assert (forall s, job_state_num s <> -1) as Hnum by (intros []; discriminate).
  unfold set_subjob_tblstate.
  destruct (Z.eqb_spec offset (-1)) as [|_]; [contradiction|].
  rewrite Ht, Hget. cbn [mbind option_bind].
  destruct (decide (trk_status ent = newstate)) as [Heq|Hne].
  - exists parent. split; [reflexivity|]. split_and!.
    + rewrite Hstate, Ht by assumption. cbn [mbind option_bind].
      rewrite Hget. cbn [mbind option_bind]. rewrite Heq. reflexivity.
    + reflexivity.
    + reflexivity.
    + intros o k Hn. destruct (Z.eq_dec o (-1)) as [->|Ho].
      * split; [split; [reflexivity|intros _; exact (Hminus _ _ Hn)]|contradiction].
      * rewrite Hstate, Ht in Hn by assumption. cbn [mbind option_bind] in Hn.
        destruct (tbl_get t o) as [e|] eqn:He; [|discriminate].
        cbn [mbind option_bind] in Hn. injection Hn as <-.
        split; [split; [intros H; exfalso; exact (Hnum _ H)|contradiction]|].
        intros _. exists (trk_status e). split_and!.
        -- unfold status_at. rewrite He. discriminate.
        -- reflexivity.
        -- intros s' Hs'. symmetry. apply job_state_num_inj. exact Hs'.
  - set (t' := set_tkm_flags _ _).
    assert (tbl_get t' offset = Some (set_trk_status newstate ent)) as Hnew.
    { unfold tbl_get. destruct (Z.ltb_spec offset 0); [lia|].
      subst t'. cbn [tkm_tbl set_tkm_flags set_tkm_subjsct set_tkm_tbl].
      apply list_lookup_insert_eq. lia. }
    assert (forall o, o <> offset -> tbl_get t' o = tbl_get t o) as Hold.
    { intros o Ho. unfold tbl_get. destruct (Z.ltb_spec o 0); [reflexivity|].
      subst t'. cbn [tkm_tbl set_tkm_flags set_tkm_subjsct set_tkm_tbl].
      apply list_lookup_insert_ne. lia. }
    assert (ji_ajtrk (set_ji_ajtrk (Some t') parent) = Some t') as Ht'
      by reflexivity.
    exists (set_ji_ajtrk (Some t') parent). split; [reflexivity|]. split_and!.
    + rewrite Hstate, Ht' by assumption. cbn [mbind option_bind].
      rewrite Hnew. reflexivity.
    + intros o Ho. destruct (Z.eq_dec o (-1)) as [->|Ho1]; [reflexivity|].
      rewrite !Hstate, Ht', Ht by assumption. cbn [mbind option_bind].
      rewrite (Hold o Ho). reflexivity.
    + intros o. destruct (Z.eq_dec o (-1)) as [->|Ho1]; [reflexivity|].
      rewrite !Hdisc, Ht', Ht by assumption. cbn [mbind option_bind].
      destruct (Z.eq_dec o offset) as [->|Ho].
      * rewrite Hnew, Hget. reflexivity.
      * rewrite (Hold o Ho). reflexivity.
    + intros o k Hn. destruct (Z.eq_dec o (-1)) as [->|Ho].
      * split; [split; [reflexivity|intros _; exact (Hminus _ _ Hn)]|contradiction].
      * rewrite Hstate, Ht' in Hn by assumption. cbn [mbind option_bind] in Hn.
        destruct (tbl_get t' o) as [e|] eqn:He; [|discriminate].
        cbn [mbind option_bind] in Hn. injection Hn as <-.
        split; [split; [intros H; exfalso; exact (Hnum _ H)|contradiction]|].
        intros _. exists (trk_status e). split_and!.
        -- unfold status_at. destruct (Z.eq_dec o offset) as [->|Hoo].
           ++ rewrite Hget. discriminate.
           ++ rewrite <- (Hold o Hoo), He. discriminate.
        -- reflexivity.
        -- intros s' Hs'. symmetry. apply job_state_num_inj. exact Hs'.
Qed.

Lemma get_subjob_state_after_set_witness :
  exists parent',
    @set_subjob_tblstate sample_job_h (sample_job (Some sample_tbl)) 2
      JOB_STATE_RUNNING = Some parent'
    /\ get_subjob_state parent' 2 = Some 4.
Proof.
  destruct (@get_subjob_state_after_set sample_job_h
              (sample_job (Some sample_tbl)) sample_tbl 2
              (@new_ajtrk sample_job_h JOB_STATE_QUEUED) JOB_STATE_RUNNING
              eq_refl eq_refl)
    as (parent' & H1 & H2 & _).
  exists parent'. split; [exact H1|exact H2].
Defined.

(** ** chk_array_doneness and update_array_indices_remaining_attr *)

(** The four counters that [chk_array_doneness] adds are all 0 exactly
    when no slot is in one of their states. *)
Lemma active_count_zero (tbl : list ajtrk) :
  count_state JOB_STATE_QUEUED tbl + count_state JOB_STATE_RUNNING tbl
  + count_state JOB_STATE_HELD tbl + count_state JOB_STATE_EXITING tbl = 0
  <-> Forall (fun ent => active_state (trk_status ent) = false) tbl.
Proof.
  induction tbl as [|ent rest IH]; [split; [constructor|reflexivity]|].
  rewrite Forall_cons, <- IH. cbn [count_state].
  pose proof (count_state_bounds JOB_STATE_QUEUED rest).
  pose proof (count_state_bounds JOB_STATE_RUNNING rest).
  pose proof (count_state_bounds JOB_STATE_HELD rest).
  pose proof (count_state_bounds JOB_STATE_EXITING rest).
  destruct (trk_status ent);
    repeat match goal with
    | |- context [decide (?a = ?b)] => destruct (decide (a = b)); try congruence
    end; cbn [active_state];
    (split;
     [ intros Hs; split; first [reflexivity | lia | exfalso; lia]
     | intros [Ha Hs]; first [discriminate | lia] ]).
Qed.

Lemma active_counters_zero (t : ajtrkhd) :
  table_ok t ->
  (int_add (int_add (int_add (tkm_subjsct t JOB_STATE_QUEUED)
                       (tkm_subjsct t JOB_STATE_RUNNING))
              (tkm_subjsct t JOB_STATE_HELD))
     (tkm_subjsct t JOB_STATE_EXITING) =? 0) = true
  <-> Forall (fun ent => active_state (trk_status ent) = false) (tkm_tbl t).
Proof.
  intros [Hhist Hlen Hct]. rewrite <- active_count_zero, !Hhist.
  pose proof (count_state_total (tkm_tbl t)).
  pose proof (count_state_bounds JOB_STATE_TRANSIT (tkm_tbl t)).
  pose proof (count_state_bounds JOB_STATE_QUEUED (tkm_tbl t)).
  pose proof (count_state_bounds JOB_STATE_HELD (tkm_tbl t)).
  pose proof (count_state_bounds JOB_STATE_WAITING (tkm_tbl t)).
  pose proof (count_state_bounds JOB_STATE_RUNNING (tkm_tbl t)).
  pose proof (count_state_bounds JOB_STATE_EXITING (tkm_tbl t)).
  pose proof (count_state_bounds JOB_STATE_EXPIRED (tkm_tbl t)).
  pose proof (count_state_bounds JOB_STATE_BEGUN (tkm_tbl t)).
  pose proof (count_state_bounds JOB_STATE_MOVED (tkm_tbl t)).
  pose proof (count_state_bounds JOB_STATE_FINISHED (tkm_tbl t)).
  rewrite (int_add_id (count_state JOB_STATE_QUEUED (tkm_tbl t))
             (count_state JOB_STATE_RUNNING (tkm_tbl t)))
    by (unfold is_int, INT_MIN, INT_MAX in *; lia).
  rewrite (int_add_id (_ + _) (count_state JOB_STATE_HELD (tkm_tbl t)))
    by (unfold is_int, INT_MIN, INT_MAX in *; lia).
  rewrite (int_add_id (_ + _) (count_state JOB_STATE_EXITING (tkm_tbl t)))
    by (unfold is_int, INT_MIN, INT_MAX in *; lia).
  apply Z.eqb_eq.
Qed.






(** ** The static buffer of cvt_range *)

Lemma print_digits_length (fuel : nat) :
  forall (n : Z) (acc : string) (k : nat),
  0 <= n < 10 ^ Z.of_nat (S k) ->
  (String.length (print_digits fuel n acc) <= S k + String.length acc)%nat.
Proof.
  induction fuel as [|fuel IH]; intros n acc k Hn; cbn [print_digits].
  - simpl. lia.
  - destruct (Z.eqb_spec (n / 10) 0) as [Hz|Hnz]; [simpl; lia|].
    destruct k as [|k].
    + exfalso. apply Hnz. apply Z.div_small. simpl in Hn. lia.
    + specialize (IH (n / 10) (String (digit_char (n mod 10)) acc) k).
      cbn [String.length] in IH.
      assert (0 <= n / 10 < 10 ^ Z.of_nat (S k)) as Hd.
      { split; [apply Z.div_pos; lia|].
        apply Z.div_lt_upper_bound; [lia|].
        replace (Z.of_nat (S (S k))) with (Z.succ (Z.of_nat (S k))) in Hn by lia.
        rewrite Z.pow_succ_r in Hn by lia. lia. }
      specialize (IH Hd). lia.
Qed.

Lemma sprintf_d_length (n : Z) :
  0 <= n <= 99999 -> (String.length (sprintf_d n) <= 5)%nat.
Proof.
  intros Hn. rewrite sprintf_d_nonneg by lia. unfold print_nat.
  pose proof (print_digits_length (Z.to_nat (Z.log2 n)) n "" 4) as H.
  simpl String.length in H. apply H.
  change (10 ^ Z.of_nat 5) with 100000. lia.
Qed.

Lemma sprintf_at_fits (buflen : Z) (buf piece : string) :
  Z.of_nat (String.length buf) + Z.of_nat (String.length piece) + 1 <= buflen ->
  sprintf_at buflen buf piece = Some (buf ++ piece).
Proof.
  intros H. unfold sprintf_at.
  destruct (Z.ltb_spec buflen
              (Z.of_nat (String.length buf) + Z.of_nat (String.length piece) + 1));
    [lia|reflexivity].
Qed.

Section StaticBuffer.
Variables (t : ajtrkhd) (state : job_state).
Hypothesis Hwf : wf_table t.
Hypothesis Hend : tkm_end t <= 99999.

Lemma index_text_short (o : nat) :
  (o < length (tkm_tbl t))%nat ->
  (String.length (sprintf_d (SJ_TBLIDX_2_IDX t (Z.of_nat o))) <= 5)%nat.
Proof.
  intros Ho. pose proof (wf_len t Hwf) as Hlen.
  rewrite SJ_TBLIDX_2_IDX_wf by (assumption || lia).
  pose proof (wf_offset_bounds t (Z.of_nat o) Hwf ltac:(lia)).
  pose proof (wf_start t Hwf). apply sprintf_d_length. lia.
Qed.

Lemma step_text_short (last : nat) :
  (2 <= last < length (tkm_tbl t))%nat ->
  (String.length (sprintf_d (tkm_step t)) <= 5)%nat.
Proof.
  intros Hl. pose proof (wf_len t Hwf) as Hlen.
  pose proof (wf_offset_bounds t (Z.of_nat last) Hwf ltac:(lia)).
  pose proof (wf_start t Hwf). pose proof (wf_step t Hwf).
  apply sprintf_d_length. nia.
Qed.

(** With indices of at most five digits a turn writes at most 18
    characters and a NUL, which the 20 free bytes hold: the buffer is
    never overrun and the text is the one of [cvt_range_loop]. *)
Lemma cvt_range_static_loop_text (fuel : nat) :
  forall (first : nat) (pcomma : bool) (buf : string) (buflen : Z),
  Z.of_nat (String.length buf) + 1 <= buflen ->
  exists buflen',
    cvt_range_static_loop fuel true t state first pcomma buf buflen
    = Cvt_text (cvt_range_loop fuel t state first pcomma buf) buflen'
    /\ buflen <= buflen'.
Proof.
  pose proof (wf_len t Hwf) as Hlen.
  induction fuel as [|fuel IH]; intros first pcomma buf buflen Hbuf.
  - exists buflen. split; [reflexivity|lia].
  - cbn [cvt_range_static_loop cvt_range_loop].
    destruct (Z.ltb_spec (Z.of_nat first) (tkm_ct t)) as [Hfirst|_];
      [|exists buflen; split; [reflexivity|lia]].
    rewrite andb_false_r. cbv zeta.
    set (buflen1 := if buflen - Z.of_nat (String.length buf) <? 20
                    then buflen + 500 else buflen).
    assert (Z.of_nat (String.length buf) + 20 <= buflen1 /\ buflen <= buflen1)
      as [Hfree Hgrow].
    { subst buflen1.
      destruct (Z.ltb_spec (buflen - Z.of_nat (String.length buf)) 20); lia. }
    destruct (status_is t first state) eqn:Hst.
    2:{ destruct (IH (S first) pcomma buf buflen1 ltac:(lia)) as (b' & Hrun & Hb').
        exists b'. split; [exact Hrun|lia]. }
    set (last := cvt_range_run (Z.to_nat (tkm_ct t)) t state (S first) first).
    destruct (cvt_range_run_spec t state (Z.to_nat (tkm_ct t)) (S first) first
                ltac:(lia)) as [Hle Hall].
    fold last in Hle, Hall.
    assert (last < length (tkm_tbl t))%nat as Hlast.
    { destruct (decide (last = first)) as [->|Hne]; [lia|].
      destruct (status_is_true t state last (Hall last ltac:(lia)))
        as (_ & _ & _ & H). exact H. }
    pose proof (index_text_short first ltac:(lia)) as H1.
    pose proof (index_text_short last Hlast) as H2.
    assert ((S first < last)%nat ->
            (String.length (sprintf_d (tkm_step t)) <= 5)%nat) as H3.
    { intros H. apply (step_text_short last). lia. }
    assert (forall buf3,
              Z.of_nat (String.length buf3) + 1 <= buflen1 ->
              exists buflen',
                cvt_range_static_loop fuel true t state (S last) true buf3 buflen1
                = Cvt_text (cvt_range_loop fuel t state (S last) true buf3) buflen'
                /\ buflen <= buflen') as Hnext.
    { intros buf3 H. destruct (IH (S last) true buf3 buflen1 H) as (b' & Hrun & Hb').
      exists b'. split; [exact Hrun|lia]. }
    destruct pcomma, (Nat.ltb_spec (S first) last) as [Hrun|Hrun];
      try destruct (tkm_step t >? 1);
      try destruct (Nat.ltb_spec first last);
      try specialize (H3 Hrun);
      cbn [mbind option_bind];
      repeat (rewrite sprintf_at_fits
                by (rewrite ?string_length_app; cbn [String.length append];
                    rewrite ?string_length_app; cbn [String.length]; lia);
              cbn [mbind option_bind]);
      apply Hnext;
      rewrite ?string_length_app; cbn [String.length append];
      rewrite ?string_length_app; cbn [String.length]; lia.
Qed.

End StaticBuffer.

(** On a well-formed table whose indices have at most five digits, with
    the allocations succeeding, [cvt_range] stays inside its buffer and
    returns the text of the model without buffer. *)
Lemma cvt_range_static_text (alloc_ok : bool) (buflen0 : option Z)
    (pjob : job) (t : ajtrkhd) (state : job_state) :
  ji_ajtrk pjob = Some t ->
  wf_table t ->
  tkm_end t <= 99999 ->
  alloc_ok = true ->
  (forall b, buflen0 = Some b -> 1000 <= b) ->
  exists text buflen',
    cvt_range_static alloc_ok buflen0 pjob state = Cvt_text text buflen'
    /\ cvt_range pjob state = Some text.
Proof.
  intros Ht Hwf Hend -> Hb. unfold cvt_range_static, cvt_range. rewrite Ht.
  assert (exists b, match buflen0 with
                    | Some buflen => Some buflen
                    | None => Some 1000
                    end = Some b /\ 1000 <= b) as (b & -> & Hb').
  { destruct buflen0 as [b|]; [exists b; split; [reflexivity|auto]|].
    exists 1000. split; [reflexivity|lia]. }
  cbv zeta. destruct (Z.ltb_spec b 1); [lia|].
  destruct (cvt_range_static_loop_text t state Hwf Hend (Z.to_nat (tkm_ct t))
              0 false "" b) as (b' & Hrun & _); [simpl; lia|].
  eexists _, b'. split; [exact Hrun|reflexivity].
Qed.

(** The text of [cvt_range], parsed segment by segment, gives the
    indices of the slots in the state. *)
Lemma cvt_range_parse_indices (pjob : job) (t : ajtrkhd) (state : job_state) :
  ji_ajtrk pjob = Some t ->
  wf_table t ->
  tkm_start t + tkm_ct t * tkm_step t <= INT_MAX ->
  exists text,
    cvt_range pjob state = Some text
    /\ parse_indices text = Some (state_indices t state, NoMore "").
Proof.
  intros Ht Hwf Hmax. unfold cvt_range. rewrite Ht.
  eexists. split; [reflexivity|].
  pose proof (wf_len t Hwf) as Hlen.
  destruct (cvt_range_loop_segments t state Hwf Hmax (Z.to_nat (tkm_ct t)) 0)
    as (segs & Hsegs & Hidx); [lia|].
  unfold parse_indices.
  rewrite (segments_parse_segments _ _ _ Hsegs) by lia. simpl.
  rewrite Hidx. simpl. do 2 f_equal.
  unfold indices_from, state_indices, offset_index. rewrite drop_0.
  f_equal. lia.
Qed.

(** The indices of a state are the indices of the slots in that state. *)
Lemma state_indices_elem (t : ajtrkhd) (state : job_state) (i : Z) :
  wf_table t ->
  i ∈ state_indices t state
  <-> exists o, 0 <= o < tkm_ct t /\ status_at t o = Some state
                /\ i = SJ_TBLIDX_2_IDX t o.
Proof.
  intros Hwf. unfold state_indices. rewrite indices_in_state_elem.
  pose proof (wf_len t Hwf) as Hlen. split.
  - intros (o & ent & Hl & Hs & Hi).
    pose proof (lookup_lt_Some _ _ _ Hl) as Ho.
    exists (Z.of_nat o). split; [lia|]. split.
    + unfold status_at, tbl_get. destruct (Z.ltb_spec (Z.of_nat o) 0); [lia|].
      rewrite Nat2Z.id, Hl. simpl. congruence.
    + rewrite SJ_TBLIDX_2_IDX_wf by (assumption || lia). exact Hi.
  - intros (o & Ho & Hs & Hi).
    unfold status_at, tbl_get in Hs. destruct (Z.ltb_spec o 0); [lia|].
    destruct (tkm_tbl t !! Z.to_nat o) as [ent|] eqn:Hl; [|discriminate].
    simpl in Hs. injection Hs as Hs.
    exists (Z.to_nat o), ent. split_and!; [assumption|assumption|].
    rewrite Hi, SJ_TBLIDX_2_IDX_wf by assumption. rewrite Z2Nat.id by lia.
    reflexivity.
Qed.

(** The text stored for a marked table stands for the Queued indices. *)
Lemma remaining_text_parse `{hdr : job_h} (parent : job) (t : ajtrkhd) :
  ji_ajtrk parent = Some t ->
  wf_table t ->
  tkm_start t + tkm_ct t * tkm_step t <= INT_MAX ->
  Z.land (tkm_flags t) TKMFLG_REVAL_IND_REMAINING <> 0 ->
  exists text last,
    at_array_indices_remaining (update_array_indices_remaining_attr parent)
    = Some text
    /\ parse_indices text = Some (state_indices t JOB_STATE_QUEUED, last)
    /\ (text = "-" <-> state_indices t JOB_STATE_QUEUED = []).
Proof.
  intros Ht Hwf Hmax Hflag.
  pose proof (update_array_indices_remaining_text parent t Ht Hflag) as Htext.
  destruct (cvt_range_parse_indices parent t JOB_STATE_QUEUED Ht Hwf Hmax)
    as (str & Hstr & Hparse).
  rewrite Hstr in Htext.
  destruct str as [|c r].
  - exists "-", ParseError. cbn [at_nul] in Htext.
    assert (state_indices t JOB_STATE_QUEUED = []) as Hnone.
    { change (parse_indices "") with (Some (@nil Z, NoMore "")) in Hparse.
      congruence. }
    split_and!; [exact Htext| |tauto].
    rewrite Hnone. reflexivity.
  - exists (String c r), (NoMore ""). cbn [at_nul] in Htext.
    split_and!; [exact Htext|exact Hparse|].
    split.
    + intros Hdash. rewrite Hdash in Hparse.
      change (parse_indices "-") with (Some (@nil Z, ParseError)) in Hparse.
      congruence.
    + intros Hnone. exfalso.
      assert (cvt_range parent JOB_STATE_QUEUED = Some "") as Hempty.
      { unfold cvt_range. rewrite Ht.
        rewrite cvt_range_loop_no_match; [reflexivity|].
        apply status_is_no_match. apply Forall_forall. intros ent Hin Hq.
        apply list_elem_of_lookup in Hin. destruct Hin as [o Ho].
        assert (tkm_start t + Z.of_nat o * tkm_step t
                ∈ state_indices t JOB_STATE_QUEUED) as Hmem.
        { unfold state_indices. apply indices_in_state_elem.
          exists o, ent. auto. }
        rewrite Hnone in Hmem. inversion Hmem. }
      congruence.
Qed.

(** X12.  [update_array_indices_remaining_attr] on a well-formed table
    whose indices have at most five digits (so that every turn of
    [cvt_range] fits into the 20 bytes it keeps free; the allocations
    succeeding) and which is marked for re-evaluation: [cvt_range]
    stays inside its static buffer, and the text stored, parsed segment
    by segment as [fixup_arrayindicies] does, stands for exactly the
    indices of the Queued slots (the text "-" standing for none); the
    mark is cleared, neither slots nor counters change, and a second
    call changes nothing.  On a table that is not marked the call
    changes nothing at all, whatever array_indices_remaining holds. *)
Theorem update_array_indices_remaining_attr_round_trip `{hdr : job_h}
    (parent : job) (t : ajtrkhd) (buflen0 : option Z) :
  ji_ajtrk parent = Some t ->
  wf_table t ->
  tkm_start t + tkm_ct t * tkm_step t <= INT_MAX ->
  tkm_end t <= 99999 ->
  (forall b, buflen0 = Some b -> 1000 <= b) ->
  (Z.land (tkm_flags t) TKMFLG_REVAL_IND_REMAINING = 0 ->
   update_array_indices_remaining_attr parent = parent)
  /\ (Z.land (tkm_flags t) TKMFLG_REVAL_IND_REMAINING <> 0 ->
      exists written buflen' text last,
        cvt_range_static true buflen0 parent JOB_STATE_QUEUED
        = Cvt_text written buflen'
        /\ text = (if at_nul written then "-" else written)
        /\ at_array_indices_remaining (update_array_indices_remaining_attr parent)
           = Some text
        /\ parse_indices text = Some (state_indices t JOB_STATE_QUEUED, last)
        /\ (text = "-" <-> state_indices t JOB_STATE_QUEUED = [])
        /\ ji_ajtrk (update_array_indices_remaining_attr parent)
           = Some (set_tkm_flags
                     (Z.land (tkm_flags t) (Z.lnot TKMFLG_REVAL_IND_REMAINING)) t)
        /\ update_array_indices_remaining_attr
             (update_array_indices_remaining_attr parent)
           = update_array_indices_remaining_attr parent).
Proof.
  intros Ht Hwf Hmax Hend Hbuf. split.
  - intros Hflag. unfold update_array_indices_remaining_attr.
    rewrite Ht, Hflag. reflexivity.
  - intros Hflag.
    destruct (remaining_text_parse parent t Ht Hwf Hmax Hflag)
      as (text & last & Htext & Hparse & Hdash).
    destruct (cvt_range_static_text true buflen0 parent t JOB_STATE_QUEUED
                Ht Hwf Hend eq_refl Hbuf)
      as (written & buflen' & Hstatic & Hmodel).
    assert (ji_ajtrk (update_array_indices_remaining_attr parent)
            = Some (set_tkm_flags
                      (Z.land (tkm_flags t) (Z.lnot TKMFLG_REVAL_IND_REMAINING)) t))
      as Htbl.
    { unfold update_array_indices_remaining_attr. rewrite Ht.
      destruct (Z.eqb_spec (Z.land (tkm_flags t) TKMFLG_REVAL_IND_REMAINING) 0);
        [contradiction|]. reflexivity. }
    exists written, buflen', text, last.
    split_and!; [exact Hstatic| |exact Htext|exact Hparse|exact Hdash|exact Htbl|].
    + pose proof (update_array_indices_remaining_text parent t Ht Hflag) as Hstored.
      rewrite Hmodel in Hstored. congruence.
    + unfold update_array_indices_remaining_attr at 1. rewrite Htbl.
      cbn [tkm_flags set_tkm_flags]. rewrite land_lnot_same. reflexivity.
Qed.

Lemma update_array_indices_remaining_attr_round_trip_witness :
  exists text last,
    at_array_indices_remaining
      (@update_array_indices_remaining_attr sample_job_h running_job)
    = Some text
    /\ parse_indices text = Some ([1; 7; 10], last).
Proof.
  destruct (@update_array_indices_remaining_attr_round_trip sample_job_h
              running_job (default sample_tbl (ji_ajtrk running_job)) None)
    as [_ Hmarked].
  - reflexivity.
  - apply running_job_wf. reflexivity.
  - vm_compute. discriminate.
  - vm_compute. discriminate.
  - intros b H. discriminate.
  - destruct Hmarked as (written & buflen' & text & last & _ & _ & Htext & Hparse & _).
    + vm_compute. discriminate.
    + exists text, last. split; [exact Htext|exact Hparse].
Defined.

(** ** fixup_arrayindicies after update_array_indices_remaining_attr *)

(** The states after the fix-up, from the indices the text stands for. *)
Lemma fixup_arrayindicies_states `{hdr : job_h} (pattr : string)
    (pjob : job) (t : ajtrkhd) (mode : atr_action)
    (indices : list Z) (last : parse_result) :
  ji_ajtrk pjob = Some t ->
  wf_table t ->
  table_ok t ->
  Z.land (ji_svrflags pjob) JOB_SVFLG_ArrayJob <> 0 ->
  Z.land (ji_svrflags pjob) JOB_SVFLG_HERE = 0 \/ mode <> ATR_ACTION_NEW ->
  parse_indices pattr = Some (indices, last) ->
  exists pjob' t',
    fixup_arrayindicies pattr pjob mode = Some (PBSE_NONE, pjob')
    /\ ji_ajtrk pjob' = Some t'
    /\ same_shape t t'
    /\ table_ok t'
    /\ forall o, 0 <= o < tkm_ct t ->
         status_at t' o
         = Some (if decide (SJ_TBLIDX_2_IDX t o ∈ indices)
                 then JOB_STATE_QUEUED else JOB_STATE_EXPIRED).
Proof.
  intros Ht Hwf Hok Harray Hhere Hparse.
  unfold parse_indices in Hparse.
  destruct (parse_segments (S (String.length pattr)) pattr) as [[segs last']|] eqn:Hsegs;
    simpl in Hparse; [|discriminate].
  destruct (segments_indices segs) as [l|] eqn:Hl; simpl in Hparse; [|discriminate].
  injection Hparse as -> ->.
  pose proof (wf_ct_pos t Hwf) as Hpos.
  destruct (expire_loop_spec (Z.to_nat (tkm_ct t)) 0 pjob t Ht Hok ltac:(lia) ltac:(lia))
    as (p1 & t1 & Hexp & Ht1 & Hok1 & Hsh1 & Hst1).
  destruct (requeue_all_spec t Hwf indices [] p1 t1 Ht1 Hok1 Hsh1)
    as (p2 & t2 & Hreq & Ht2 & Hok2 & Hsh2 & Hst2).
  { intros o Ho. rewrite Hst1. destruct (decide (0 <= o < tkm_ct t)); [|lia].
    destruct (decide (SJ_TBLIDX_2_IDX t o ∈ [])) as [Hin|]; [inversion Hin|reflexivity]. }
  exists p2, t2. split_and!; [|assumption|assumption|assumption|exact Hst2].
  unfold fixup_arrayindicies. rewrite Ht.
  destruct (Z.eqb_spec (Z.land (ji_svrflags pjob) JOB_SVFLG_ArrayJob) 0);
    [contradiction|].
  assert (negb (Z.land (ji_svrflags pjob) JOB_SVFLG_HERE =? 0)
          && bool_decide (mode = ATR_ACTION_NEW) = false) as ->.
  { destruct Hhere as [->|Hmode]; [reflexivity|].
    rewrite (bool_decide_eq_false_2 _ Hmode). apply andb_false_r. }
  rewrite Hexp. cbn [mbind option_bind].
  rewrite (fixup_loop_requeue_all _ _ _ _ _ p1 Hsegs Hl), Hreq. reflexivity.
Qed.

(** In a well-formed table the slot at an offset is in the state exactly
    if its index is among the indices of the state. *)
Lemma state_indices_status (t : ajtrkhd) (state : job_state) (o : Z) :
  wf_table t -> 0 <= o < tkm_ct t ->
  SJ_TBLIDX_2_IDX t o ∈ state_indices t state <-> status_at t o = Some state.
Proof.
  intros Hwf Ho. rewrite (state_indices_elem t state _ Hwf). split.
  - intros (o' & Ho' & Hs & Heq).
    rewrite !SJ_TBLIDX_2_IDX_wf in Heq by assumption.
    pose proof (wf_step t Hwf).
    assert (o = o') as -> by nia. exact Hs.
  - intros Hs. exists o. auto.
Qed.

(** X13.  The qmove round trip.  For a job with a well-formed table
    whose indices have at most five digits, marked for re-evaluation
    (the allocations of [cvt_range] succeeding), [cvt_range] stays
    inside its buffer, and the text that
    [update_array_indices_remaining_attr] stores, given to
    [fixup_arrayindicies] on a job with a table over the same range
    (whatever the states of its slots), is accepted with PBSE_NONE and
    leaves a slot Queued exactly if it was Queued in the first job and
    Expired otherwise, so subjobs that were Running, Held or Exiting
    there are Expired here; the histogram invariant holds afterwards. *)
Theorem fixup_arrayindicies_restores_queued `{hdr : job_h} (src dst : job)
    (ts td : ajtrkhd) (mode : atr_action) (buflen0 : option Z) :
  ji_ajtrk src = Some ts ->
  wf_table ts ->
  tkm_start ts + tkm_ct ts * tkm_step ts <= INT_MAX ->
  tkm_end ts <= 99999 ->
  (forall b, buflen0 = Some b -> 1000 <= b) ->
  Z.land (tkm_flags ts) TKMFLG_REVAL_IND_REMAINING <> 0 ->
  ji_ajtrk dst = Some td ->
  table_ok td ->
  same_shape ts td ->
  Z.land (ji_svrflags dst) JOB_SVFLG_ArrayJob <> 0 ->
  Z.land (ji_svrflags dst) JOB_SVFLG_HERE = 0 \/ mode <> ATR_ACTION_NEW ->
  exists written buflen' text dst' td',
    cvt_range_static true buflen0 src JOB_STATE_QUEUED = Cvt_text written buflen'
    /\ text = (if at_nul written then "-" else written)
    /\ at_array_indices_remaining (update_array_indices_remaining_attr src)
       = Some text
    /\ fixup_arrayindicies text dst mode = Some (PBSE_NONE, dst')
    /\ ji_ajtrk dst' = Some td'
    /\ table_ok td'
    /\ same_shape ts td'
    /\ forall o, 0 <= o < tkm_ct ts ->
         status_at td' o
         = Some (if decide (status_at ts o = Some JOB_STATE_QUEUED)
                 then JOB_STATE_QUEUED else JOB_STATE_EXPIRED).
Proof.
  intros Hs Hwf Hmax Hend Hbuf Hflag Hd Hok Hshape Harray Hhere.
  destruct (remaining_text_parse src ts Hs Hwf Hmax Hflag)
    as (text & last & Htext & Hparse & _).
  destruct (cvt_range_static_text true buflen0 src ts JOB_STATE_QUEUED
              Hs Hwf Hend eq_refl Hbuf)
    as (written & buflen' & Hstatic & Hmodel).
  pose proof (wf_table_same_shape ts td Hwf Hshape Hok) as Hwfd.
  destruct (fixup_arrayindicies_states text dst td mode _ last Hd Hwfd Hok
              Harray Hhere Hparse)
    as (dst' & td' & Hfix & Htd' & Hsh' & Hok' & Hst).
  assert (tkm_ct td = tkm_ct ts) as Hct by apply Hshape.
  exists written, buflen', text, dst', td'.
  split_and!; [exact Hstatic| |exact Htext|exact Hfix|exact Htd'|exact Hok'| |].
  - pose proof (update_array_indices_remaining_text src ts Hs Hflag) as Hstored.
    rewrite Hmodel in Hstored. congruence.
  - eapply same_shape_trans; eassumption.
  - intros o Ho. rewrite Hst by lia. f_equal.
    rewrite (SJ_TBLIDX_2_IDX_same_shape ts td o Hshape).
    pose proof (state_indices_status ts JOB_STATE_QUEUED o Hwf Ho) as Hiff.
    destruct (decide (SJ_TBLIDX_2_IDX ts o ∈ state_indices ts JOB_STATE_QUEUED)),
      (decide (status_at ts o = Some JOB_STATE_QUEUED)); tauto.
Qed.

Lemma fixup_arrayindicies_restores_queued_witness :
  exists text dst' td',
    at_array_indices_remaining
      (@update_array_indices_remaining_attr sample_job_h running_job)
    = Some text
    /\ @fixup_arrayindicies sample_job_h text (sample_job (Some sample_tbl))
         ATR_ACTION_ALTER = Some (PBSE_NONE, dst')
    /\ ji_ajtrk dst' = Some td'
    /\ status_at td' 0 = Some JOB_STATE_QUEUED
    /\ status_at td' 1 = Some JOB_STATE_EXPIRED.
Proof.
  destruct (@fixup_arrayindicies_restores_queued sample_job_h running_job
              (sample_job (Some sample_tbl))
              (default sample_tbl (ji_ajtrk running_job)) sample_tbl
              ATR_ACTION_ALTER None)
    as (written & buflen' & text & dst' & td' & _ & _ & Htext & Hfix & Htd' & _ & _ & Hst).
  - reflexivity.
  - apply running_job_wf. reflexivity.
  - vm_compute. discriminate.
  - vm_compute. discriminate.
  - intros b H. discriminate.
  - vm_compute. discriminate.
  - reflexivity.
  - exact sample_tbl_ok.
  - vm_compute. auto.
  - vm_compute. discriminate.
  - left. reflexivity.
  - exists text, dst', td'.
    split_and!; [exact Htext|exact Hfix|exact Htd'| |].
    + apply (Hst 0). vm_compute. split; [discriminate|reflexivity].
    + apply (Hst 1). vm_compute. split; [discriminate|reflexivity].
Defined.

(** ** Job ids: mk_subjob_id, get_index_from_jid, is_job_array,
    find_arrayparent *)

Lemma strchr_lacks (c : ascii) (s : string) :
  lacks c s = true -> strchr s c = None.
Proof.
  induction s as [|d r IH]; simpl; [reflexivity|].
  intros H. apply andb_true_iff in H. destruct H as [Hd Hr].
  apply negb_true_iff in Hd. rewrite Hd. apply IH. exact Hr.
Qed.

Lemma strchr_app_lacks (c : ascii) (a r : string) :
  lacks c a = true -> strchr (a ++ r) c = strchr r c.
Proof.
  induction a as [|d a IH]; simpl; [reflexivity|].
  intros H. apply andb_true_iff in H. destruct H as [Hd Ha].
  apply negb_true_iff in Hd. rewrite Hd. apply IH. exact Ha.
Qed.

Lemma before_char_app_lacks (c : ascii) (a r : string) :
  lacks c a = true -> before_char (a ++ String c r) c = a.
Proof.
  induction a as [|d a IH]; simpl.
  - intros _. rewrite Ascii.eqb_refl. reflexivity.
  - intros H. apply andb_true_iff in H. destruct H as [Hd Ha].
    apply negb_true_iff in Hd. rewrite Hd, IH by exact Ha. reflexivity.
Qed.



Lemma skip_digits_app (s r : string) :
  all_digits s = true -> digit_at r = false -> skip_digits (s ++ r) = r.
Proof.
  intros Hs Hr. induction s as [|d s IH]; simpl.
  - destruct r as [|c r]; [reflexivity|]. simpl in *. rewrite Hr. reflexivity.
  - simpl in Hs. apply andb_true_iff in Hs. destruct Hs as [Hd Hs].
    rewrite Hd. apply IH. exact Hs.
Qed.




Section NamesProperties.
Variable PBS_MAXSVRJOBID : nat.
Variable find_job : string -> option job.

(** X15.  For a subjob id made of a sequence number, an index between
    brackets and a host part that is empty or starts with a dot (no
    dot and no '[' before it), [find_arrayparent] looks up the id of the
    array job, the same id with nothing between the brackets, provided
    that id fits into [PBS_MAXSVRJOBID] characters. *)
Theorem find_arrayparent_of_subjob_id (seq index host : string) :
  lacks "[" seq = true ->
  lacks "." seq = true ->
  lacks "." index = true ->
  host = "" \/ char_at "." host = true ->
  (String.length (seq ++ "[]" ++ host) <= PBS_MAXSVRJOBID)%nat ->
  find_arrayparent PBS_MAXSVRJOBID find_job (seq ++ "[" ++ index ++ "]" ++ host)
  = Some (find_job (seq ++ "[]" ++ host)).
Proof.
  intros Hopen Hdot Hidx Hhost Hlen.
  rewrite string_length_app in Hlen.
  change ("[]" ++ host) with (String "[" (String "]" host)) in Hlen.
  cbn [String.length] in Hlen.
  unfold find_arrayparent.
  rewrite (strchr_app_lacks "[" seq _ Hopen).
  change (strchr ("[" ++ index ++ "]" ++ host) "[")
    with (Some ("[" ++ index ++ "]" ++ host)).
  cbn [mbind option_bind].
  change ("[" ++ index ++ "]" ++ host) with (String "[" (index ++ "]" ++ host)).
  rewrite (before_char_app_lacks "[" seq _ Hopen).
  destruct (Nat.leb_spec PBS_MAXSVRJOBID (String.length seq)); [lia|].
  rewrite (strchr_app_lacks "." seq _ Hdot).
  change (strchr (String "[" (index ++ "]" ++ host)) ".")
    with (strchr (index ++ "]" ++ host) ".").
  rewrite (strchr_app_lacks "." index _ Hidx).
  change (strchr ("]" ++ host) ".") with (strchr host ".").
  assert (String.length (seq ++ "[" ++ "]") = S (S (String.length seq))) as Hl2.
  { rewrite string_length_app. simpl. lia. }
  destruct Hhost as [->|Hhost].
  - cbn [strchr]. rewrite Hl2.
    destruct (Nat.ltb_spec PBS_MAXSVRJOBID (S (S (String.length seq))));
      [simpl in Hlen; lia|]. reflexivity.
  - destruct host as [|c host]; [discriminate|]. cbn [char_at] in Hhost.
    cbn [strchr]. rewrite Hhost.
    rewrite string_length_app, Hl2.
    destruct (Nat.ltb_spec PBS_MAXSVRJOBID
                (S (S (String.length seq)) + String.length (String c host)));
      [lia|].
    rewrite string_app_assoc. reflexivity.
Qed.

End NamesProperties.

Lemma find_arrayparent_of_subjob_id_witness :
  find_arrayparent 20 (fun id => if String.eqb id "12[].svr"
                                 then Some (sample_job (Some sample_tbl))
                                 else None) "12[7].svr"
  = Some (Some (sample_job (Some sample_tbl))).
Proof.
  apply (find_arrayparent_of_subjob_id 20
           (fun id => if String.eqb id "12[].svr"
                      then Some (sample_job (Some sample_tbl)) else None)
           "12" "7" ".svr");
    [reflexivity|reflexivity|reflexivity|right; reflexivity|simpl; lia].
Defined.

Lemma strchr_Some (c : ascii) (s r : string) :
  strchr s c = Some r ->
  s = before_char s c ++ r
  /\ lacks c (before_char s c) = true
  /\ exists r', r = String c r'.
Proof.
  induction s as [|d s IH]; simpl; [discriminate|].
  destruct (Ascii.eqb_spec d c) as [->|Hne].
  - intros [= <-]. simpl. split_and!; [reflexivity|reflexivity|]. exists s. reflexivity.
  - intros H. destruct (IH H) as (Heq & Hl & Hr).
    simpl. rewrite <- Heq, Hl.
    split_and!; [reflexivity| |exact Hr].
    apply andb_true_iff. split; [|reflexivity].
    apply negb_true_iff. apply Ascii.eqb_neq. exact Hne.
Qed.

Lemma strchr_app_Some (c : ascii) (a b r : string) :
  strchr a c = Some r -> strchr (a ++ b) c = Some (r ++ b).
Proof.
  induction a as [|d a IH]; simpl; [discriminate|].
  destruct (Ascii.eqb d c); [intros [= <-]; reflexivity|exact IH].
Qed.

Lemma strchr_None_lacks (c : ascii) (s : string) :
  strchr s c = None -> lacks c s = true.
Proof.
  induction s as [|d s IH]; simpl; [reflexivity|].
  destruct (Ascii.eqb d c); [discriminate|]. intros H. rewrite (IH H). reflexivity.
Qed.

(** X16.  [get_index_from_jid], its buffer allocated, finds an index
    text exactly in an id that has a ']' after its first '[': the text
    is what stands between the first '[' and the first ']' (it may be
    empty).  An id without '[', without ']', or whose first ']' comes
    before its first '[', has no index. *)
Theorem get_index_from_jid_spec (newjid index : string) :
  get_index_from_jid newjid = Some index
  <-> exists pre post,
        newjid = pre ++ "[" ++ index ++ "]" ++ post
        /\ lacks "[" pre = true /\ lacks "]" pre = true
        /\ lacks "]" index = true.
Proof.
  unfold get_index_from_jid. split.
  - destruct (strchr newjid "[") as [pcb|] eqn:Hb; [|discriminate].
    destruct (strchr newjid "]") as [pce|] eqn:He; [|discriminate].
    destruct (strchr_Some _ _ _ Hb) as (Hsplit & Hpre & rest & ->).
    destruct (Nat.leb_spec (String.length (String "[" rest)) (String.length pce))
      as [|Hlen]; [discriminate|].
    intros [= <-]. cbn [advance].
    set (pre := before_char newjid "[") in *.
    assert (lacks "]" pre = true) as Hpre2.
    { destruct (strchr pre "]") as [r|] eqn:Hr; [|apply strchr_None_lacks; exact Hr].
      exfalso. rewrite Hsplit in He.
      rewrite (strchr_app_Some _ _ (String "[" rest) _ Hr) in He.
      injection He as <-. rewrite string_length_app in Hlen. lia. }
    rewrite Hsplit in He. rewrite (strchr_app_lacks "]" pre _ Hpre2) in He.
    change (strchr (String "[" rest) "]") with (strchr rest "]") in He.
    destruct (strchr_Some _ _ _ He) as (Hrest & Hidx & post & ->).
    exists pre, post. split_and!; [|exact Hpre|exact Hpre2|exact Hidx].
    rewrite Hsplit at 1. rewrite Hrest at 1. reflexivity.
  - intros (pre & post & -> & Hpre & Hpre2 & Hidx).
    rewrite (strchr_app_lacks "[" pre _ Hpre), (strchr_app_lacks "]" pre _ Hpre2).
    change (strchr ("[" ++ index ++ "]" ++ post) "[")
      with (Some (String "[" (index ++ String "]" post))).
    change (strchr ("[" ++ index ++ "]" ++ post) "]")
      with (strchr (index ++ String "]" post) "]").
    rewrite (strchr_app_lacks "]" index _ Hidx).
    change (strchr (String "]" post) "]") with (Some (String "]" post)).
    cbv beta match.
    match goal with
    | |- context [Nat.leb ?a ?b] => destruct (Nat.leb a b) eqn:Hlen
    end.
    + apply Nat.leb_le in Hlen. cbn [String.length] in Hlen.
      rewrite string_length_app in Hlen. cbn [String.length] in Hlen. lia.
    + cbn [advance]. rewrite (before_char_app_lacks "]" index post Hidx).
      reflexivity.
Qed.

Lemma get_index_from_jid_spec_witness :
  get_index_from_jid "12[7].svr" = Some "7".
Proof.
  apply (get_index_from_jid_spec "12[7].svr" "7").
  exists "12", ".svr". split_and!; reflexivity.
Defined.



(** ** update_subjob_state *)

Lemma strncmp_zero_prefix (s x p : string) :
  strncmp_zero (String.length s) (s ++ x) p = String.prefix s p.
Proof.
  revert p. induction s as [|c s IH]; intros p; [destruct p; reflexivity|].
  destruct p as [|d p]; [reflexivity|]. cbn [String.length append strncmp_zero].
  simpl String.prefix. rewrite IH.
  destruct (Ascii.eqb_spec c d) as [->|Hne].
  - destruct (ascii_dec d d); [reflexivity|congruence].
  - destruct (ascii_dec c d); [congruence|reflexivity].
Qed.

Lemma count_state_insert_same (s : job_state) (tbl : list ajtrk) (i : nat)
    (ent x : ajtrk) :
  tbl !! i = Some ent -> trk_status x = trk_status ent ->
  count_state s (<[i := x]> tbl) = count_state s tbl.
Proof.
  intros Hl Hx. revert i Hl.
  induction tbl as [|e rest IH]; intros [|i] Hi; simpl in *; try discriminate.
  - injection Hi as ->. rewrite Hx. reflexivity.
  - rewrite (IH i Hi). reflexivity.
Qed.

Lemma set_trk_status_same (ent : ajtrk) :
  set_trk_status (trk_status ent) ent = ent.
Proof. destruct ent. reflexivity. Qed.



(** The subjob's slot after [set_subjob_tblstate]. *)
Lemma set_subjob_tblstate_slot `{hdr : job_h} (parent : job) (t : ajtrkhd)
    (offset : Z) (ent : ajtrk) (newstate : job_state) :
  ji_ajtrk parent = Some t ->
  tbl_get t offset = Some ent ->
  table_ok t ->
  exists parent' t',
    set_subjob_tblstate parent offset newstate = Some parent'
    /\ ji_ajtrk parent' = Some t'
    /\ tbl_get t' offset = Some (set_trk_status newstate ent)
    /\ (forall o, o <> offset -> tbl_get t' o = tbl_get t o)
    /\ same_shape t t'
    /\ table_ok t'
    /\ (tkm_flags t' = tkm_flags t
        \/ tkm_flags t' = Z.lor (tkm_flags t) TKMFLG_REVAL_IND_REMAINING).
Proof.
  intros Ht Hent Hok.
  destruct (decide (trk_status ent = newstate)) as [Heq|Hne].
  - exists parent, t. unfold set_subjob_tblstate.
    destruct (tbl_get_Some t offset ent Hent) as [Hrange _].
    destruct (Z.eqb_spec offset (-1)); [lia|].
    rewrite Ht, Hent. cbn [mbind option_bind].
    destruct (decide (trk_status ent = newstate)); [|contradiction].
    split_and!; try done;
      first [ rewrite <- Heq, set_trk_status_same; reflexivity
            | apply same_shape_refl
            | left; reflexivity ].
  - destruct (set_subjob_tblstate_step parent t offset ent newstate Ht Hent Hne Hok)
      as (p' & t' & Hset & Ht' & _ & _ & _ & Hnew & Hother & H1 & H2 & H3 & H4 & Hok').
    exists p', t'. split_and!; try done.
    right. unfold set_subjob_tblstate in Hset.
    destruct (Z.eqb_spec offset (-1)) as [Hm|_].
    + injection Hset as <-. rewrite Ht in Ht'. injection Ht' as <-.
      destruct (tbl_get_Some t offset ent Hent) as [Hrange _]. lia.
    + rewrite Ht, Hent in Hset. cbn [mbind option_bind] in Hset.
      destruct (decide (trk_status ent = newstate)); [contradiction|].
      injection Hset as <-. cbn [ji_ajtrk set_ji_ajtrk] in Ht'.
      injection Ht' as <-. reflexivity.
Qed.



(** The run of [update_subjob_state] for the state Expired, up to the
    call of [chk_array_doneness]. *)
Lemma update_subjob_state_expired `{hdr : job_h} (history_conf : bool)
    (attrs : subjob_exit_attrs) (pjob parent : job) (t : ajtrkhd)
    (ent : ajtrk) (s rest : string) (c : ascii) :
  ji_jobid pjob = s ++ String c ("[" ++ rest) ->
  lacks "[" s = true ->
  c <> "["%char ->
  ji_ajtrk parent = Some t ->
  table_ok t ->
  tbl_get t (ji_subjindx pjob) = Some ent ->
  String.prefix s (ji_jobid parent) = true ->
  exists p2 t2 e2,
    update_subjob_state history_conf attrs pjob parent JOB_STATE_EXPIRED
    = Some (chk_array_doneness p2)
    /\ ji_ajtrk p2 = Some t2
    /\ table_ok t2
    /\ (tkm_flags t2 = tkm_flags t
        \/ tkm_flags t2 = Z.lor (tkm_flags t) TKMFLG_REVAL_IND_REMAINING)
    /\ 0 <= ji_subjindx pjob
    /\ tkm_tbl t2 !! Z.to_nat (ji_subjindx pjob) = Some e2
    /\ trk_status e2 = JOB_STATE_EXPIRED
    /\ trk_error e2 = ji_exitstat pjob
    /\ (forall i x, i <> Z.to_nat (ji_subjindx pjob) ->
          tkm_tbl t2 !! i = Some x -> tbl_get t (Z.of_nat i) = Some x).
Proof.
  intros Hid Hs Hc Ht Hok Hent Hpre.
  assert (strchr (ji_jobid pjob) "[" = Some ("[" ++ rest)) as Hpc.
  { rewrite Hid, (strchr_app_lacks "[" s _ Hs). cbn [strchr].
    destruct (Ascii.eqb_spec c "["); [contradiction|reflexivity]. }
  assert (Z.of_nat (String.length (ji_jobid pjob))
          - Z.of_nat (String.length ("[" ++ rest)) - 1
          = Z.of_nat (String.length s)) as Hlen.
  { rewrite Hid, string_length_app. cbn [String.length]. simpl. lia. }
  unfold update_subjob_state. rewrite Ht, Hpc. cbn [mbind option_bind].
  rewrite Hlen. destruct (Z.ltb_spec (Z.of_nat (String.length s)) 0); [lia|].
  rewrite Nat2Z.id.
  assert (strncmp_zero (String.length s) (ji_jobid pjob) (ji_jobid parent)
          = String.prefix s (ji_jobid parent)) as ->
    by (rewrite Hid; apply strncmp_zero_prefix).
  rewrite Hpre. cbn [negb].
  destruct (set_subjob_tblstate_slot parent t (ji_subjindx pjob) ent
              JOB_STATE_EXPIRED Ht Hent Hok)
    as (p1 & t1 & Hset & Ht1 & Hslot1 & Hother1 & Hsh1 & Hok1 & Hfl1).
  rewrite Hset. cbn [mbind option_bind].
  destruct (tbl_get_Some t1 _ _ Hslot1) as [Hrange1 Hlook1].
  rewrite bool_decide_eq_true_2 by reflexivity. rewrite Ht1.
  cbn [mbind option_bind]. rewrite Hslot1. cbn [mbind option_bind].
  eexists _, _, _. split; [reflexivity|]. split; [reflexivity|].
  split.
  { destruct Hok1 as [Hh Hl Hct]. split.
    - intros st. cbn [tkm_subjsct tkm_tbl set_tkm_tbl].
      rewrite (count_state_insert_same st _ _ _ _ Hlook1) by reflexivity.
      apply Hh.
    - cbn [tkm_tbl tkm_ct set_tkm_tbl]. rewrite length_insert. exact Hl.
    - exact Hct. }
  split; [exact Hfl1|]. split; [lia|].
  split; [cbn [tkm_tbl set_tkm_tbl]; apply list_lookup_insert_eq; lia|].
  split; [reflexivity|]. split; [reflexivity|].
  - intros i x Hi Hx. cbn [tkm_tbl set_tkm_tbl] in Hx.
    rewrite list_lookup_insert_ne in Hx by lia.
    rewrite <- (Hother1 (Z.of_nat i)) by lia.
    unfold tbl_get. destruct (Z.ltb_spec (Z.of_nat i) 0); [lia|].
    rewrite Nat2Z.id. exact Hx.
Qed.

(** X19.  The end of an array job.  When a subjob expires while every
    other slot is in none of the states Queued, Running, Held and
    Exiting, and the table is neither latched nor under deletion (the
    latch being a non-zero bit, and the re-evaluation mark a bit apart
    from latch and deletion mark), [update_subjob_state] makes
    [chk_array_doneness] do the end-of-job processing at once.  The exit status stored in the array job is 2
    if the subjob's exit status is negative (whatever the other slots
    recorded); with no negative error recorded anywhere it is 1 if the
    subjob's is positive, and 0 if it and all recorded errors are 0.
    The table is latched afterwards: another [chk_array_doneness] makes
    no call. *)
Theorem update_subjob_state_last_expiry `{hdr : job_h} (history_conf : bool)
    (attrs : subjob_exit_attrs) (pjob parent : job) (t : ajtrkhd)
    (ent : ajtrk) (s rest : string) (c : ascii) :
  ji_jobid pjob = s ++ String c ("[" ++ rest) ->
  lacks "[" s = true ->
  c <> "["%char ->
  ji_ajtrk parent = Some t ->
  table_ok t ->
  tbl_get t (ji_subjindx pjob) = Some ent ->
  String.prefix s (ji_jobid parent) = true ->
  TKMFLG_CHK_ARRAY <> 0 ->
  Z.land (tkm_flags t) (Z.lor TKMFLG_NO_DELETE TKMFLG_CHK_ARRAY) = 0 ->
  Z.land TKMFLG_REVAL_IND_REMAINING (Z.lor TKMFLG_NO_DELETE TKMFLG_CHK_ARRAY) = 0 ->
  (forall o e, o <> ji_subjindx pjob -> tbl_get t o = Some e ->
     active_state (trk_status e) = false) ->
  exists parent' calls,
    update_subjob_state history_conf attrs pjob parent JOB_STATE_EXPIRED
    = Some (parent', calls)
    /\ Ev_svr_saveorpurge_finjobhist ∈ calls
    /\ (ji_exitstat pjob < 0 -> ji_exitstat parent' = 2)
    /\ (0 < ji_exitstat pjob ->
        (forall o e, o <> ji_subjindx pjob -> tbl_get t o = Some e ->
           0 <= trk_error e) ->
        ji_exitstat parent' = 1)
    /\ (ji_exitstat pjob = 0 ->
        (forall o e, o <> ji_subjindx pjob -> tbl_get t o = Some e ->
           trk_error e = 0) ->
        ji_exitstat parent' = 0)
    /\ chk_array_doneness parent' = (parent', []).
Proof.
  intros Hid Hs Hc Ht Hok Hent Hpre Hbit Hflags Hdisjoint Hothers.
  destruct (update_subjob_state_expired history_conf attrs pjob parent t ent
              s rest c Hid Hs Hc Ht Hok Hent Hpre)
    as (p2 & t2 & e2 & Hrun & Ht2 & Hok2 & Hfl2 & Hidx & Hslot & Hst & Herr & Hrest).
  assert (Z.land (tkm_flags t2) (Z.lor TKMFLG_NO_DELETE TKMFLG_CHK_ARRAY) = 0)
    as Hflags2.
  { destruct Hfl2 as [-> | ->]; [exact Hflags|].
    rewrite Z.land_lor_distr_l, Hflags, Hdisjoint. reflexivity. }
  assert (forall P : ajtrk -> Prop,
            P e2 ->
            (forall o e, o <> ji_subjindx pjob -> tbl_get t o = Some e -> P e) ->
            Forall P (tkm_tbl t2)) as Hall.
  { intros P He2 Hrest'. apply Forall_lookup. intros i x Hx.
    destruct (decide (i = Z.to_nat (ji_subjindx pjob))) as [->|Hi].
    - rewrite Hslot in Hx. injection Hx as <-. exact He2.
    - apply (Hrest' (Z.of_nat i)); [lia|]. apply (Hrest i x Hi Hx). }
  assert (Forall (fun e => active_state (trk_status e) = false) (tkm_tbl t2))
    as Hdone.
  { apply Hall; [rewrite Hst; reflexivity|exact Hothers]. }
  apply (active_counters_zero t2 Hok2) in Hdone.
  assert (take (Z.to_nat (tkm_ct t2)) (tkm_tbl t2) = tkm_tbl t2) as Htake.
  { apply take_ge. pose proof (ok_len t2 Hok2). lia. }
  rewrite Hrun. unfold chk_array_doneness at 1.
  rewrite Ht2, Hflags2. cbn [Z.eqb negb]. rewrite Hdone, Htake.
  eexists _, _. split; [reflexivity|].
  split_and!.
  - rewrite !elem_of_app. right. right. right.
    apply list_elem_of_singleton. reflexivity.
  - intros Hneg. cbn [ji_exitstat set_ji_ajtrk set_ji_exect].
    apply scan_errors_negative. apply Exists_exists. exists e2.
    split; [|lia]. apply list_elem_of_lookup. eexists. exact Hslot.
  - intros Hpos Hnonneg. cbn [ji_exitstat set_ji_ajtrk set_ji_exect].
    apply scan_errors_positive.
    + apply Hall; [lia|exact Hnonneg].
    + apply Exists_exists. exists e2.
      split; [|lia]. apply list_elem_of_lookup. eexists. exact Hslot.
  - intros Hzero Hzeros. cbn [ji_exitstat set_ji_ajtrk set_ji_exect].
    rewrite scan_errors_none; [reflexivity|].
    apply Hall; [lia|exact Hzeros].
  - unfold chk_array_doneness. cbn [ji_ajtrk set_ji_ajtrk tkm_flags set_tkm_flags].
    destruct (Z.eqb_spec (Z.land (Z.lor (tkm_flags t2) TKMFLG_CHK_ARRAY)
                            (Z.lor TKMFLG_NO_DELETE TKMFLG_CHK_ARRAY)) 0) as [Hz|];
      [|reflexivity].
    exfalso. exact (chk_array_latched _ Hbit Hz).
Qed.

Lemma almost_done_tbl_ok : table_ok almost_done_tbl.
Proof.
  split; [intros []; vm_compute; reflexivity|vm_compute; reflexivity|].
  vm_compute. discriminate.
Qed.

Lemma almost_done_others (o : Z) (e : ajtrk) :
  o <> 2 -> tbl_get almost_done_tbl o = Some e ->
  active_state (trk_status e) = false.
Proof.
  intros Ho Hget. destruct (tbl_get_Some _ _ _ Hget) as [Hrange Hlook].
  change (Z.of_nat (length (tkm_tbl almost_done_tbl))) with 4 in Hrange.
  assert (o = 0 \/ o = 1 \/ o = 3) as [-> | [-> | ->]] by lia;
    vm_compute in Hlook; injection Hlook as <-; reflexivity.
Qed.

Lemma update_subjob_state_last_expiry_witness :
  exists parent' calls,
    @update_subjob_state sample_job_h false (mk_exit_attrs None false)
      last_subjob almost_done_job JOB_STATE_EXPIRED
    = Some (parent', calls)
    /\ ji_exitstat parent' = 2.
Proof.
  destruct (@update_subjob_state_last_expiry sample_job_h false
              (mk_exit_attrs None false) last_subjob almost_done_job
              almost_done_tbl (@new_ajtrk sample_job_h JOB_STATE_QUEUED)
              "1" "7].svr" "2"%char eq_refl eq_refl)
    as (parent' & calls & Hrun & _ & Hneg & _).
  - discriminate.
  - vm_compute. reflexivity.
  - exact almost_done_tbl_ok.
  - vm_compute. reflexivity.
  - reflexivity.
  - discriminate.
  - vm_compute. reflexivity.
  - reflexivity.
  - exact almost_done_others.
  - exists parent', calls. split; [exact Hrun|]. apply Hneg. simpl. lia.
Defined.

(** ** subst_array_index *)

Lemma prefix_app (tag post : string) : String.prefix tag (tag ++ post) = true.
Proof.
  induction tag as [|c tag IH]; [destruct post; reflexivity|].
  simpl. destruct (ascii_dec c c); [exact IH|congruence].
Qed.

Lemma prefix_split (tag s : string) :
  String.prefix tag s = true -> exists post, s = tag ++ post.
Proof.
  revert s. induction tag as [|c tag IH]; intros s H.
  - exists s. reflexivity.
  - destruct s as [|d s]; [discriminate|]. simpl in H.
    destruct (ascii_dec c d) as [->|]; [|discriminate].
    destruct (IH s H) as [post ->]. exists post. reflexivity.
Qed.

Lemma strstr_unfold (s tag : string) :
  strstr s tag
  = if String.prefix tag s then Some s
    else match s with
         | String _ r => strstr r tag
         | EmptyString => None
         end.
Proof. destruct s; reflexivity. Qed.

Lemma strstr_first (tag r pre : string) :
  String.prefix tag r = true ->
  (forall k, (k < String.length pre)%nat ->
     String.prefix tag (string_drop k (pre ++ r)) = false) ->
  strstr (pre ++ r) tag = Some r.
Proof.
  intros Hr. induction pre as [|c pre IH]; intros Hfirst.
  - cbn [append]. rewrite strstr_unfold, Hr. reflexivity.
  - rewrite strstr_unfold.
    pose proof (Hfirst 0%nat ltac:(simpl; lia)) as H0.
    cbn [string_drop] in H0. rewrite H0. cbn [append].
    apply IH. intros k Hk. apply (Hfirst (S k)). simpl. lia.
Qed.

Lemma strstr_Some (tag s r : string) :
  strstr s tag = Some r -> exists pre post, s = pre ++ tag ++ post.
Proof.
  revert r. induction s as [|c s IH]; intros r; rewrite strstr_unfold.
  - destruct (String.prefix tag "") eqn:Hp; [|discriminate].
    intros _. destruct (prefix_split _ _ Hp) as [post ->].
    exists "", post. reflexivity.
  - destruct (String.prefix tag (String c s)) eqn:Hp.
    + intros _. destruct (prefix_split _ _ Hp) as [post ->].
      exists "", post. reflexivity.
    + intros H. destruct (IH r H) as (pre & post & ->).
      exists (String c pre), post. reflexivity.
Qed.

Lemma string_take_app (a b : string) : string_take (String.length a) (a ++ b) = a.
Proof. induction a as [|c a IH]; simpl; [destruct b; reflexivity|]. rewrite IH. reflexivity. Qed.

Lemma string_drop_app (a b : string) : string_drop (String.length a) (a ++ b) = b.
Proof. induction a as [|c a IH]; simpl; [destruct b; reflexivity|]. exact IH. Qed.

Section SubstProperties.
Variable PBS_FILE_ARRAY_INDEX_TAG : string.
Variable uLTostr : Z -> string.

(** X20.  [subst_array_index] replaces the first index tag of a path by
    the decimal index of the subjob and keeps what stands before and
    after it; a later tag is not replaced.  For a job without an array
    parent, or a path in which the tag does not occur, the path is
    returned unchanged. *)
Theorem subst_array_index_first_tag (pjob ppjob : job) (t : ajtrkhd)
    (pre post path : string) :
  ji_ajtrk ppjob = Some t ->
  (forall k, (k < String.length pre)%nat ->
     String.prefix PBS_FILE_ARRAY_INDEX_TAG
       (string_drop k (pre ++ PBS_FILE_ARRAY_INDEX_TAG ++ post)) = false) ->
  subst_array_index PBS_FILE_ARRAY_INDEX_TAG uLTostr pjob (Some ppjob)
    (pre ++ PBS_FILE_ARRAY_INDEX_TAG ++ post)
  = Some (pre ++ uLTostr (SJ_TBLIDX_2_IDX t (ji_subjindx pjob)) ++ post)
  /\ subst_array_index PBS_FILE_ARRAY_INDEX_TAG uLTostr pjob None path
     = Some path
  /\ ((forall a b, path <> a ++ PBS_FILE_ARRAY_INDEX_TAG ++ b) ->
      subst_array_index PBS_FILE_ARRAY_INDEX_TAG uLTostr pjob (Some ppjob) path
      = Some path).
Proof.
  intros Ht Hfirst. split_and!.
  - unfold subst_array_index.
    rewrite (strstr_first _ _ _ (prefix_app _ post) Hfirst), Ht.
    cbn [mbind option_bind].
    rewrite string_drop_app, string_length_app.
    replace (String.length pre
             + String.length (PBS_FILE_ARRAY_INDEX_TAG ++ post)
             - String.length (PBS_FILE_ARRAY_INDEX_TAG ++ post))%nat
      with (String.length pre) by lia.
    rewrite string_take_app. reflexivity.
  - reflexivity.
  - intros Hnone. unfold subst_array_index.
    destruct (strstr path PBS_FILE_ARRAY_INDEX_TAG) as [r|] eqn:Hstr;
      [|reflexivity].
    exfalso. destruct (strstr_Some _ _ _ Hstr) as (a & b & Heq).
    exact (Hnone a b Heq).
Qed.

End SubstProperties.

Lemma subst_array_index_first_tag_witness :
  subst_array_index "^array_index^" sprintf_d last_subjob
    (Some (sample_job (Some sample_tbl))) "out.^array_index^.log"
  = Some "out.7.log".
Proof.
  destruct (subst_array_index_first_tag "^array_index^" sprintf_d last_subjob
              (sample_job (Some sample_tbl)) sample_tbl "out." ".log" ""
              eq_refl) as [H _].
  - intros k Hk. simpl in Hk.
    assert (k = 0 \/ k = 1 \/ k = 2 \/ k = 3)%nat as [-> | [-> | [-> | ->]]] by lia;
      reflexivity.
  - exact H.
Defined.

(** ** Edge cases of the readers *)

(** X21.  [parse_subjob_index] reads a numeral through [strtol] into an
    [int]: a decimal numeral up to [LONG_MAX] is taken modulo 2^32, so a
    numeral above [INT_MAX] is not rejected but read as another index,
    and two numerals 2^32 apart are read as the same single index. *)
Theorem parse_subjob_index_wraps (X : Z) (rest : string) :
  0 <= X <= LONG_MAX ->
  parse_subjob_index (print_nat X) = Parsed "" (to_int X) (to_int X) 1 1
  /\ parse_subjob_index (print_nat X ++ "," ++ rest)
     = Parsed rest (to_int X) (to_int X) 1 1
  /\ (X + 4294967296 <= LONG_MAX ->
      parse_subjob_index (print_nat (X + 4294967296))
      = parse_subjob_index (print_nat X)).
Proof.
  intros HX.
  assert (forall Y r, 0 <= Y <= LONG_MAX -> digit_at r = false ->
            parse_subjob_index (print_nat Y ++ r) = parse_after_start (to_int Y) r)
    as Hread.
  { intros Y r HY Hr. destruct (print_nat_numeral Y HY r Hr) as [Hd Hstr].
    rewrite parse_subjob_index_steps. cbv zeta.
    destruct (digit_at_facts _ Hd) as (_ & -> & -> & _ & _ & -> & _).
    rewrite Hd, Hstr. reflexivity. }
  assert (forall Y, 0 <= Y <= LONG_MAX ->
            parse_subjob_index (print_nat Y) = Parsed "" (to_int Y) (to_int Y) 1 1)
    as Hsingle.
  { intros Y HY. rewrite <- (string_app_empty_r (print_nat Y)).
    rewrite Hread by (assumption || reflexivity). apply parse_after_start_end. }
  split_and!.
  - apply Hsingle. exact HX.
  - rewrite Hread by (assumption || reflexivity). apply parse_after_start_comma.
  - intros Hmax. rewrite !Hsingle by lia.
    assert (to_int (X + 4294967296) = to_int X) as ->; [|reflexivity].
    unfold to_int.
    replace (X + 4294967296 + 2147483648)
      with (X + 2147483648 + 1 * 4294967296) by lia.
    rewrite Z.mod_add by lia. reflexivity.
Qed.

Lemma parse_subjob_index_wraps_witness :
  parse_subjob_index (print_nat 4294967297) = Parsed "" 1 1 1 1.
Proof.
  destruct (parse_subjob_index_wraps 4294967297 "") as [H _].
  - unfold LONG_MAX. lia.
  - exact H.
Defined.

(** X22.  [is_job_array] goes by the first '[' of the id only: no '['
    is "not an array", a ']' right after it is the array job itself;
    otherwise the digits after it are skipped, and a '-' or ',' that
    follows them makes the id a range of subjobs, anything else (also a
    missing ']' or no digit at all) a single subjob. *)
Theorem is_job_array_kinds (pre digits r : string) :
  lacks "[" pre = true ->
  all_digits digits = true ->
  digit_at r = false ->
  is_job_array pre = IS_ARRAY_NO
  /\ is_job_array (pre ++ "[" ++ "]" ++ r) = IS_ARRAY_ArrayJob
  /\ (char_at "]" (digits ++ r) = false ->
      is_job_array (pre ++ "[" ++ digits ++ r)
      = if char_at "-" r || char_at "," r then IS_ARRAY_Range
        else IS_ARRAY_Single).
Proof.
  intros Hpre Hdig Hr. unfold is_job_array. split_and!.
  - rewrite (strchr_lacks _ _ Hpre). reflexivity.
  - rewrite (strchr_app_lacks "[" pre _ Hpre). reflexivity.
  - intros Hclose. rewrite (strchr_app_lacks "[" pre _ Hpre).
    change (strchr ("[" ++ digits ++ r) "[") with (Some ("[" ++ digits ++ r)).
    cbv beta match zeta.
    change (advance ("[" ++ digits ++ r)) with (digits ++ r).
    rewrite Hclose, (skip_digits_app digits r Hdig Hr). reflexivity.
Qed.

Lemma is_job_array_kinds_witness :
  is_job_array "12.svr" = IS_ARRAY_NO
  /\ is_job_array "12[].svr" = IS_ARRAY_ArrayJob
  /\ is_job_array "12[3-7].svr" = IS_ARRAY_Range.
Proof.
  destruct (is_job_array_kinds "12.svr" "" ".svr" eq_refl eq_refl eq_refl)
    as (Hno & _ & _).
  destruct (is_job_array_kinds "12" "" ".svr" eq_refl eq_refl eq_refl)
    as (_ & Harr & _).
  destruct (is_job_array_kinds "12" "3" "-7].svr" eq_refl eq_refl eq_refl)
    as (_ & _ & Hrange).
  split_and!; [exact Hno|exact Harr|exact (Hrange eq_refl)].
Defined.

(** X23.  [subjob_index_to_offset] reads the index text with [atoi]:
    the decimal index of a slot maps to the slot whatever non-digit
    text follows the digits, and a text that starts with neither a
    digit, a sign nor white space is read as index 0; only the empty
    text and a job without a table are answered -1 outright. *)
Theorem subjob_index_to_offset_atoi (parent : job) (t : ajtrkhd) (o : Z)
    (junk text : string) :
  ji_ajtrk parent = Some t ->
  wf_table t ->
  0 <= o < tkm_ct t ->
  digit_at junk = false ->
  subjob_index_to_offset parent (sprintf_d (SJ_TBLIDX_2_IDX t o) ++ junk) = o
  /\ subjob_index_to_offset parent "" = -1
  /\ subjob_index_to_offset (set_ji_ajtrk None parent) text = -1
  /\ (at_nul text = false -> digit_at text = false -> space_at text = false ->
      char_at "-" text = false -> char_at "+" text = false ->
      subjob_index_to_offset parent text = numindex_to_offset parent 0).
Proof.
  intros Ht Hwf Ho Hjunk.
  pose proof (SJ_TBLIDX_2_IDX_wf t o Hwf Ho) as HSJ.
  pose proof (wf_offset_bounds t o Hwf Ho) as Hb.
  pose proof (wf_start t Hwf) as Hstart. pose proof (wf_end t Hwf) as Hend.
  split_and!.
  - set (n := SJ_TBLIDX_2_IDX t o) in *.
    rewrite sprintf_d_nonneg by lia.
    unfold subjob_index_to_offset. rewrite Ht.
    pose proof (print_nat_digit_at n junk) as Hd.
    destruct (digit_at_facts _ Hd) as (_ & _ & -> & _).
    unfold atoi. rewrite strtol_print_nat by (apply int_max_long || assumption; lia).
    cbn [fst]. rewrite to_int_id by (apply int_max_is_int; lia).
    apply (numindex_to_offset_of_offset parent t o Ht Hwf Ho).
  - unfold subjob_index_to_offset. rewrite Ht. reflexivity.
  - unfold subjob_index_to_offset. destruct parent. reflexivity.
  - intros Hnul Hdig Hsp Hminus Hplus.
    unfold subjob_index_to_offset. rewrite Ht, Hnul.
    unfold atoi, strtol.
    assert (skip_spaces text = text) as ->.
    { destruct text as [|c r]; [reflexivity|]. simpl in Hsp |- *.
      rewrite Hsp. reflexivity. }
    rewrite Hminus, Hplus, Hdig. reflexivity.
Qed.

Lemma subjob_index_to_offset_atoi_witness :
  subjob_index_to_offset (sample_job (Some sample_tbl)) "7x" = 2.
Proof.
  destruct (subjob_index_to_offset_atoi (sample_job (Some sample_tbl)) sample_tbl
              2 "x" "" eq_refl sample_tbl_wf) as [H _].
  - simpl. lia.
  - reflexivity.
  - exact H.
Defined.

(** ** cvt_range on a whole table *)

Lemma cvt_range_run_all (t : ajtrkhd) (state : job_state) :
  wf_table t ->
  (forall o, (o < length (tkm_tbl t))%nat -> status_is t o state = true) ->
  forall fuel next last,
  (length (tkm_tbl t) <= fuel + next)%nat ->
  (last < length (tkm_tbl t))%nat ->
  next = S last ->
  cvt_range_run fuel t state next last = (length (tkm_tbl t) - 1)%nat.
Proof.
  intros Hwf Hall. induction fuel as [|fuel IH]; intros next last Hf Hl Hn.
  - simpl. lia.
  - cbn [cvt_range_run]. rewrite (in_table_ltb t Hwf).
    destruct (decide (next < length (tkm_tbl t))%nat) as [Hlt|Hge].
    + rewrite (bool_decide_eq_true_2 _ Hlt), (Hall next Hlt). cbn [andb].
      apply IH; lia.
    + rewrite (bool_decide_eq_false_2 _ Hge). cbn [andb]. lia.
Qed.

(** X24.  For a state that every slot of a well-formed table is in (the
    state Queued of a table just built), [cvt_range] writes the range in
    a normal form: the first index alone for one slot, "first,last" for
    two, and "first-last" (with ":step" when the step is above 1) for
    more, where last is the index of the last slot, which may lie below
    the end that was submitted. *)
Theorem cvt_range_whole_table (pjob : job) (t : ajtrkhd) (state : job_state) :
  ji_ajtrk pjob = Some t ->
  wf_table t ->
  Forall (fun ent => trk_status ent = state) (tkm_tbl t) ->
  cvt_range pjob state
  = Some (sprintf_d (tkm_start t)
          ++ (if tkm_ct t =? 1 then ""
              else if tkm_ct t =? 2 then
                "," ++ sprintf_d (tkm_start t + (tkm_ct t - 1) * tkm_step t)
              else if tkm_step t >? 1 then
                "-" ++ sprintf_d (tkm_start t + (tkm_ct t - 1) * tkm_step t)
                    ++ ":" ++ sprintf_d (tkm_step t)
              else
                "-" ++ sprintf_d (tkm_start t + (tkm_ct t - 1) * tkm_step t))).
Proof.
  intros Ht Hwf Hall.
  pose proof (wf_len t Hwf) as Hlen. pose proof (wf_ct_pos t Hwf) as Hpos.
  assert (forall o, (o < length (tkm_tbl t))%nat -> status_is t o state = true)
    as Hst.
  { intros o Ho. unfold status_is.
    destruct (lookup_lt_is_Some_2 _ _ Ho) as [ent Hent]. rewrite Hent.
    apply bool_decide_eq_true. eapply Forall_lookup_1 in Hall; eassumption. }
  unfold cvt_range. rewrite Ht. f_equal.
  destruct (Z.to_nat (tkm_ct t)) as [|m] eqn:Hm; [lia|].
  rewrite (cvt_range_loop_run t state Hwf) by (lia || apply Hst; lia).
  rewrite (cvt_range_run_all t state Hwf Hst) by lia.
  rewrite (cvt_range_loop_done t state Hwf) by lia.
  cbn [append]. unfold run_text.
  rewrite (SJ_TBLIDX_2_IDX_wf t (Z.of_nat 0) Hwf) by lia.
  rewrite (SJ_TBLIDX_2_IDX_wf t (Z.of_nat (length (tkm_tbl t) - 1)) Hwf) by lia.
  replace (tkm_start t + Z.of_nat 0 * tkm_step t) with (tkm_start t) by lia.
  replace (Z.of_nat (length (tkm_tbl t) - 1)) with (tkm_ct t - 1) by lia.
  destruct (Z.eqb_spec (tkm_ct t) 1) as [H1|H1].
  - destruct (Nat.ltb_spec 1 (length (tkm_tbl t) - 1)); [lia|].
    destruct (Nat.ltb_spec 0 (length (tkm_tbl t) - 1)); [lia|]. reflexivity.
  - destruct (Z.eqb_spec (tkm_ct t) 2) as [H2|H2].
    + destruct (Nat.ltb_spec 1 (length (tkm_tbl t) - 1)); [lia|].
      destruct (Nat.ltb_spec 0 (length (tkm_tbl t) - 1)); [|lia]. reflexivity.
    + destruct (Nat.ltb_spec 1 (length (tkm_tbl t) - 1)); [|lia]. reflexivity.
Qed.

Lemma cvt_range_whole_table_witness :
  cvt_range (sample_job (Some sample_tbl)) JOB_STATE_QUEUED = Some "1-10:3".
Proof.
  apply (cvt_range_whole_table (sample_job (Some sample_tbl)) sample_tbl
           JOB_STATE_QUEUED eq_refl sample_tbl_wf).
  vm_compute. repeat constructor.
Defined.

(** ** What fixup_arrayindicies leaves alone *)

Lemma set_ji_ajtrk_same (p : job) : set_ji_ajtrk (ji_ajtrk p) p = p.
Proof. destruct p. reflexivity. Qed.

Lemma set_ji_ajtrk_twice (a b : option ajtrkhd) (p : job) :
  set_ji_ajtrk a (set_ji_ajtrk b p) = set_ji_ajtrk a p.
Proof. destruct p. reflexivity. Qed.

Lemma frame_trans (p p' p'' : job) :
  p' = set_ji_ajtrk (ji_ajtrk p') p ->
  p'' = set_ji_ajtrk (ji_ajtrk p'') p' ->
  p'' = set_ji_ajtrk (ji_ajtrk p'') p.
Proof. intros H1 H2. rewrite H2 at 1. rewrite H1, set_ji_ajtrk_twice. reflexivity. Qed.

Lemma set_subjob_tblstate_frame `{hdr : job_h} (p p' : job) (o : Z)
    (s : job_state) :
  set_subjob_tblstate p o s = Some p' -> p' = set_ji_ajtrk (ji_ajtrk p') p.
Proof.
  unfold set_subjob_tblstate.
  destruct (o =? -1); [intros [= <-]; symmetry; apply set_ji_ajtrk_same|].
  destruct (ji_ajtrk p) as [t|] eqn:Ht;
    [|intros [= <-]; symmetry; apply set_ji_ajtrk_same].
  destruct (tbl_get t o) as [ent|]; [|discriminate]. cbn [mbind option_bind].
  destruct (decide (trk_status ent = s));
    intros [= <-]; [symmetry; apply set_ji_ajtrk_same|].
  cbn [ji_ajtrk set_ji_ajtrk]. destruct p. reflexivity.
Qed.

Lemma expire_loop_frame `{hdr : job_h} (fuel : nat) :
  forall (i : Z) (p p' : job),
  expire_loop fuel i p = Some p' -> p' = set_ji_ajtrk (ji_ajtrk p') p.
Proof.
  induction fuel as [|fuel IH]; intros i p p'; cbn [expire_loop].
  - intros [= <-]. symmetry. apply set_ji_ajtrk_same.
  - destruct (set_subjob_tblstate p i JOB_STATE_EXPIRED) as [p1|] eqn:H1;
      [|discriminate]. cbn [mbind option_bind]. intros H2.
    eapply frame_trans; [exact (set_subjob_tblstate_frame _ _ _ _ H1)|].
    exact (IH _ _ _ H2).
Qed.

Lemma requeue_loop_frame `{hdr : job_h} (fuel : nat) :
  forall (i end_ step : Z) (p p' : job),
  requeue_loop fuel i end_ step p = Some p' ->
  p' = set_ji_ajtrk (ji_ajtrk p') p.
Proof.
  induction fuel as [|fuel IH]; intros i end_ step p p'; cbn [requeue_loop];
    destruct (i <=? end_); try discriminate;
    try (intros [= <-]; symmetry; apply set_ji_ajtrk_same).
  destruct (set_subjob_tblstate p _ JOB_STATE_QUEUED) as [p1|] eqn:H1;
    [|discriminate]. cbn [mbind option_bind]. intros H2.
  eapply frame_trans; [exact (set_subjob_tblstate_frame _ _ _ _ H1)|].
  exact (IH _ _ _ _ _ H2).
Qed.

Lemma fixup_loop_frame `{hdr : job_h} (fuel : nat) :
  forall (str : string) (p p' : job),
  fixup_loop fuel str p = Some p' -> p' = set_ji_ajtrk (ji_ajtrk p') p.
Proof.
  induction fuel as [|fuel IH]; intros str p p'; cbn [fixup_loop];
    destruct (parse_subjob_index str) as [ep s e st c| |]; try discriminate;
    try (intros [= <-]; symmetry; apply set_ji_ajtrk_same).
  destruct (requeue_loop _ _ _ _ p) as [p1|] eqn:H1; [|discriminate].
  cbn [mbind option_bind]. intros H2.
  eapply frame_trans; [exact (requeue_loop_frame _ _ _ _ _ _ H1)|].
  exact (IH _ _ _ H2).
Qed.

(** An answer of [fixup_arrayindicies] and the job it comes with. *)
Lemma fixup_arrayindicies_answer `{hdr : job_h} (pattr : string)
    (pjob pjob' : job) (mode : atr_action) (rc : pbs_error) :
  fixup_arrayindicies pattr pjob mode = Some (rc, pjob') ->
  (rc = PBSE_NONE \/ rc = PBSE_BADATVAL)
  /\ (rc = PBSE_BADATVAL
      <-> ji_ajtrk pjob = None
          \/ Z.land (ji_svrflags pjob) JOB_SVFLG_ArrayJob = 0)
  /\ (rc = PBSE_BADATVAL -> pjob' = pjob)
  /\ (Z.land (ji_svrflags pjob) JOB_SVFLG_HERE <> 0 ->
      mode = ATR_ACTION_NEW -> pjob' = pjob)
  /\ pjob' = set_ji_ajtrk (ji_ajtrk pjob') pjob.
Proof.
  unfold fixup_arrayindicies.
  destruct (ji_ajtrk pjob) as [t|] eqn:Ht.
  2:{ intros [= <- <-]. split_and!; auto.
      - tauto.
      - symmetry. apply set_ji_ajtrk_same. }
  destruct (Z.eqb_spec (Z.land (ji_svrflags pjob) JOB_SVFLG_ArrayJob) 0)
    as [Hz|Hnz].
  { intros [= <- <-]. split_and!; auto.
    - tauto.
    - symmetry. apply set_ji_ajtrk_same. }
  destruct (Z.eqb_spec (Z.land (ji_svrflags pjob) JOB_SVFLG_HERE) 0) as [Hh|Hh];
    cbn [negb andb].
  - destruct (expire_loop _ 0 pjob) as [p1|] eqn:H1; [|discriminate].
    cbn [mbind option_bind].
    destruct (fixup_loop _ pattr p1) as [p2|] eqn:H2; [|discriminate].
    cbn [mbind option_bind]. intros [= <- <-].
    split_and!; [auto| |discriminate|contradiction|].
    + split; [discriminate|]. intros [H|H]; [discriminate|contradiction].
    + eapply frame_trans; [exact (expire_loop_frame _ _ _ _ H1)|].
      exact (fixup_loop_frame _ _ _ _ H2).
  - destruct (decide (mode = ATR_ACTION_NEW)) as [Hm|Hm].
    + rewrite (bool_decide_eq_true_2 _ Hm). intros [= <- <-].
      split_and!; [auto| |discriminate|reflexivity|].
      * split; [discriminate|]. intros [H|H]; [discriminate|contradiction].
      * symmetry. apply set_ji_ajtrk_same.
    + rewrite (bool_decide_eq_false_2 _ Hm).
      destruct (expire_loop _ 0 pjob) as [p1|] eqn:H1; [|discriminate].
      cbn [mbind option_bind].
      destruct (fixup_loop _ pattr p1) as [p2|] eqn:H2; [|discriminate].
      cbn [mbind option_bind]. intros [= <- <-].
      split_and!; [auto| |discriminate|contradiction|].
      * split; [discriminate|]. intros [H|H]; [discriminate|contradiction].
      * eapply frame_trans; [exact (expire_loop_frame _ _ _ _ H1)|].
        exact (fixup_loop_frame _ _ _ _ H2).
Qed.


(** X25.  [fixup_arrayindicies] answers PBSE_BADATVAL, leaving the job as
    it is, for a job without a table or without the array flag, and
    PBSE_NONE, leaving the job as it is, in mode ATR_ACTION_NEW for a
    job created here.  Otherwise, on a well-formed table that satisfies
    the histogram invariant and for every text whose ranges expand
    without [int] overflow, it answers PBSE_NONE, also when the text
    ends in a syntax error, which is not reported, and it changes
    nothing of the job but its tracking table. *)
Theorem fixup_arrayindicies_frame `{hdr : job_h} (pattr : string)
    (pjob : job) (mode : atr_action) :
  (ji_ajtrk pjob = None \/ Z.land (ji_svrflags pjob) JOB_SVFLG_ArrayJob = 0 ->
   fixup_arrayindicies pattr pjob mode = Some (PBSE_BADATVAL, pjob))
  /\ (ji_ajtrk pjob <> None ->
      Z.land (ji_svrflags pjob) JOB_SVFLG_ArrayJob <> 0 ->
      Z.land (ji_svrflags pjob) JOB_SVFLG_HERE <> 0 ->
      mode = ATR_ACTION_NEW ->
      fixup_arrayindicies pattr pjob mode = Some (PBSE_NONE, pjob))
  /\ (forall t indices last,
      ji_ajtrk pjob = Some t ->
      wf_table t ->
      table_ok t ->
      Z.land (ji_svrflags pjob) JOB_SVFLG_ArrayJob <> 0 ->
      Z.land (ji_svrflags pjob) JOB_SVFLG_HERE = 0 \/ mode <> ATR_ACTION_NEW ->
      parse_indices pattr = Some (indices, last) ->
      exists pjob',
        fixup_arrayindicies pattr pjob mode = Some (PBSE_NONE, pjob')
        /\ pjob' = set_ji_ajtrk (ji_ajtrk pjob') pjob).
Proof.
  split_and!.
  - intros Hguard. unfold fixup_arrayindicies.
    destruct (ji_ajtrk pjob) as [t|]; [|reflexivity].
    destruct Hguard as [Hn|Hz]; [discriminate|]. rewrite Hz. reflexivity.
  - intros Ht Harray Hhere ->. unfold fixup_arrayindicies.
    destruct (ji_ajtrk pjob) as [t|]; [|contradiction].
    destruct (Z.eqb_spec (Z.land (ji_svrflags pjob) JOB_SVFLG_ArrayJob) 0);
      [contradiction|].
    destruct (Z.eqb_spec (Z.land (ji_svrflags pjob) JOB_SVFLG_HERE) 0);
      [contradiction|]. reflexivity.
  - intros t indices last Ht Hwf Hok Harray Hhere Hparse.
    destruct (fixup_arrayindicies_states pattr pjob t mode indices last
                Ht Hwf Hok Harray Hhere Hparse)
      as (pjob' & t' & Hfix & _).
    exists pjob'. split; [exact Hfix|].
    apply (fixup_arrayindicies_answer pattr pjob pjob' mode PBSE_NONE Hfix).
Qed.

Lemma fixup_arrayindicies_frame_witness :
  exists pjob',
    @fixup_arrayindicies sample_job_h "4,x" (sample_job (Some sample_tbl))
      ATR_ACTION_ALTER = Some (PBSE_NONE, pjob')
    /\ pjob' = set_ji_ajtrk (ji_ajtrk pjob') (sample_job (Some sample_tbl)).
Proof.
  destruct (@fixup_arrayindicies_frame sample_job_h "4,x"
              (sample_job (Some sample_tbl)) ATR_ACTION_ALTER) as (_ & _ & Hrun).
  apply (Hrun sample_tbl [4] ParseError).
  - reflexivity.
  - exact sample_tbl_wf.
  - exact sample_tbl_ok.
  - vm_compute. discriminate.
  - left. reflexivity.
  - vm_compute. reflexivity.
Defined.

(** * Construction, the segment forms and the round trip *)



Lemma parse_after_start_dash_cast (X Y : Z) (rest : string) :
  0 <= Y <= LONG_MAX -> digit_at rest = false ->
  parse_after_start X (String "-" (print_nat Y ++ rest))
  = parse_after_end X (to_int Y) rest.
Proof.
  intros HY Hrest. destruct (print_nat_numeral Y HY rest Hrest) as [_ Hstr].
  unfold parse_after_start. simpl. rewrite Hstr. reflexivity.
Qed.

Lemma parse_numeral_cast (X : Z) (rest : string) :
  0 <= X <= LONG_MAX -> digit_at rest = false ->
  parse_subjob_index (print_nat X ++ rest) = parse_after_start (to_int X) rest.
Proof.
  intros HX Hrest. destruct (print_nat_numeral X HX rest Hrest) as [Hd Hstr].
  rewrite parse_subjob_index_steps. cbv zeta.
  destruct (digit_at_facts _ Hd) as (_ & -> & -> & _ & _ & -> & _).
  rewrite Hd, Hstr. reflexivity.
Qed.

(** C8.  [parse_subjob_index] tests start >= end and step < 1 on the
    [int] values that the numerals were cast to, not on the numerals: a
    dash form X-Y is answered -1 when (int)Y <= (int)X and accepted when
    (int)X < (int)Y.  So "4294967296-5", where X >= Y, is accepted as
    the range 0-5 of count 6, and "1-5:-4294967295", where Z < 1, is
    accepted with step 1. *)
Theorem parse_subjob_index_tests_after_cast :
  parse_subjob_index "4294967296-5" = Parsed "" 0 5 1 6
  /\ parse_subjob_index "1-5:-4294967295" = Parsed "" 1 5 1 5
  /\ (forall X Y rest,
      0 <= X <= LONG_MAX -> 0 <= Y <= LONG_MAX -> digit_at rest = false ->
      to_int Y <= to_int X ->
      parse_subjob_index (print_nat X ++ "-" ++ print_nat Y ++ rest) = ParseError)
  /\ (forall X Y,
      0 <= X <= LONG_MAX -> 0 <= Y <= LONG_MAX ->
      to_int X < to_int Y ->
      parse_subjob_index (print_nat X ++ "-" ++ print_nat Y)
      = Parsed "" (to_int X) (to_int Y) 1
          (Z.quot (int_add (int_sub (to_int Y) (to_int X)) 1) 1)).
Proof.
  split_and!.
  - vm_compute. reflexivity.
  - vm_compute. reflexivity.
  - intros X Y rest HX HY Hrest Hle.
    rewrite parse_numeral_cast by (assumption || reflexivity).
    change ("-" ++ print_nat Y ++ rest) with (String "-" (print_nat Y ++ rest)).
    rewrite parse_after_start_dash_cast by assumption.
    apply parse_after_end_order. exact Hle.
  - intros X Y HX HY Hlt.
    rewrite parse_numeral_cast by (assumption || reflexivity).
    change ("-" ++ print_nat Y) with (String "-" (print_nat Y)).
    rewrite <- (string_app_empty_r (print_nat Y)).
    rewrite parse_after_start_dash_cast by (assumption || reflexivity).
    rewrite parse_after_end_end by exact Hlt. reflexivity.
Qed.

Lemma parse_subjob_index_tests_after_cast_witness :
  parse_subjob_index "4294967303-5" = ParseError
  /\ parse_subjob_index "4294967296-5" = Parsed "" 0 5 1 6.
Proof.
  destruct parse_subjob_index_tests_after_cast as (_ & _ & Hreject & Haccept).
  split.
  - apply (Hreject 4294967303 5 "");
      [unfold LONG_MAX; lia|unfold LONG_MAX; lia|reflexivity|vm_compute; discriminate].
  - apply (Haccept 4294967296 5);
      [unfold LONG_MAX; lia|unfold LONG_MAX; lia|vm_compute; reflexivity].
Defined.

(** C3.  The round trip of [cvt_range] and [parse_subjob_index] breaks
    on tables the code builds.  The range "4294967290-5" is read as
    start -6 and builds a table of 12 slots; for its Queued slots
    [cvt_range] writes "-6-5", which [parse_subjob_index] answers with
    -1, so that no index is read back where twelve are Queued.  And on
    the table of "1000000000-1000000360:2" with 89 single Queued slots
    before a run of three, the turn of the run starts with 22 bytes
    free, which is not below 20, and writes 24 characters: past the end
    of the buffer of 1000 bytes. *)
Theorem cvt_range_round_trip_breaks :
  @mk_subjob_index_tbl sample_job_h sample_env "4294967290-5" JOB_STATE_QUEUED
    ATR_ACTION_NEW = Built (built_tbl "4294967290-5")
  /\ tkm_start (built_tbl "4294967290-5") = -6
  /\ tkm_ct (built_tbl "4294967290-5") = 12
  /\ cvt_range_static true None wrapped_job JOB_STATE_QUEUED
     = Cvt_text "-6-5" 1000
  /\ cvt_range wrapped_job JOB_STATE_QUEUED = Some "-6-5"
  /\ parse_subjob_index "-6-5" = ParseError
  /\ parse_indices "-6-5" = Some ([], ParseError)
  /\ state_indices (built_tbl "4294967290-5") JOB_STATE_QUEUED
     = [-6; -5; -4; -3; -2; -1; 0; 1; 2; 3; 4; 5]
  /\ @mk_subjob_index_tbl sample_job_h sample_env "1000000000-1000000360:2"
       JOB_STATE_QUEUED ATR_ACTION_NEW
     = Built (built_tbl "1000000000-1000000360:2")
  /\ cvt_range_static true None long_index_job JOB_STATE_QUEUED = Cvt_undefined.
Proof.
  split_and!; vm_compute; reflexivity.
Qed.
